(** * Cognitive Echo: the real-time speech orchestrator

    A shallow embedding of the server-side core of the repository:
    [OpenAIService] (confidence estimate, conversation contexts),
    the session routes of [/api/speech] and [SocketService] (the
    per-user single-flight turn pipeline), followed by the properties
    the specification states about them.

    Around that core the file embeds what guards and surrounds it: the
    middleware of [middleware/auth.js], the routes of
    [/api/memory-garden], the daily progress of a user and the
    registration and login routes, with properties read off their code.

    Conventions of the embedding.
    - JavaScript numbers are exact rationals extended with the IEEE
      special values [NaN], [+Infinity] and [-Infinity]; rounding and the
      sign of zero are not modelled.
    - A [Map] is a [gmap]; an array is a [list]; [undefined]/[null] is
      [None].
    - Every [await] of a remote call is a suspension point: the pending
      invocation is stored in the state and resumed by a later step.
    - The handlers of feedback and the reports of progress read a row,
      await, and write what they computed from it. They are given
      twice: as functions, which is how they run when no other query
      comes between their two, and with each query as a step of its
      own ([FeedbackRace], [ProgressRace]). *)

From Stdlib Require Import ZArith QArith Qcanon String List Lia.
From stdpp Require Import numbers gmap strings list fin_maps pretty sorting.

Local Open Scope Z_scope.

(** ** JavaScript numbers *)

Module JsNum.

Inductive num : Type :=
| NaN
| PInf
| NInf
| Fin (q : Qc).

Definition zero : num := Fin 0%Qc.
Definition one : num := Fin 1%Qc.

(** [0.1], the literal of line 801. *)
Definition tenth : Qc := Q2Qc (1 # 10).

Definition of_nat (n : nat) : num := Fin (Qc_of_Z (Z.of_nat n)).

Definition Qc_ltb (a b : Qc) : bool :=
  match (a ?= b)%Qc with Lt => true | _ => false end.

Definition Qc_eqb (a b : Qc) : bool :=
  match (a ?= b)%Qc with Eq => true | _ => false end.

(** [a + b] *)
Definition add (a b : num) : num :=
  match a, b with
  | NaN, _ | _, NaN => NaN
  | PInf, NInf | NInf, PInf => NaN
  | PInf, _ | _, PInf => PInf
  | NInf, _ | _, NInf => NInf
  | Fin x, Fin y => Fin (x + y)%Qc
  end.

(** [a - b] *)
Definition sub (a b : num) : num :=
  match a, b with
  | NaN, _ | _, NaN => NaN
  | PInf, PInf | NInf, NInf => NaN
  | PInf, _ | _, NInf => PInf
  | NInf, _ | _, PInf => NInf
  | Fin x, Fin y => Fin (x - y)%Qc
  end.

(** [a * b] *)
Definition mul (a b : num) : num :=
  match a, b with
  | NaN, _ | _, NaN => NaN
  | Fin x, Fin y => Fin (x * y)%Qc
  | Fin x, PInf | PInf, Fin x =>
      if Qc_eqb x 0 then NaN else if Qc_ltb x 0 then NInf else PInf
  | Fin x, NInf | NInf, Fin x =>
      if Qc_eqb x 0 then NaN else if Qc_ltb x 0 then PInf else NInf
  | PInf, PInf | NInf, NInf => PInf
  | PInf, NInf | NInf, PInf => NaN
  end.

(** [a / b]; a zero divisor is [+0]. *)
Definition div (a b : num) : num :=
  match a, b with
  | NaN, _ | _, NaN => NaN
  | Fin x, Fin y =>
      if Qc_eqb y 0 then
        if Qc_eqb x 0 then NaN else if Qc_ltb x 0 then NInf else PInf
      else Fin (x / y)%Qc
  | Fin _, (PInf | NInf) => zero
  | PInf, Fin y => if Qc_ltb y 0 then NInf else PInf
  | NInf, Fin y => if Qc_ltb y 0 then PInf else NInf
  | (PInf | NInf), (PInf | NInf) => NaN
  end.

(** [Math.min(a, b)] *)
Definition min (a b : num) : num :=
  match a, b with
  | NaN, _ | _, NaN => NaN
  | NInf, _ | _, NInf => NInf
  | PInf, x | x, PInf => x
  | Fin x, Fin y => if Qc_ltb y x then Fin y else Fin x
  end.

(** [Math.max(a, b)] *)
Definition max (a b : num) : num :=
  match a, b with
  | NaN, _ | _, NaN => NaN
  | PInf, _ | _, PInf => PInf
  | NInf, x | x, NInf => x
  | Fin x, Fin y => if Qc_ltb x y then Fin y else Fin x
  end.

(** Truthiness of a number: everything but [0] and [NaN]. *)
Definition truthy (a : num) : bool :=
  match a with
  | NaN => false
  | Fin x => negb (Qc_eqb x 0)
  | _ => true
  end.

(** [a] is a number of the closed unit interval. *)
Definition in_unit_interval (a : num) : Prop :=
  match a with
  | Fin q => (0 <= q)%Qc /\ (q <= 1)%Qc
  | _ => False
  end.

End JsNum.

Import JsNum.

(** Truthiness of a string: everything but the empty string. *)
Definition truthy_str (s : string) : bool :=
  match s with
  | EmptyString => false
  | _ => true
  end.

(** Outcome of a call that either returns or throws an [Error] with a
    message. *)
Inductive Result (A : Type) : Type :=
| Returns (a : A)
| Throws (message : string).

Arguments Returns {A} a.
Arguments Throws {A} message.

(** ** OpenAIService *)

Module OpenAIService.

(** One entry of [transcription.words] as Whisper returns it with
    [timestamp_granularities: ['word']]. *)
Record Word : Type := {
  word : string;
  start : Qc;
  end_ : Qc
}.

(** [calculateTranscriptionConfidence(words)], lines 794-807. *)
Definition word_confidence (w : Word) : num :=
  let wordLength := sub (Fin (end_ w)) (Fin (start w)) in
  let expectedLength := mul (of_nat (String.length (word w))) (Fin tenth) in
  min one (div expectedLength wordLength).

Definition calculateTranscriptionConfidence (words : option (list Word))
    : num :=
  match words with
  | None => zero
  | Some [] => zero
  | Some ws =>
      let avgConfidence :=
        div (fold_left (fun sum w => add sum (word_confidence w)) ws zero)
            (of_nat (length ws)) in
      max zero (min one avgConfidence)
  end.

(** The JSON object the chat completion returns, before defaults. *)
Record VisualCues : Type := {
  vc_suggested : option bool;
  vc_concept : option string
}.

Record AudioHint : Type := {
  ah_suggested : option bool;
  ah_text : option string
}.

Record RawAnalysis : Type := {
  raw_intendedMeaning : option string;
  raw_confidence : option num;
  raw_wordPredictions : option (list string);
  raw_assistanceLevel : option string;
  raw_visualCues : option VisualCues;
  raw_audioHint : option AudioHint;
  raw_emotionalContext : option string;
  raw_recommendations : option string
}.

Record Analysis : Type := {
  predictions : list string;
  confidence : num;
  intendedMeaning : string;
  assistanceLevel : string;
  visualAidSuggested : bool;
  visualConcept : option string;
  audioHintSuggested : bool;
  audioHintText : option string;
  emotionalContext : string;
  recommendations : string
}.

(** [x || d] on an optional string. *)
Definition str_or (x : option string) (d : string) : string :=
  match x with
  | Some s => if truthy_str s then s else d
  | None => d
  end.

(** [x || null] on an optional string. *)
Definition str_or_null (x : option string) : option string :=
  match x with
  | Some s => if truthy_str s then Some s else None
  | None => None
  end.

(** [formatAnalysisResponse(analysis)], lines 837-850. *)
Definition formatAnalysisResponse (analysis : RawAnalysis) : Analysis :=
  {| predictions := default [] (raw_wordPredictions analysis);
     confidence :=
       match raw_confidence analysis with
       | Some c => if truthy c then c else zero
       | None => zero
       end;
     intendedMeaning := str_or (raw_intendedMeaning analysis) "";
     assistanceLevel := str_or (raw_assistanceLevel analysis) "low";
     visualAidSuggested :=
       default false (raw_visualCues analysis ≫= vc_suggested);
     visualConcept := str_or_null (raw_visualCues analysis ≫= vc_concept);
     audioHintSuggested :=
       default false (raw_audioHint analysis ≫= ah_suggested);
     audioHintText := str_or_null (raw_audioHint analysis ≫= ah_text);
     emotionalContext := str_or (raw_emotionalContext analysis) "neutral";
     recommendations := str_or (raw_recommendations analysis) "" |}.

(** An element of a user's conversation context, as pushed at
    lines 639-643. Times are milliseconds since the epoch. *)
Record ContextEntry : Type := {
  transcription : string;
  analysis : RawAnalysis;
  timestamp : Z
}.

(** [context.slice(-n)] *)
Definition slice_last {A : Type} (n : nat) (l : list A) : list A :=
  drop (length l - n)%nat l.

(** [updateConversationContext(userId, data)], lines 822-832. *)
Definition updateConversationContext (userId : string) (data : ContextEntry)
    (conversationContexts : gmap string (list ContextEntry))
    : gmap string (list ContextEntry) :=
  let context := default [] (conversationContexts !! userId) in
  let context := context ++ [data] in
  let context :=
    if (10 <? length context)%nat then slice_last 10 context else context in
  <[userId := context]> conversationContexts.

(** The body of [cleanupContexts()], lines 855-870, with the local
    constant [maxAge] and the reading [now] of [Date.now()] as
    arguments. The loop visits every key once; deleting or resetting the
    key being visited does not disturb the iteration of a [Map]. *)
Definition cleanupContextsWith (maxAge now : Z)
    (conversationContexts : gmap string (list ContextEntry))
    : gmap string (list ContextEntry) :=
  omap (fun context =>
          let filtered :=
            filter (fun item => now - timestamp item < maxAge) context in
          match filtered with
          | [] => None
          | _ => Some filtered
          end)
       conversationContexts.

(** [maxAge = 30 * 60 * 1000], line 857. *)
Definition maxAge : Z := 30 * 60 * 1000.

Definition cleanupContexts (now : Z)
    (conversationContexts : gmap string (list ContextEntry))
    : gmap string (list ContextEntry) :=
  cleanupContextsWith maxAge now conversationContexts.

(** [buildDallePrompt(concept, context)], lines 783-789; the line
    breaks and the indentation of the template literal are written as
    single spaces. *)
Definition buildDallePrompt (concept : string) (style : option string)
    : string :=
  "Simple, clear illustration of " ++ concept ++ ". "
  ++ "Medical/therapeutic style, high contrast, easy to understand. "
  ++ "Suitable for speech therapy assistance. "
  ++ "Clean background, professional quality. "
  ++ match style with
     | Some s => if truthy_str s then "Style: " ++ s else ""
     | None => ""
     end.

(** What [openai.audio.transcriptions.create] returns. *)
Record RawTranscription : Type := {
  raw_text : string;
  raw_words : option (list Word)
}.

(** What [transcribeAudio] returns, lines 568-574. *)
Record TranscriptionResult : Type := {
  text : string;
  words : option (list Word);
  tr_confidence : num
}.

(** [transcribeAudio(audioBuffer, format)], lines 549-580; [response]
    is the outcome of what it awaits: the temporary file and the
    Whisper request. *)
Definition transcribeAudio (response : Result RawTranscription)
    : Result TranscriptionResult :=
  match response with
  | Returns transcription =>
      Returns {| text := raw_text transcription;
                 words := raw_words transcription;
                 tr_confidence :=
                   calculateTranscriptionConfidence
                     (raw_words transcription) |}
  | Throws m => Throws ("Speech transcription failed: " ++ m)
  end.

(** [processMultimodalInput(...)], lines 587-651, once the chat
    completion it awaits has settled; [response] is its outcome with
    the content parsed, [now] the reading of [new Date()]. *)
Definition processMultimodalInput (transcription : TranscriptionResult)
    (userId : string) (response : Result RawAnalysis) (now : Z)
    (conversationContexts : gmap string (list ContextEntry))
    : Result Analysis * gmap string (list ContextEntry) :=
  match response with
  | Returns analysis =>
      (Returns (formatAnalysisResponse analysis),
       updateConversationContext userId
         {| transcription := text transcription;
            analysis := analysis;
            timestamp := now |}
         conversationContexts)
  | Throws m => (Throws ("AI processing failed: " ++ m), conversationContexts)
  end.

(** What [generateVisualAid] returns, lines 672-677. *)
Record VisualAid : Type := {
  url : string;
  prompt : string;
  concept : string
}.

(** [generateVisualAid(concept, context)], lines 659-683; [response] is
    the outcome of the image request, the url of the image. *)
Definition generateVisualAid (c : string) (style : option string)
    (response : Result string) : Result VisualAid :=
  match response with
  | Returns imageUrl =>
      Returns {| url := imageUrl; prompt := buildDallePrompt c style;
                 concept := c |}
  | Throws m => Throws ("Visual aid generation failed: " ++ m)
  end.

(** [formatConversationHistory(context)] keeps [context.slice(-5)]. *)
Definition formatConversationHistory (context : list ContextEntry)
    : list ContextEntry :=
  slice_last 5 context.

End OpenAIService.

(** ** The session table

    [prisma.session] is a table keyed by the session id; the rows carry
    the columns the routes and the socket service read or write. *)

Module Store.

Record Session : Type := {
  userId : string;
  startedAt : Z;
  endedAt : option Z;
  duration : option Z;
  transcript : string;
  predictions : list string;
  completedSentences : list string;
  confidence : option num;
  visualAids : list string;
  successfulPredictions : Z;
  totalPredictions : Z;
  updatedAt : option Z
}.

(** The row [prisma.session.create] inserts, lines 235-245 and
    1134-1144. *)
Definition new_session (uid : string) (now : Z) : Session :=
  {| userId := uid; startedAt := now; endedAt := None; duration := None;
     transcript := ""; predictions := []; completedSentences := [];
     confidence := None; visualAids := [];
     successfulPredictions := 0; totalPredictions := 0;
     updatedAt := None |}.

(** [prisma.session.findUnique({ where: { id } })] *)
Definition findUnique (id : nat) (sessions : gmap nat Session)
    : option Session :=
  sessions !! id.

(** [prisma.session.findFirst({ where: { id, userId } })] *)
Definition findFirst (id : nat) (uid : string) (sessions : gmap nat Session)
    : option Session :=
  match sessions !! id with
  | Some s => if decide (userId s = uid) then Some s else None
  | None => None
  end.

(** [prisma.session.update({ where: { id }, data })]: the row must
    exist, otherwise the call rejects and nothing is written. *)
Definition update (id : nat) (f : Session -> Session)
    (sessions : gmap nat Session) : option (gmap nat Session) :=
  match sessions !! id with
  | Some s => Some (<[id := f s]> sessions)
  | None => None
  end.

Definition set_counts (succ tot : Z) (s : Session) : Session :=
  {| userId := userId s; startedAt := startedAt s; endedAt := endedAt s;
     duration := duration s; transcript := transcript s;
     predictions := predictions s;
     completedSentences := completedSentences s;
     confidence := confidence s; visualAids := visualAids s;
     successfulPredictions := succ; totalPredictions := tot;
     updatedAt := updatedAt s |}.

Definition set_turn_data (tr : string) (pr : list string) (c : num) (now : Z)
    (s : Session) : Session :=
  {| userId := userId s; startedAt := startedAt s; endedAt := endedAt s;
     duration := duration s; transcript := tr; predictions := pr;
     completedSentences := completedSentences s;
     confidence := Some c; visualAids := visualAids s;
     successfulPredictions := successfulPredictions s;
     totalPredictions := totalPredictions s;
     updatedAt := Some now |}.

Definition set_ended (ended dur : Z) (s : Session) : Session :=
  {| userId := userId s; startedAt := startedAt s; endedAt := Some ended;
     duration := Some dur; transcript := transcript s;
     predictions := predictions s;
     completedSentences := completedSentences s;
     confidence := confidence s; visualAids := visualAids s;
     successfulPredictions := successfulPredictions s;
     totalPredictions := totalPredictions s;
     updatedAt := updatedAt s |}.

Definition set_ended_with (ended dur : Z) (sentences : list string) (now : Z)
    (s : Session) : Session :=
  {| userId := userId s; startedAt := startedAt s; endedAt := Some ended;
     duration := Some dur; transcript := transcript s;
     predictions := predictions s;
     completedSentences := sentences;
     confidence := confidence s; visualAids := visualAids s;
     successfulPredictions := successfulPredictions s;
     totalPredictions := totalPredictions s;
     updatedAt := Some now |}.

End Store.

(** ** The session routes of [/api/speech]

    Each route is a function of the authenticated user ([req.user.id]),
    the request and the table. A route's own [try]/[catch] turns a
    failing query into a 500 response; [db_ok] says whether the queries
    of this request reach the database. *)

Module SpeechRoutes.

Import Store.

Inductive Response (A : Type) : Type :=
| Json (body : A)
| Status404
| Status500.

Arguments Json {A} body.
Arguments Status404 {A}.
Arguments Status500 {A}.

Record UpdateBody : Type := {
  b_transcript : option string;
  b_predictions : option (list string);
  b_completedSentences : option (list string);
  b_confidence : option num;
  b_visualAids : option (list string)
}.

(** The [data] of the update at lines 293-300. *)
Definition merge_update (b : UpdateBody) (now : Z) (existingSession : Session)
    : Session :=
  {| userId := userId existingSession;
     startedAt := startedAt existingSession;
     endedAt := endedAt existingSession;
     duration := duration existingSession;
     transcript :=
       OpenAIService.str_or (b_transcript b) (transcript existingSession);
     predictions := default (predictions existingSession) (b_predictions b);
     completedSentences :=
       default (completedSentences existingSession) (b_completedSentences b);
     confidence :=
       match b_confidence b with
       | Some c => Some c
       | None => confidence existingSession
       end;
     visualAids := default (visualAids existingSession) (b_visualAids b);
     successfulPredictions := successfulPredictions existingSession;
     totalPredictions := totalPredictions existingSession;
     updatedAt := Some now |}.

(** [PUT /session/:sessionId/update], lines 268-315. *)
Definition put_session_update (db_ok : bool) (reqUser : string)
    (sessionId : nat) (body : UpdateBody) (now : Z)
    (sessions : gmap nat Session)
    : Response Session * gmap nat Session :=
  if negb db_ok then (Status500, sessions) else
  match findFirst sessionId reqUser sessions with
  | None => (Status404, sessions)
  | Some existingSession =>
      match update sessionId (fun _ => merge_update body now existingSession)
                   sessions with
      | Some sessions' =>
          (Json (merge_update body now existingSession), sessions')
      | None => (Status500, sessions)
      end
  end.

(** [POST /feedback], lines 413-458: the statistics part, as it runs
    when no other query reaches the row between its [findFirst] (line
    425) and its [update] (line 436); [FeedbackRace] below takes the two
    queries apart. *)
Definition post_feedback (db_ok : bool) (reqUser : string)
    (sessionId : option nat) (predictionAccepted : bool)
    (sessions : gmap nat Session) : Response unit * gmap nat Session :=
  match sessionId with
  | Some sessionId =>
      if negb db_ok then (Status500, sessions) else
      match findFirst sessionId reqUser sessions with
      | Some session =>
          let newSuccessful :=
            successfulPredictions session
            + (if predictionAccepted then 1 else 0) in
          let newTotal := totalPredictions session + 1 in
          match update sessionId (set_counts newSuccessful newTotal)
                       sessions with
          | Some sessions' => (Json tt, sessions')
          | None => (Status500, sessions)
          end
      | None => (Json tt, sessions)
      end
  | None => (Json tt, sessions)
  end.

(** Remote calls a request makes, in order. *)
Inductive Call : Type :=
| generateMemoryGardenArt (sentences : list string)
| updateUserProgress (uid : string) (wordsImproved : nat).

Record EndStatistics : Type := {
  st_duration : Z;
  st_completedSentences : nat
}.

(** A row of [prisma.memoryGarden], lines 365-380. *)
Record Garden : Type := {
  g_userId : string;
  g_sessionIds : list nat;
  g_sentences : list string;
  g_artworkUrl : string
}.

(** [POST /session/:sessionId/end], lines 321-407. [completedSentences]
    is the list of the request body ([[]] when absent); [art] is the
    outcome of [openaiService.generateMemoryGardenArt] (the url of the
    artwork) and [garden_ok] says whether the insertion of the
    memory-garden row succeeds. Both are consulted only when the
    generation is reached. The helper [updateUserProgress] of the route
    catches its own errors. *)
Definition post_session_end (db_ok : bool) (art : Result string)
    (garden_ok : bool) (reqUser : string) (sessionId : nat)
    (completedSentences : list string) (now : Z)
    (sessions : gmap nat Session) (memoryGarden : list Garden)
    : Response EndStatistics * gmap nat Session * list Garden * list Call :=
  if negb db_ok then (Status500, sessions, memoryGarden, []) else
  match findFirst sessionId reqUser sessions with
  | None => (Status404, sessions, memoryGarden, [])
  | Some existingSession =>
      let endedAt := now in
      let duration := (endedAt - startedAt existingSession) / 1000 in
      match update sessionId
                   (set_ended_with endedAt duration completedSentences now)
                   sessions with
      | None => (Status500, sessions, memoryGarden, [])
      | Some sessions' =>
          let calls :=
            [updateUserProgress reqUser (length completedSentences)] in
          let '(memoryGarden', calls) :=
            if (3 <=? length completedSentences)%nat then
              (match art with
               | Returns url =>
                   if garden_ok then
                     memoryGarden ++
                       [{| g_userId := reqUser; g_sessionIds := [sessionId];
                           g_sentences := completedSentences;
                           g_artworkUrl := url |}]
                   else memoryGarden
               | Throws _ => memoryGarden
               end,
               calls ++ [generateMemoryGardenArt completedSentences])
            else (memoryGarden, calls) in
          (Json {| st_duration := duration;
                   st_completedSentences := length completedSentences |},
           sessions', memoryGarden', calls)
      end
  end.

End SpeechRoutes.

(** ** SocketService *)

Module SocketService.

Import Store OpenAIService.

(** Outbound events, [socket.emit(name, payload)]. *)
Inductive Event : Type :=
| authenticated (userId : string)
| authentication_error
| error (message : string)
| processing_started (timestamp : Z)
| processing_busy
| transcription_ready (text : string) (confidence : num)
    (words : option (list Word))
| predictions_ready (predictions : list string) (confidence : num)
    (intendedMeaning assistanceLevel emotionalContext : string)
| visual_aid_ready (imageUrl concept prompt : string)
| audio_hint_ready (text priority : string)
| processing_error (message : string)
| processing_complete (timestamp : Z)
| session_started (sessionId : nat)
| session_error (message : string)
| session_ended (sessionId : nat).

Definition event_name (e : Event) : string :=
  match e with
  | authenticated _ => "authenticated"
  | authentication_error => "authentication_error"
  | error _ => "error"
  | processing_started _ => "processing_started"
  | processing_busy => "processing_busy"
  | transcription_ready _ _ _ => "transcription_ready"
  | predictions_ready _ _ _ _ _ => "predictions_ready"
  | visual_aid_ready _ _ _ => "visual_aid_ready"
  | audio_hint_ready _ _ => "audio_hint_ready"
  | processing_error _ => "processing_error"
  | processing_complete _ => "processing_complete"
  | session_started _ => "session_started"
  | session_error _ => "session_error"
  | session_ended _ => "session_ended"
  end.

(** One call of [socket.emit]: the socket it is made on and, when the
    call is made by an invocation of [processSpeechInput] that passed
    the busy check (or by the handler's [catch] for it), the number of
    that invocation. *)
Record Emit : Type := {
  to : nat;
  by_turn : option nat;
  ev : Event
}.

(** The fields the service keeps on a socket object. [socket.userId]
    and [socket.authenticated] are assigned together (lines 914-915)
    and never reset, so both are [s_auth]. *)
Record Socket : Type := {
  s_auth : option string;
  s_sessionId : option nat;
  s_connected : bool
}.

(** The payload of [process_speech], when it is an object. A payload
    whose [audioData] is not a string makes [Buffer.from] throw inside
    the [try] (line 1043); for the service this is a transcription that
    fails at once, a turn with [transcribe_outcome := Throws] that is
    resumed right after its start. An event without payload is
    [on_process_speech_without_data] below. *)
Record SpeechData : Type := {
  audioData : string;
  videoFrame : option string;
  timestamp : Z
}.

(** The outcomes of the remote calls one turn makes; each is consulted
    only if the turn reaches the call. *)
Record Remote : Type := {
  transcribe_outcome : Result RawTranscription;
  user_lookup : Result unit;
  analysis_outcome : Result RawAnalysis;
  visual_outcome : Result string;
  session_write : Result unit
}.

(** The [await] an invocation of [processSpeechInput] is suspended at,
    with the local variables that are live there; [Settled] once its
    [finally] block has run and its promise has settled. *)
Inductive Stage : Type :=
| AwaitTranscribe
| AwaitUser (transcriptionResult : TranscriptionResult)
| AwaitAnalysis (transcriptionResult : TranscriptionResult)
| AwaitVisualAid (transcriptionResult : TranscriptionResult)
    (analysis : Analysis) (visualConcept : string)
| AwaitSessionUpdate (sessionId : nat)
    (transcriptionResult : TranscriptionResult) (analysis : Analysis)
| Settled.

Record Turn : Type := {
  socket : nat;
  userId : string;
  data : SpeechData;
  remote : Remote;
  stage : Stage
}.

(** [turns] records the invocations of [processSpeechInput] that passed
    the busy check, numbered in the order of their start; the ones in
    flight are those not yet [Settled]. *)
Record State : Type := {
  sockets : gmap nat Socket;
  activeConnections : gmap string nat;
  processingQueue : gmap string bool;
  conversationContexts : gmap string (list ContextEntry);
  sessions : gmap nat Session;
  nextSession : nat;
  turns : gmap nat Turn;
  nextTurn : nat;
  log : list Emit;
  clock : Z
}.

Definition init : State :=
  {| sockets := ∅; activeConnections := ∅; processingQueue := ∅;
     conversationContexts := ∅; sessions := ∅; nextSession := 0%nat;
     turns := ∅; nextTurn := 0%nat; log := []; clock := 0 |}.

Definition set_sockets (v : gmap nat Socket) (st : State) : State :=
  {| sockets := v; activeConnections := activeConnections st;
     processingQueue := processingQueue st;
     conversationContexts := conversationContexts st;
     sessions := sessions st; nextSession := nextSession st;
     turns := turns st; nextTurn := nextTurn st; log := log st;
     clock := clock st |}.

Definition set_activeConnections (v : gmap string nat) (st : State) : State :=
  {| sockets := sockets st; activeConnections := v;
     processingQueue := processingQueue st;
     conversationContexts := conversationContexts st;
     sessions := sessions st; nextSession := nextSession st;
     turns := turns st; nextTurn := nextTurn st; log := log st;
     clock := clock st |}.

Definition set_processingQueue (v : gmap string bool) (st : State) : State :=
  {| sockets := sockets st; activeConnections := activeConnections st;
     processingQueue := v;
     conversationContexts := conversationContexts st;
     sessions := sessions st; nextSession := nextSession st;
     turns := turns st; nextTurn := nextTurn st; log := log st;
     clock := clock st |}.

Definition set_conversationContexts (v : gmap string (list ContextEntry))
    (st : State) : State :=
  {| sockets := sockets st; activeConnections := activeConnections st;
     processingQueue := processingQueue st;
     conversationContexts := v;
     sessions := sessions st; nextSession := nextSession st;
     turns := turns st; nextTurn := nextTurn st; log := log st;
     clock := clock st |}.

Definition set_sessions (v : gmap nat Session) (st : State) : State :=
  {| sockets := sockets st; activeConnections := activeConnections st;
     processingQueue := processingQueue st;
     conversationContexts := conversationContexts st;
     sessions := v; nextSession := nextSession st;
     turns := turns st; nextTurn := nextTurn st; log := log st;
     clock := clock st |}.

Definition set_nextSession (v : nat) (st : State) : State :=
  {| sockets := sockets st; activeConnections := activeConnections st;
     processingQueue := processingQueue st;
     conversationContexts := conversationContexts st;
     sessions := sessions st; nextSession := v;
     turns := turns st; nextTurn := nextTurn st; log := log st;
     clock := clock st |}.

Definition set_turns (v : gmap nat Turn) (st : State) : State :=
  {| sockets := sockets st; activeConnections := activeConnections st;
     processingQueue := processingQueue st;
     conversationContexts := conversationContexts st;
     sessions := sessions st; nextSession := nextSession st;
     turns := v; nextTurn := nextTurn st; log := log st;
     clock := clock st |}.

Definition set_nextTurn (v : nat) (st : State) : State :=
  {| sockets := sockets st; activeConnections := activeConnections st;
     processingQueue := processingQueue st;
     conversationContexts := conversationContexts st;
     sessions := sessions st; nextSession := nextSession st;
     turns := turns st; nextTurn := v; log := log st;
     clock := clock st |}.

Definition set_log (v : list Emit) (st : State) : State :=
  {| sockets := sockets st; activeConnections := activeConnections st;
     processingQueue := processingQueue st;
     conversationContexts := conversationContexts st;
     sessions := sessions st; nextSession := nextSession st;
     turns := turns st; nextTurn := nextTurn st; log := v;
     clock := clock st |}.

Definition set_clock (v : Z) (st : State) : State :=
  {| sockets := sockets st; activeConnections := activeConnections st;
     processingQueue := processingQueue st;
     conversationContexts := conversationContexts st;
     sessions := sessions st; nextSession := nextSession st;
     turns := turns st; nextTurn := nextTurn st; log := log st;
     clock := v |}.

(** [socket.emit(...)] on socket [sock]. *)
Definition emit (sock : nat) (turn : option nat) (e : Event) (st : State)
    : State :=
  set_log (log st ++ [{| to := sock; by_turn := turn; ev := e |}]) st.

Definition set_stage (s : Stage) (t : Turn) : Turn :=
  {| socket := socket t; userId := userId t; data := data t;
     remote := remote t; stage := s |}.

(** The invocation [tid] reaches its next [await]. *)
Definition suspend (tid : nat) (t : Turn) (s : Stage) (st : State) : State :=
  set_turns (<[tid := set_stage s t]> (turns st)) st.

(** The [finally] block of [processSpeechInput], lines 1121-1125; the
    invocation is over afterwards. *)
Definition finally_block (tid : nat) (t : Turn) (st : State) : State :=
  let st := set_processingQueue (delete (userId t) (processingQueue st)) st in
  let st := emit (socket t) (Some tid) (processing_complete (clock st)) st in
  suspend tid t Settled st.

(** The [catch] of the [process_speech] handler, lines 947-953. *)
Definition handler_catch (tid : nat) (t : Turn) (message : string)
    (st : State) : State :=
  emit (socket t) (Some tid) (processing_error message) st.

(** An error thrown inside the [try] of [processSpeechInput]: the
    [finally] block runs, the promise rejects and the handler catches. *)
Definition throw (tid : nat) (t : Turn) (message : string) (st : State)
    : State :=
  handler_catch tid t message (finally_block tid t st).

(** [updateSessionData(sessionId, data)], lines 1239-1249. *)
Definition updateSessionData (sessionId : nat)
    (transcriptionResult : TranscriptionResult) (analysis : Analysis)
    (now : Z) (sessions : gmap nat Session) : option (gmap nat Session) :=
  update sessionId
         (set_turn_data (text transcriptionResult) (predictions analysis)
                        (confidence analysis) now)
         sessions.

(** Steps 4 and 5 of [processSpeechInput], lines 1103-1119, up to the
    [await] of [updateSessionData] or the end of the [try]. *)
Definition audio_hint_and_session (tid : nat) (t : Turn)
    (transcriptionResult : TranscriptionResult) (analysis : Analysis)
    (st : State) : State :=
  let st :=
    match audioHintSuggested analysis, audioHintText analysis with
    | true, Some hint =>
        emit (socket t) (Some tid)
             (audio_hint_ready hint
                (if decide (assistanceLevel analysis = "high")
                 then "immediate" else "gentle")) st
    | _, _ => st
    end in
  match sockets st !! socket t ≫= s_sessionId with
  | Some sessionId =>
      suspend tid t (AwaitSessionUpdate sessionId transcriptionResult analysis)
              st
  | None => finally_block tid t st
  end.

(** The remote call the invocation [tid] awaits settles and the
    invocation runs up to its next [await] or to its end. *)
Definition resume (tid : nat) (st : State) : State :=
  match turns st !! tid with
  | None => st
  | Some t =>
      match stage t with
      | AwaitTranscribe =>
          match transcribeAudio (transcribe_outcome (remote t)) with
          | Throws m => throw tid t m st
          | Returns transcriptionResult =>
              let st :=
                emit (socket t) (Some tid)
                     (transcription_ready (text transcriptionResult)
                        (tr_confidence transcriptionResult)
                        (words transcriptionResult)) st in
              suspend tid t (AwaitUser transcriptionResult) st
          end
      | AwaitUser transcriptionResult =>
          match user_lookup (remote t) with
          | Throws m => throw tid t m st
          | Returns _ => suspend tid t (AwaitAnalysis transcriptionResult) st
          end
      | AwaitAnalysis transcriptionResult =>
          match processMultimodalInput transcriptionResult (userId t)
                  (analysis_outcome (remote t)) (clock st)
                  (conversationContexts st) with
          | (Throws m, _) => throw tid t m st
          | (Returns analysis, contexts) =>
              let st := set_conversationContexts contexts st in
              let st :=
                emit (socket t) (Some tid)
                     (predictions_ready (predictions analysis)
                        (confidence analysis) (intendedMeaning analysis)
                        (assistanceLevel analysis)
                        (emotionalContext analysis)) st in
              match visualAidSuggested analysis, visualConcept analysis with
              | true, Some c =>
                  suspend tid t (AwaitVisualAid transcriptionResult analysis c)
                          st
              | _, _ =>
                  audio_hint_and_session tid t transcriptionResult analysis st
              end
          end
      | AwaitVisualAid transcriptionResult analysis c =>
          let st :=
            match generateVisualAid c (Some "therapeutic")
                    (visual_outcome (remote t)) with
            | Returns visualAid =>
                emit (socket t) (Some tid)
                     (visual_aid_ready (url visualAid) (concept visualAid)
                        (prompt visualAid)) st
            | Throws _ => st
            end in
          audio_hint_and_session tid t transcriptionResult analysis st
      | AwaitSessionUpdate sessionId transcriptionResult analysis =>
          match session_write (remote t) with
          | Throws m => throw tid t m st
          | Returns _ =>
              match updateSessionData sessionId transcriptionResult analysis
                                      (clock st) (sessions st) with
              | Some sessions' =>
                  finally_block tid t (set_sessions sessions' st)
              | None => throw tid t "Record to update not found" st
              end
          end
      | Settled => st
      end
  end.

(** [processSpeechInput(socket, data)], lines 1024-1045: the busy check,
    the flag, the acknowledgement and the call of [transcribeAudio];
    [uid] is [socket.userId]. What follows the [await]s is [resume]. *)
Definition processSpeechInput (sock : nat) (uid : string) (d : SpeechData)
    (r : Remote) (st : State) : State :=
  if decide (is_Some (processingQueue st !! uid)) then
    emit sock None processing_busy st
  else
    let tid := nextTurn st in
    let st := set_nextTurn (S tid) st in
    let st := set_processingQueue (<[uid := true]> (processingQueue st)) st in
    let st := emit sock (Some tid) (processing_started (timestamp d)) st in
    set_turns
      (<[tid := {| socket := sock; userId := uid; data := d; remote := r;
                   stage := AwaitTranscribe |}]> (turns st)) st.

(** The handlers [handleConnection] registers take the state of the
    socket object; an event of a socket that is unknown or already
    disconnected never arrives. *)
Definition with_socket (sock : nat) (st : State)
    (k : Socket -> State) : State :=
  match sockets st !! sock with
  | Some s => if s_connected s then k s else st
  | None => st
  end.

(** [socket.on('process_speech', ...)], lines 939-954. *)
Definition on_process_speech (sock : nat) (d : SpeechData) (r : Remote)
    (st : State) : State :=
  with_socket sock st (fun s =>
    match s_auth s with
    | None => emit sock None (error "Not authenticated") st
    | Some uid => processSpeechInput sock uid d r st
    end).

(** [socket.on('process_speech', ...)] for an event that carries no
    payload: [data] is [undefined] (or [null]), so the destructuring of
    line 1025 throws before the busy check, no flag is set and no turn
    starts; the handler's [catch] answers with the [message] of the
    TypeError. *)
Definition on_process_speech_without_data (sock : nat) (message : string)
    (st : State) : State :=
  with_socket sock st (fun s =>
    match s_auth s with
    | None => emit sock None (error "Not authenticated") st
    | Some _ => emit sock None (processing_error message) st
    end).

(** [socket.on('authenticate', ...)], lines 909-936; [decoded] is the
    [id] of the verified token, [None] when [jwt.verify] throws. *)
Definition on_authenticate (sock : nat) (decoded : option string)
    (st : State) : State :=
  with_socket sock st (fun s =>
    match decoded with
    | Some id =>
        let st :=
          set_sockets
            (<[sock := {| s_auth := Some id; s_sessionId := s_sessionId s;
                          s_connected := s_connected s |}]> (sockets st)) st in
        let st :=
          set_activeConnections (<[id := sock]> (activeConnections st)) st in
        emit sock None (authenticated id) st
    | None => emit sock None authentication_error st
    end).

(** [startNewSession(userId)], lines 1133-1152; the table hands out
    the ids. *)
Definition startNewSession (uid : string) (st : State) : nat * State :=
  let id := nextSession st in
  let st := set_nextSession (S id) st in
  (id, set_sessions (<[id := new_session uid (clock st)]> (sessions st)) st).

(** [socket.on('start_session', ...)], lines 957-975. *)
Definition on_start_session (sock : nat) (db : Result unit) (st : State)
    : State :=
  with_socket sock st (fun s =>
    match s_auth s with
    | None => emit sock None (error "Not authenticated") st
    | Some uid =>
        match db with
        | Throws m => emit sock None (session_error m) st
        | Returns _ =>
            let '(id, st) := startNewSession uid st in
            let st :=
              set_sockets
                (<[sock := {| s_auth := s_auth s; s_sessionId := Some id;
                              s_connected := s_connected s |}]> (sockets st))
                st in
            emit sock None (session_started id) st
        end
    end).

(** [endSession(sessionId)], lines 1158-1191: the outcome, the table
    and the remote calls made. [progress] is the outcome of
    [this.updateUserProgress], which does not catch its errors. *)
Definition endSession (sessionId : nat) (db progress : Result unit) (now : Z)
    (sessions : gmap nat Session)
    : Result unit * gmap nat Session * list SpeechRoutes.Call :=
  match db with
  | Throws m => (Throws m, sessions, [])
  | Returns _ =>
      let endedAt := now in
      match findUnique sessionId sessions with
      | None => (Throws "Session not found", sessions, [])
      | Some session =>
          let duration := (endedAt - startedAt session) / 1000 in
          match update sessionId (set_ended endedAt duration) sessions with
          | None => (Throws "Record to update not found", sessions, [])
          | Some sessions' =>
              let calls :=
                [SpeechRoutes.updateUserProgress (Store.userId session)
                   (length (completedSentences session))] in
              match progress with
              | Throws m => (Throws m, sessions', calls)
              | Returns _ => (Returns tt, sessions', calls)
              end
          end
      end
  end.

(** [socket.on('end_session', ...)], lines 978-995. *)
Definition on_end_session (sock : nat) (db progress : Result unit)
    (st : State) : State :=
  with_socket sock st (fun s =>
    match s_auth s, s_sessionId s with
    | Some _, Some sessionId =>
        match endSession sessionId db progress (clock st) (sessions st) with
        | (Returns _, sessions', _) =>
            let st := set_sessions sessions' st in
            let st := emit sock None (session_ended sessionId) st in
            set_sockets
              (<[sock := {| s_auth := s_auth s; s_sessionId := None;
                            s_connected := s_connected s |}]> (sockets st)) st
        | (Throws _, sessions', _) => set_sessions sessions' st
        end
    | _, _ => st
    end).

(** The payload of [feedback]. *)
Record Feedback : Type := {
  predictionAccepted : bool;
  suggestion : string;
  actualIntent : string;
  fb_sessionId : option nat
}.

(** [processFeedback(userId, feedback)], lines 1198-1232, as it runs
    when no other query reaches the row between its [findUnique] (line
    1213) and its [update] (line 1221); [FeedbackRace] below takes the
    two queries apart. *)
Definition processFeedback (uid : string) (feedback : Feedback)
    (db : Result unit) (sessions : gmap nat Session)
    : Result unit * gmap nat Session :=
  match fb_sessionId feedback with
  | Some sessionId =>
      match db with
      | Throws m => (Throws m, sessions)
      | Returns _ =>
          match findUnique sessionId sessions with
          | Some session =>
              let newSuccessful :=
                successfulPredictions session
                + (if predictionAccepted feedback then 1 else 0) in
              let newTotal := totalPredictions session + 1 in
              match update sessionId (set_counts newSuccessful newTotal)
                           sessions with
              | Some sessions' => (Returns tt, sessions')
              | None => (Throws "Record to update not found", sessions)
              end
          | None => (Returns tt, sessions)
          end
      end
  | None => (Returns tt, sessions)
  end.

(** [socket.on('feedback', ...)], lines 998-1011. *)
Definition on_feedback (sock : nat) (feedback : Feedback) (db : Result unit)
    (st : State) : State :=
  with_socket sock st (fun s =>
    match s_auth s with
    | None => st
    | Some uid =>
        set_sessions (snd (processFeedback uid feedback db (sessions st))) st
    end).

(** [handleDisconnection(socket)], lines 1300-1310, as the
    [disconnect] handler runs it; the socket receives nothing
    afterwards. *)
Definition handleDisconnection (sock : nat) (st : State) : State :=
  with_socket sock st (fun s =>
    let st :=
      match s_auth s with
      | Some uid =>
          if truthy_str uid then
            let st :=
              set_activeConnections (delete uid (activeConnections st)) st in
            set_processingQueue (delete uid (processingQueue st)) st
          else st
      | None => st
      end in
    set_sockets
      (<[sock := {| s_auth := s_auth s; s_sessionId := s_sessionId s;
                    s_connected := false |}]> (sockets st)) st).

(** [handleConnection(socket)], lines 905-1017, for a new socket. *)
Definition handleConnection (sock : nat) (st : State) : State :=
  match sockets st !! sock with
  | Some _ => st
  | None =>
      set_sockets
        (<[sock := {| s_auth := None; s_sessionId := None;
                      s_connected := true |}]> (sockets st)) st
  end.

(** What the event loop runs next: a handler for an inbound event
    ([process_speech] with and without a payload), the continuation of
    a suspended turn, the cleanup timer of lines 896-898, or nothing
    while time passes. *)
Inductive Action : Type :=
| Connect (sock : nat)
| Authenticate (sock : nat) (decoded : option string)
| ProcessSpeech (sock : nat) (d : SpeechData) (r : Remote)
| Resume (tid : nat)
| StartSession (sock : nat) (db : Result unit)
| EndSession (sock : nat) (db progress : Result unit)
| SendFeedback (sock : nat) (feedback : Feedback) (db : Result unit)
| Disconnect (sock : nat)
| CleanupTimer
| Tick (ms : N)
| ProcessSpeechWithoutData (sock : nat) (message : string).

Definition step (a : Action) (st : State) : State :=
  match a with
  | Connect sock => handleConnection sock st
  | Authenticate sock decoded => on_authenticate sock decoded st
  | ProcessSpeech sock d r => on_process_speech sock d r st
  | Resume tid => resume tid st
  | StartSession sock db => on_start_session sock db st
  | EndSession sock db progress => on_end_session sock db progress st
  | SendFeedback sock feedback db => on_feedback sock feedback db st
  | Disconnect sock => handleDisconnection sock st
  | CleanupTimer =>
      set_conversationContexts
        (cleanupContexts (clock st) (conversationContexts st)) st
  | Tick ms => set_clock (clock st + Z.of_N ms) st
  | ProcessSpeechWithoutData sock message =>
      on_process_speech_without_data sock message st
  end.

Definition exec (trace : list Action) (st : State) : State :=
  fold_left (fun st a => step a st) trace st.

(** The invocation is suspended at an [await]. *)
Definition in_flight (t : Turn) : bool :=
  match stage t with
  | Settled => false
  | _ => true
  end.

(** The events of [log] that invocation [tid] emitted, in order. *)
Definition events_of (tid : nat) (l : list Emit) : list Event :=
  ev <$> filter (fun e => by_turn e = Some tid) l.

Definition names_of (tid : nat) (l : list Emit) : list string :=
  event_name <$> events_of tid l.

(** How often invocation [tid] emitted the event called [name]. *)
Definition count_event (name : string) (tid : nat) (l : list Emit) : nat :=
  length (filter (fun n => n = name) (names_of tid l)).

End SocketService.

(** ** The confidence estimate in the words of the specification

    The average over the words of the ratio of the expected duration
    (0.1 second per character) to the observed duration, every ratio
    capped at 1, the average clamped to the unit interval, and 0 for a
    list without words. A word without observed duration counts with
    the cap. *)

Module ConfidenceSpec.

Import OpenAIService.

Definition Qc_min (a b : Qc) : Qc := if Qc_ltb b a then b else a.
Definition Qc_max (a b : Qc) : Qc := if Qc_ltb a b then b else a.

Definition clamp01 (q : Qc) : Qc := Qc_max 0 (Qc_min 1 q).

Definition expected_duration (w : Word) : Qc :=
  (Qc_of_Z (Z.of_nat (String.length (word w))) * tenth)%Qc.

Definition observed_duration (w : Word) : Qc := (end_ w - start w)%Qc.

Definition capped_ratio (w : Word) : Qc :=
  if Qc_eqb (observed_duration w) 0 then 1%Qc
  else Qc_min 1 (expected_duration w / observed_duration w)%Qc.

Definition sum_Qc (l : list Qc) : Qc := foldr Qcplus 0%Qc l.

Definition confidence_spec (words : option (list Word)) : Qc :=
  match words with
  | None | Some [] => 0%Qc
  | Some ws =>
      clamp01 (sum_Qc (capped_ratio <$> ws) / Qc_of_Z (Z.of_nat (length ws)))%Qc
  end.

(** The word has no characters and no duration: its ratio is [0/0]. *)
Definition degenerate (w : Word) : Prop :=
  word w = "" /\ start w = end_ w.

End ConfidenceSpec.

(** ** The conversation context store under appends and sweeps

    The store of [OpenAIService] together with the clock its entries
    are stamped with ([new Date()], line 642) and its sweeps read
    ([Date.now()], line 856). Time does not run backwards. *)

Module ContextStore.

Import OpenAIService.

Record Store : Type := {
  contexts : gmap string (list ContextEntry);
  now : Z
}.

Inductive Op : Type :=
| Append (userId : string) (text : string) (raw : RawAnalysis)
| Sweep (maxAge : Z)
| Wait (ms : N).

Definition entry (text : string) (raw : RawAnalysis) (s : Store)
    : ContextEntry :=
  {| transcription := text; analysis := raw; timestamp := now s |}.

Definition apply (op : Op) (s : Store) : Store :=
  match op with
  | Append userId text raw =>
      {| contexts :=
           updateConversationContext userId (entry text raw s) (contexts s);
         now := now s |}
  | Sweep maxAge =>
      {| contexts := cleanupContextsWith maxAge (now s) (contexts s);
         now := now s |}
  | Wait ms => {| contexts := contexts s; now := now s + Z.of_N ms |}
  end.

Definition run (ops : list Op) (s : Store) : Store :=
  fold_left (fun s op => apply op s) ops s.

Definition empty (t0 : Z) : Store := {| contexts := ∅; now := t0 |}.

(** The age of an entry at the time [t]. *)
Definition age (t : Z) (e : ContextEntry) : Z := t - timestamp e.

(** No user has more than ten entries. *)
Definition contexts_bounded (m : gmap string (list ContextEntry)) : Prop :=
  forall u ctx, m !! u = Some ctx -> (length ctx <= 10)%nat.

End ContextStore.

(** ** Feedback on a session

    Feedback reaches the session table over the socket
    ([processFeedback]) or over [POST /feedback]; [handle] is the
    handler of one event when no other query runs between its read and
    its write. *)

Module FeedbackLog.

Import Store.

Inductive FeedbackEvent : Type :=
| OverSocket (uid : string) (feedback : SocketService.Feedback)
    (db : Result unit)
| OverRoute (db_ok : bool) (reqUser : string) (sessionId : option nat)
    (predictionAccepted : bool).

Definition handle (e : FeedbackEvent) (sessions : gmap nat Session)
    : gmap nat Session :=
  match e with
  | OverSocket uid feedback db =>
      snd (SocketService.processFeedback uid feedback db sessions)
  | OverRoute db_ok reqUser sessionId predictionAccepted =>
      snd (SpeechRoutes.post_feedback db_ok reqUser sessionId
             predictionAccepted sessions)
  end.

(** Whether the event is recorded on the session [sid] of [owner], and
    if so, whether the prediction was accepted. The route looks the
    session up under the requesting user, the socket service under its
    id alone. *)
Definition recorded (sid : nat) (owner : string) (e : FeedbackEvent)
    : option bool :=
  match e with
  | OverSocket _ feedback (Returns _) =>
      if decide (SocketService.fb_sessionId feedback = Some sid)
      then Some (SocketService.predictionAccepted feedback) else None
  | OverSocket _ _ (Throws _) => None
  | OverRoute db_ok reqUser sessionId predictionAccepted =>
      if decide (db_ok = true /\ sessionId = Some sid /\ reqUser = owner)
      then Some predictionAccepted else None
  end.

(** The two counters of a session, [None] for a missing row. *)
Definition counts (sid : nat) (sessions : gmap nat Session) : option (Z * Z) :=
  (fun s => (successfulPredictions s, totalPredictions s)) <$> sessions !! sid.

(** The session [sid] of [owner] with the counters [c]. *)
Definition session_with_counts (sid : nat) (owner : string) (c : Z * Z)
    (m : gmap nat Session) : Prop :=
  exists s, m !! sid = Some s /\ userId s = owner
            /\ successfulPredictions s = c.1 /\ totalPredictions s = c.2.

End FeedbackLog.

(** ** Feedback handlers that overlap

    Both feedback handlers read the session ([findUnique] at line 1213,
    [findFirst] at line 425), compute the two counters from the row
    they read and write them with a later query ([update] at lines 1221
    and 436). Each query is awaited, so the queries of other handlers can
    run between the read and the write of one handler. The functions
    [processFeedback] and [post_feedback] above are a handler whose two
    queries run with nothing in between; here the two queries are steps
    of their own. *)

Module FeedbackRace.

Import Store FeedbackLog.

(** A handler between its read and its write: the session and the
    counters it is about to write. *)

Record Pending : Type := {
  p_session : nat;
  p_successful : Z;
  p_total : Z
}.

(** The read of a handler that starts ([reqUser] is the user the route
    filters on, [None] over the socket), the write of the [i]-th waiting
    handler, or that write rejected by the database. A handler whose
    read rejects, or that has no session id, makes no query that
    matters and is no move. *)
Inductive Move : Type :=
| Read (sessionId : nat) (reqUser : option string) (predictionAccepted : bool)
| Write (i : nat)
| Reject (i : nat).

Definition lookup_for (sessionId : nat) (reqUser : option string)
    (sessions : gmap nat Session) : option Session :=
  match reqUser with
  | Some u => findFirst sessionId u sessions
  | None => findUnique sessionId sessions
  end.

Definition move (mv : Move) (c : gmap nat Session * list Pending)
    : gmap nat Session * list Pending :=
  match mv with
  | Read sessionId reqUser predictionAccepted =>
      match lookup_for sessionId reqUser c.1 with
      | Some session =>
          (c.1,
           c.2 ++ [{| p_session := sessionId;
                      p_successful :=
                        successfulPredictions session
                        + (if predictionAccepted then 1 else 0);
                      p_total := totalPredictions session + 1 |}])
      | None => c
      end
  | Write i =>
      match c.2 !! i with
      | Some p =>
          (default c.1
             (update (p_session p)
                     (set_counts (p_successful p) (p_total p)) c.1),
           delete i c.2)
      | None => c
      end
  | Reject i => (c.1, delete i c.2)
  end.

Definition moves (mvs : list Move) (c : gmap nat Session * list Pending)
    : gmap nat Session * list Pending :=
  fold_left (fun c mv => move mv c) mvs c.

(** The moves of the handler of [e] when its two queries run with
    nothing in between, [n] handlers waiting. *)
Definition alone (e : FeedbackEvent) (n : nat) : list Move :=
  match e with
  | OverSocket _ feedback (Returns _) =>
      match SocketService.fb_sessionId feedback with
      | Some sessionId =>
          [Read sessionId None (SocketService.predictionAccepted feedback);
           Write n]
      | None => []
      end
  | OverSocket _ _ (Throws _) => []
  | OverRoute true reqUser (Some sessionId) predictionAccepted =>
      [Read sessionId (Some reqUser) predictionAccepted; Write n]
  | OverRoute _ _ _ _ => []
  end.

(** The session [sid] is a row of [owner], and neither the row nor a
    waiting write for it has more successful predictions than
    predictions. *)
Definition ordered (sid : nat) (owner : string)
    (c : gmap nat Session * list Pending) : Prop :=
  (exists s, c.1 !! sid = Some s /\ userId s = owner
             /\ 0 <= successfulPredictions s <= totalPredictions s)
  /\ Forall (fun p => p_session p = sid -> 0 <= p_successful p <= p_total p)
            c.2.

(** A session of alice, just created. *)
Definition fresh_session : gmap nat Session * list Pending :=
  (<[0%nat := new_session "alice" 0]> ∅, []).

End FeedbackRace.


(** ** The events of one turn

    What an invocation of [processSpeechInput] has emitted when it is
    suspended at a given [await], and what it can have emitted once it
    has settled, by the names of the events. *)

Module TurnTrace.

Import OpenAIService SocketService.

Definition visual_names (r : Remote) (an : Analysis) : list string :=
  match visualAidSuggested an, visualConcept an, visual_outcome r with
  | true, Some _, Returns _ => ["visual_aid_ready"]
  | _, _, _ => []
  end.

Definition audio_names (an : Analysis) : list string :=
  match audioHintSuggested an, audioHintText an with
  | true, Some _ => ["audio_hint_ready"]
  | _, _ => []
  end.

Definition emitted_so_far (t : Turn) : list string :=
  match stage t with
  | AwaitTranscribe => ["processing_started"]
  | AwaitUser _ | AwaitAnalysis _ =>
      ["processing_started"; "transcription_ready"]
  | AwaitVisualAid _ _ _ =>
      ["processing_started"; "transcription_ready"; "predictions_ready"]
  | AwaitSessionUpdate _ _ an =>
      ["processing_started"; "transcription_ready"; "predictions_ready"]
      ++ visual_names (remote t) an ++ audio_names an
  | Settled => []
  end.

(** The outcomes that brought the invocation to its [await]. *)
Definition stage_wf (t : Turn) : Prop :=
  match stage t with
  | AwaitTranscribe | Settled => True
  | AwaitUser _ => exists x, transcribe_outcome (remote t) = Returns x
  | AwaitAnalysis _ =>
      (exists x, transcribe_outcome (remote t) = Returns x)
      /\ user_lookup (remote t) = Returns tt
  | AwaitVisualAid _ an c =>
      (exists x, transcribe_outcome (remote t) = Returns x)
      /\ user_lookup (remote t) = Returns tt
      /\ (exists raw, analysis_outcome (remote t) = Returns raw
                      /\ an = formatAnalysisResponse raw)
      /\ visualAidSuggested an = true /\ visualConcept an = Some c
  | AwaitSessionUpdate _ _ an =>
      (exists x, transcribe_outcome (remote t) = Returns x)
      /\ user_lookup (remote t) = Returns tt
      /\ (exists raw, analysis_outcome (remote t) = Returns raw
                      /\ an = formatAnalysisResponse raw)
  end.

(** The names of the events of a settled turn, in order, from the
    outcomes of its remote calls. *)
Definition settled_names (r : Remote) (names : list string) : Prop :=
  match transcribe_outcome r with
  | Throws _ =>
      names = ["processing_started"; "processing_complete";
               "processing_error"]
  | Returns _ =>
      match user_lookup r, analysis_outcome r with
      | Returns _, Returns raw =>
          let an := formatAnalysisResponse raw in
          let body :=
            ["processing_started"; "transcription_ready";
             "predictions_ready"]
            ++ visual_names r an ++ audio_names an in
          names = body ++ ["processing_complete"]
          \/ ((exists m, session_write r = Throws m)
              /\ names = body ++ ["processing_complete"; "processing_error"])
      | _, _ =>
          names = ["processing_started"; "transcription_ready";
                   "processing_complete"; "processing_error"]
      end
  end.

(** The turn [tid] of a state and the events it has emitted agree. *)
Definition turn_ok (tid : nat) (t : Turn) (st : State) : Prop :=
  stage_wf t
  /\ if in_flight t
     then names_of tid (log st) = emitted_so_far t
     else settled_names (remote t) (names_of tid (log st)).

(** Every session a socket or a suspended turn refers to is a row of
    the table. *)
Definition sessions_exist (st : State) : Prop :=
  (forall sock s sid,
      sockets st !! sock = Some s -> s_sessionId s = Some sid ->
      is_Some (sessions st !! sid))
  /\ (forall tid t sid tr an,
        turns st !! tid = Some t ->
        stage t = AwaitSessionUpdate sid tr an ->
        is_Some (sessions st !! sid))
  /\ (forall sid, is_Some (sessions st !! sid) -> (sid < nextSession st)%nat).

(** The turns are numbered below [nextTurn], and so are the events. *)
Definition numbered (st : State) : Prop :=
  (forall tid, is_Some (turns st !! tid) <-> (tid < nextTurn st)%nat)
  /\ (forall e tid, e ∈ log st -> by_turn e = Some tid ->
                    (tid < nextTurn st)%nat).



(** The events are emitted by the invocation [tid], on its socket. *)
Definition tagged (tid : nat) (t : Turn) (new : list Emit) : Prop :=
  Forall (fun e => by_turn e = Some tid /\ to e = socket t) new.

(** The events are emitted outside of any invocation. *)
Definition untagged (new : list Emit) : Prop :=
  Forall (fun e => by_turn e = None) new.

Definition names (new : list Emit) : list string :=
  (event_name ∘ ev) <$> new.

(** What holds of every state the service reaches. *)
Definition consistent (st : State) : Prop :=
  numbered st /\ sessions_exist st
  /\ forall tid t, turns st !! tid = Some t -> turn_ok tid t st.

(** The number of [await]s an invocation can still reach. *)
Definition awaits_left (s : Stage) : nat :=
  match s with
  | AwaitTranscribe => 5
  | AwaitUser _ => 4
  | AwaitAnalysis _ => 3
  | AwaitVisualAid _ _ _ => 2
  | AwaitSessionUpdate _ _ _ => 1
  | Settled => 0
  end.

(** The event the [finally] block of the invocation emits at the time
    [now]. *)
Definition complete_at (tid : nat) (t : Turn) (now : Z) : Emit :=
  {| to := socket t; by_turn := Some tid; ev := processing_complete now |}.

Definition is_disconnect (a : Action) : bool :=
  match a with
  | Disconnect _ => true
  | _ => false
  end.

(** The event the handler's [catch] emits for the invocation. *)
Definition error_at (tid : nat) (t : Turn) (message : string) : Emit :=
  {| to := socket t; by_turn := Some tid; ev := processing_error message |}.

(** The events of the scenario of the specification. *)
Definition five : list string :=
  ["processing_started"; "transcription_ready"; "predictions_ready";
   "visual_aid_ready"; "processing_complete"].

(** A submission on [sock] of the user [uid] starts the next turn:
    the flag is set, [processing_started] is emitted and the invocation
    awaits the transcription. *)
Definition accepts (sock : nat) (uid : string) (d : SpeechData) (r : Remote)
    (st : State) : Prop :=
  let st' := on_process_speech sock d r st in
  turns st' = <[nextTurn st := {| socket := sock; userId := uid; data := d;
                                  remote := r; stage := AwaitTranscribe |}]>
                (turns st)
  /\ processingQueue st' = <[uid := true]> (processingQueue st)
  /\ log st' = log st ++ [{| to := sock; by_turn := Some (nextTurn st);
                             ev := processing_started (timestamp d) |}].






End TurnTrace.

(** ** Concrete runs *)

Module Scenario.

Import OpenAIService SocketService.

Definition speech : SpeechData :=
  {| audioData := "UklGRg=="; videoFrame := None; timestamp := 1000 |}.

(** "I went... park", two words of half a second each. *)
Definition park_transcription : RawTranscription :=
  {| raw_text := "I went... park";
     raw_words :=
       Some [ {| word := "went"; start := 0%Qc; end_ := Q2Qc (1 # 2) |};
              {| word := "park"; start := 1%Qc; end_ := Q2Qc (3 # 2) |} ] |}.

(** The analysis of the scenario of the specification: a visual aid
    for "park" is suggested, an audio hint is not. *)
Definition park_analysis : RawAnalysis :=
  {| raw_intendedMeaning := Some "I went for a walk in the park";
     raw_confidence := Some (Fin (Q2Qc (85 # 100)));
     raw_wordPredictions := Some ["park"; "garden"];
     raw_assistanceLevel := Some "medium";
     raw_visualCues :=
       Some {| vc_suggested := Some true; vc_concept := Some "park" |};
     raw_audioHint := None;
     raw_emotionalContext := None;
     raw_recommendations := None |}.

(** Every remote call of the turn succeeds. *)
Definition all_succeed : Remote :=
  {| transcribe_outcome := Returns park_transcription;
     user_lookup := Returns tt;
     analysis_outcome := Returns park_analysis;
     visual_outcome := Returns "https://images.example/park.png";
     session_write := Returns tt |}.

(** The transcription fails. *)
Definition transcription_fails : Remote :=
  {| transcribe_outcome := Throws "timeout";
     user_lookup := Returns tt;
     analysis_outcome := Returns park_analysis;
     visual_outcome := Returns "https://images.example/park.png";
     session_write := Returns tt |}.

(** One socket: alice authenticates and starts a session, then bob
    authenticates on the same socket and submits a turn that runs to
    its end. *)
Definition second_login : list Action :=
  [ Connect 1; Authenticate 1 (Some "alice"); StartSession 1 (Returns tt);
    Authenticate 1 (Some "bob"); ProcessSpeech 1 speech all_succeed;
    Resume 0; Resume 0; Resume 0; Resume 0; Resume 0 ].




(** The turn of [second_login], once settled. *)
Definition settled_turn : Turn :=
  {| socket := 1; userId := "bob"; data := speech; remote := all_succeed;
     stage := Settled |}.

(** A turn of alice whose transcription fails, run to its end. *)
Definition failed_turn : list Action :=
  [ Connect 1; Authenticate 1 (Some "alice");
    ProcessSpeech 1 speech transcription_fails; Resume 0 ].

Definition settled_failed_turn : Turn :=
  {| socket := 1; userId := "alice"; data := speech;
     remote := transcription_fails; stage := Settled |}.

(** A session of three completed sentences. *)
Definition three_sentences : Store.Session :=
  {| Store.userId := "alice"; Store.startedAt := 0; Store.endedAt := None;
     Store.duration := None; Store.transcript := "";
     Store.predictions := [];
     Store.completedSentences :=
       ["I went to the park"; "I saw a dog"; "It was sunny"];
     Store.confidence := None; Store.visualAids := [];
     Store.successfulPredictions := 0; Store.totalPredictions := 0;
     Store.updatedAt := None |}.

End Scenario.

(** ** The middleware of [middleware/auth.js] *)

Module AuthMiddleware.

Import Store.
Import Stdlib.Strings.Ascii.

(** What a middleware does with a request: it calls [next()], having
    attached something to [req], or it answers with a status and an
    [error] text. *)
Inductive Outcome (A : Type) : Type :=
| Next (attached : A)
| Respond (status : nat) (error : string).

Arguments Next {A} attached.
Arguments Respond {A} status error.

(** [jwt.verify(token, config.jwtSecret)]: the [id] of the decoded
    payload, or the name of the error thrown. *)
Inductive Verified : Type :=
| Decoded (id : string)
| JsonWebTokenError
| TokenExpiredError
| OtherError.

(** [req.user] as the middleware read it. The rows [authMiddleware]
    selects have no [roles] column. *)
Record ReqUser : Type := {
  id : string;
  roles : option (list string)
}.

(** [authHeader.startsWith('Bearer ')] *)
Definition startsWith_Bearer (authHeader : string) : bool :=
  String.prefix "Bearer " authHeader.

(** [authHeader.substring(7)] *)
Definition substring_7 (authHeader : string) : string :=
  String.substring 7 (String.length authHeader - 7) authHeader.

(** [authMiddleware], lines 9-79. [users] holds the ids of the rows of
    [prisma.user]; [db_ok] says whether the lookup reaches the
    database. *)
Definition authMiddleware (authorization : option string)
    (verify : string -> Verified) (db_ok : bool) (users : gset string)
    : Outcome ReqUser :=
  match authorization with
  | None => Respond 401 "Access denied"
  | Some authHeader =>
      if negb (truthy_str authHeader && startsWith_Bearer authHeader) then
        Respond 401 "Access denied"
      else
        let token := substring_7 authHeader in
        match verify token with
        | Decoded id =>
            if negb db_ok then Respond 500 "Authentication failed"
            else if decide (id ∈ users) then
              Next {| id := id; roles := None |}
            else Respond 401 "Access denied"
        | JsonWebTokenError | TokenExpiredError => Respond 401 "Access denied"
        | OtherError => Respond 500 "Authentication failed"
        end
  end.

(** [optionalAuthMiddleware], lines 85-121: what it attaches when it
    calls [next()], which it always does. *)
Definition optionalAuthMiddleware (authorization : option string)
    (verify : string -> Verified) (db_ok : bool) (users : gset string)
    : Outcome (option ReqUser) :=
  match authorization with
  | None => Next None
  | Some authHeader =>
      if negb (truthy_str authHeader && startsWith_Bearer authHeader) then
        Next None
      else
        let token := substring_7 authHeader in
        match verify token with
        | Decoded id =>
            if negb db_ok then Next None
            else if decide (id ∈ users) then
              Next (Some {| id := id; roles := None |})
            else Next None
        | _ => Next None
        end
  end.

(** [requireRole(roles)], lines 127-151. An array is truthy, also the
    empty one, so [req.user.roles || ['user']] replaces only a missing
    field. *)
Definition requireRole (roles_required : list string) (user : option ReqUser)
    : Outcome unit :=
  match user with
  | None => Respond 401 "Access denied"
  | Some u =>
      let userRoles := default ["user"] (roles u) in
      let hasPermission :=
        existsb (fun role => bool_decide (role ∈ userRoles)) roles_required in
      if negb hasPermission then Respond 403 "Access forbidden"
      else Next tt
  end.

(** What the limiter answers: [next()], or 429 with [retryAfter]
    ([None] is [NaN]). *)
Inductive Limit : Type :=
| Pass
| TooManyRequests (retryAfter : option Z).

(** [Math.ceil(a / 1000)] for an integer [a]. *)
Definition ceil_div_1000 (a : Z) : Z := - ((- a) / 1000).

(** The middleware [userRateLimit(maxRequests, windowMs)] returns,
    lines 160-188; [requests] is the [Map] of its closure, [now] the
    reading of [Date.now()]. The limits and the times are integers. *)
Definition userRateLimit (maxRequests windowMs : Z) (user : option ReqUser)
    (now : Z) (requests : gmap string (list Z))
    : Limit * gmap string (list Z) :=
  match user with
  | None => (Pass, requests)
  | Some u =>
      let userId := id u in
      let windowStart := now - windowMs in
      let userRequests := default [] (requests !! userId) in
      let userRequests :=
        filter (fun timestamp => windowStart < timestamp) userRequests in
      if maxRequests <=? Z.of_nat (length userRequests) then
        (TooManyRequests
           ((fun first => ceil_div_1000 (first - windowStart))
              <$> head userRequests),
         requests)
      else (Pass, <[userId := userRequests ++ [now]]> requests)
  end.

(** A sequence of requests through one limiter, whose [Map] starts
    empty (line 158): the answers and the [Map] afterwards. *)
Fixpoint serve_from (maxRequests windowMs : Z)
    (reqs : list (option ReqUser * Z)) (requests : gmap string (list Z))
    : list Limit * gmap string (list Z) :=
  match reqs with
  | [] => ([], requests)
  | (user, now) :: rest =>
      let '(v, requests) :=
        userRateLimit maxRequests windowMs user now requests in
      let '(vs, requests) := serve_from maxRequests windowMs rest requests in
      (v :: vs, requests)
  end.

Definition serve (maxRequests windowMs : Z) (reqs : list (option ReqUser * Z))
    : list Limit * gmap string (list Z) :=
  serve_from maxRequests windowMs reqs ∅.

(** The times of the requests of user [uid] that were let through. *)
Fixpoint passed (uid : string) (reqs : list (option ReqUser * Z))
    (answers : list Limit) : list Z :=
  match reqs, answers with
  | (Some u, now) :: reqs, Pass :: answers =>
      if decide (id u = uid) then now :: passed uid reqs answers
      else passed uid reqs answers
  | _ :: reqs, _ :: answers => passed uid reqs answers
  | _, _ => []
  end.

(** [Date.now()] does not go back: the readings, from [lo] on. *)
Fixpoint nondecreasing (lo : Z) (times : list Z) : Prop :=
  match times with
  | [] => True
  | t :: rest => lo <= t /\ nondecreasing t rest
  end.

(** How many of [times] fall into the window of [windowMs] milliseconds
    that ends at [t]. *)
Definition in_window (windowMs t : Z) (times : list Z) : nat :=
  length (filter (fun x => t - windowMs < x /\ x <= t) times).

(** What the limiter keeps for the user [uid] when its clock has
    reached [lo]: above the last window start the stored history and
    the times [hist] of the requests let through agree, no window holds
    more of [hist] than the limit, and [hist] lies in the past. *)
Definition window_invariant (maxRequests windowMs : Z) (uid : string)
    (requests : gmap string (list Z)) (hist : list Z) (lo : Z) : Prop :=
  (forall c, lo - windowMs <= c ->
     filter (fun x => c < x) (default [] (requests !! uid))
     = filter (fun x => c < x) hist)
  /\ (forall t,
        Z.of_nat (in_window windowMs t hist) <= Z.max 0 maxRequests)
  /\ Forall (fun x => x <= lo) hist.

(** [s.split(',')] *)
Fixpoint split_comma (s : string) : list string :=
  match s with
  | EmptyString => [EmptyString]
  | String c rest =>
      if Ascii.eqb c ","%char then EmptyString :: split_comma rest
      else
        match split_comma rest with
        | x :: xs => String c x :: xs
        | [] => [String c EmptyString]
        end
  end.

(** [s.includes(',')] *)
Fixpoint includes_comma (s : string) : bool :=
  match s with
  | EmptyString => false
  | String c rest => Ascii.eqb c ","%char || includes_comma rest
  end.

(** [apiKeyAuth], lines 195-218; [VALID_API_KEYS] is the environment
    variable. *)
Definition apiKeyAuth (apiKey : option string) (VALID_API_KEYS : option string)
    : Outcome unit :=
  match apiKey with
  | None => Respond 401 "API key required"
  | Some apiKey =>
      if negb (truthy_str apiKey) then Respond 401 "API key required"
      else
        let validApiKeys := default [] (split_comma <$> VALID_API_KEYS) in
        if negb (bool_decide (apiKey ∈ validApiKeys)) then
          Respond 401 "Invalid API key"
        else Next tt
  end.

(** [validateSession], lines 224-265. *)
Definition validateSession (sessionId : option nat) (user : option ReqUser)
    (db_ok : bool) (sessions : gmap nat Session) : Outcome Session :=
  match sessionId with
  | None => Respond 400 "Session ID required"
  | Some sessionId =>
      match user with
      | None => Respond 401 "Authentication required"
      | Some u =>
          if negb db_ok then Respond 500 "Session validation failed"
          else
            match findFirst sessionId (id u) sessions with
            | None => Respond 404 "Session not found"
            | Some session => Next session
            end
      end
  end.

End AuthMiddleware.

(** ** Replies of the routes, rows of a table *)

Module Http.

(** The rows of a table by ascending id, the order in which a query
    without [orderBy] is taken to return them. *)
Definition rows {A : Type} (table : gmap nat A) : list (nat * A) :=
  @merge_sort (nat * A) (fun r1 r2 => (r1.1 <= r2.1)%nat)
    (fun r1 r2 => decide (r1.1 <= r2.1)%nat) (map_to_list table).


(** [res.status(status).json(...)]: the data of a success, the [error]
    text otherwise. *)
Inductive Reply (A : Type) : Type :=
| Json (status : nat) (data : A)
| Error (status : nat) (error : string).

Arguments Json {A} status data.
Arguments Error {A} status error.

End Http.

(** ** The routes of [/api/memory-garden]

    [prisma.memoryGarden] is a table keyed by the entry id; a new row
    gets an id the table does not hold. As for the session routes,
    [db_ok] says whether the queries of a request reach the database,
    and the outcome of [openaiService.generateMemoryGardenArt] is an
    argument, consulted only when the call is reached. *)

Module MemoryGardenRoutes.

Import Store Http.

(** The parsed reply of the theme analysis, lines 694-710. *)
Record Themes : Type := {
  primaryTheme : string;
  visualElements : list string;
  emotion : string;
  suggestedColors : list string
}.

(** What [generateMemoryGardenArt] returns, lines 727-736. *)
Record Artwork : Type := {
  a_url : string;
  a_theme : string;
  a_emotions : string;
  a_visualElements : list string;
  a_colors : list string;
  a_prompt : string;
  a_sentences : list string;
  a_createdAt : Z
}.

(** [OpenAIService.generateMemoryGardenArt(sentences, userThemes)],
    lines 691-742; [themeAnalysis] and [image] are the outcomes of the
    two requests it awaits (the parsed themes, the url of the image).
    The line breaks and the indentation of the template literal are
    written as single spaces. [userThemes] is not read. *)
Definition generateMemoryGardenArt (sentences : list string)
    (themeAnalysis : Result Themes) (image : Result string) (now : Z)
    : Result Artwork :=
  match themeAnalysis with
  | Throws m => Throws ("Memory Garden artwork generation failed: " ++ m)
  | Returns themes =>
      let artPrompt :=
        ("Create a beautiful, serene memory garden artwork representing "
         ++ primaryTheme themes ++ ". "
         ++ "Include elements: "
         ++ String.concat ", " (visualElements themes) ++ ". "
         ++ "Emotional tone: " ++ emotion themes ++ ". "
         ++ "Style: impressionistic, therapeutic, hope-inspiring. "
         ++ "Colors: soft, calming palette with "
         ++ String.concat ", " (suggestedColors themes))%string in
      match image with
      | Throws m => Throws ("Memory Garden artwork generation failed: " ++ m)
      | Returns url =>
          Returns {| a_url := url; a_theme := primaryTheme themes;
                     a_emotions := emotion themes;
                     a_visualElements := visualElements themes;
                     a_colors := suggestedColors themes;
                     a_prompt := artPrompt; a_sentences := sentences;
                     a_createdAt := now |}
      end
  end.

(** A row of [prisma.memoryGarden]. *)
Record Entry : Type := {
  userId : string;
  title : string;
  description : string;
  theme : string;
  sessionIds : list nat;
  sentences : list string;
  emotions : list string;
  keyWords : list string;
  artworkUrl : option string;
  artPrompt : option string;
  colors : list string;
  generatedAt : option Z;
  updatedAt : option Z
}.

(** [prisma.memoryGarden.findFirst({ where: { id, userId } })] *)
Definition findFirst (id : nat) (uid : string) (entries : gmap nat Entry)
    : option Entry :=
  match entries !! id with
  | Some e => if decide (userId e = uid) then Some e else None
  | None => None
  end.

(** [prisma.memoryGarden.create({ data })] *)
Definition create (data : Entry) (entries : gmap nat Entry)
    : nat * gmap nat Entry :=
  let id := fresh (dom entries) in
  (id, <[id := data]> entries).

(** The artwork columns of a row. *)
Definition set_artwork (artwork : Artwork) (now : Z) (e : Entry) : Entry :=
  {| userId := userId e; title := title e; description := description e;
     theme := theme e; sessionIds := sessionIds e; sentences := sentences e;
     emotions := emotions e; keyWords := keyWords e;
     artworkUrl := Some (a_url artwork);
     artPrompt := Some (a_prompt artwork);
     colors := a_colors artwork;
     generatedAt := Some now; updatedAt := updatedAt e |}.

Definition set_updatedAt (now : Z) (e : Entry) : Entry :=
  {| userId := userId e; title := title e; description := description e;
     theme := theme e; sessionIds := sessionIds e; sentences := sentences e;
     emotions := emotions e; keyWords := keyWords e;
     artworkUrl := artworkUrl e; artPrompt := artPrompt e;
     colors := colors e; generatedAt := generatedAt e;
     updatedAt := Some now |}.

(** The body of [POST /]; [None] is a field the request leaves out. *)
Record CreateBody : Type := {
  c_title : option string;
  c_description : option string;
  c_sentences : option (list string);
  c_sessionIds : option (list nat);
  c_theme : option string;
  c_emotions : option (list string);
  c_keyWords : option (list string);
  c_generateArtwork : option bool
}.

(** [POST /], lines 1470-1545. *)
Definition post_create (db_ok : bool) (artwork : Result Artwork)
    (reqUser : string) (body : CreateBody) (now : Z)
    (entries : gmap nat Entry) : Reply (nat * Entry) * gmap nat Entry :=
  match c_title body, c_sentences body with
  | Some title, Some (s :: ss) =>
      if negb (truthy_str title) then
        (Error 400 "Title and sentences are required", entries)
      else
        let sentences := s :: ss in
        let artworkData :=
          {| userId := reqUser; title := title;
             description := OpenAIService.str_or (c_description body) "";
             theme := OpenAIService.str_or (c_theme body) "general";
             sessionIds := default [] (c_sessionIds body);
             sentences := sentences;
             emotions := default [] (c_emotions body);
             keyWords := default [] (c_keyWords body);
             artworkUrl := None; artPrompt := None; colors := [];
             generatedAt := None; updatedAt := None |} in
        let data :=
          if default true (c_generateArtwork body) then
            match artwork with
            | Returns artwork => set_artwork artwork now artworkData
            | Throws _ => artworkData
            end
          else artworkData in
        if negb db_ok then
          (Error 500 "Failed to create memory garden entry", entries)
        else
          let '(id, entries) := create data entries in
          (Json 201 (id, data), entries)
  | _, _ => (Error 400 "Title and sentences are required", entries)
  end.

(** The body of [PUT /:id]. *)
Record UpdateBody : Type := {
  u_title : option string;
  u_description : option string;
  u_sentences : option (list string);
  u_emotions : option (list string);
  u_keyWords : option (list string);
  u_regenerateArtwork : option bool
}.

(** [updateData] of lines 1575-1582 applied to the row: an empty
    title is left out, an empty array is not. *)
Definition merge_update (body : UpdateBody) (now : Z) (e : Entry) : Entry :=
  {| userId := userId e;
     title := OpenAIService.str_or (u_title body) (title e);
     description := default (description e) (u_description body);
     theme := theme e; sessionIds := sessionIds e;
     sentences := default (sentences e) (u_sentences body);
     emotions := default (emotions e) (u_emotions body);
     keyWords := default (keyWords e) (u_keyWords body);
     artworkUrl := artworkUrl e; artPrompt := artPrompt e;
     colors := colors e; generatedAt := generatedAt e;
     updatedAt := Some now |}.

(** [PUT /:id], lines 1551-1626. *)
Definition put_update (db_ok : bool) (artwork : Result Artwork)
    (reqUser : string) (id : nat) (body : UpdateBody) (now : Z)
    (entries : gmap nat Entry) : Reply Entry * gmap nat Entry :=
  if negb db_ok then
    (Error 500 "Failed to update memory garden entry", entries)
  else
    match findFirst id reqUser entries with
    | None => (Error 404 "Memory garden entry not found", entries)
    | Some existingEntry =>
        let updated := merge_update body now existingEntry in
        let updated :=
          match default false (u_regenerateArtwork body), u_sentences body with
          | true, Some (_ :: _) =>
              match artwork with
              | Returns artwork => set_artwork artwork now updated
              | Throws _ => updated
              end
          | _, _ => updated
          end in
        (Json 200 updated, <[id := updated]> entries)
    end.

(** [DELETE /:id], lines 1632-1666. *)
Definition delete_entry (db_ok : bool) (reqUser : string) (id : nat)
    (entries : gmap nat Entry) : Reply unit * gmap nat Entry :=
  if negb db_ok then
    (Error 500 "Failed to delete memory garden entry", entries)
  else
    match findFirst id reqUser entries with
    | None => (Error 404 "Memory garden entry not found", entries)
    | Some _ => (Json 200 tt, delete id entries)
    end.

(** [POST /:id/regenerate-artwork], lines 1672-1740. *)
Definition post_regenerate_artwork (db_ok : bool) (artwork : Result Artwork)
    (reqUser : string) (id : nat) (now : Z) (entries : gmap nat Entry)
    : Reply Entry * gmap nat Entry :=
  if negb db_ok then (Error 500 "Failed to regenerate artwork", entries)
  else
    match findFirst id reqUser entries with
    | None => (Error 404 "Memory garden entry not found", entries)
    | Some existingEntry =>
        match sentences existingEntry with
        | [] => (Error 400 "Cannot generate artwork without sentences", entries)
        | _ :: _ =>
            match artwork with
            | Throws _ => (Error 500 "Failed to regenerate artwork", entries)
            | Returns artwork =>
                let updated :=
                  set_updatedAt now (set_artwork artwork now existingEntry) in
                (Json 200 updated, <[id := updated]> entries)
            end
        end
    end.

(** [GET /stats/summary], lines 1746-1820: the two totals. *)
Record Summary : Type := {
  totalEntries : nat;
  totalSentences : nat
}.

Definition get_stats_summary (reqUser : string) (entries : gmap nat Entry)
    : Summary :=
  let allEntries :=
    filter (fun e => userId e = reqUser) (snd <$> rows entries) in
  {| totalEntries := length allEntries;
     totalSentences :=
       fold_left (fun sum entry => (sum + length (sentences entry))%nat)
                 allEntries 0%nat |}.

(** The rows [prisma.session.findMany] returns at lines 1836-1855. *)
Definition sessions_with_sentences (sessionIds : list nat) (reqUser : string)
    (sessions : gmap nat Session) : list (nat * Session) :=
  filter (fun row =>
            row.1 ∈ sessionIds /\ Store.userId row.2 = reqUser
            /\ completedSentences row.2 <> [])
         (rows sessions).

(** The row [bulk-create] inserts for [sentences] of the sessions
    [ids], lines 1871-1886 and 1902-1917. *)
Definition bulk_entry (reqUser title description : string)
    (ids : list nat) (sentences : list string) (artwork : Artwork) (now : Z)
    : Entry :=
  {| userId := reqUser; title := title; description := description;
     theme := a_theme artwork; sessionIds := ids; sentences := sentences;
     emotions := [a_emotions artwork];
     keyWords := a_visualElements artwork;
     artworkUrl := Some (a_url artwork);
     artPrompt := Some (a_prompt artwork);
     colors := a_colors artwork;
     generatedAt := Some now; updatedAt := None |}.

(** The loop of lines 1894-1921 from its [n]-th round on:
    [artworks n] is the outcome of the [n]-th call of
    [generateMemoryGardenArt]. An error leaves the loop and the rows
    inserted before it stay. *)
Fixpoint bulk_each (toLocaleDateString : Z -> string)
    (artworks : nat -> Result Artwork) (reqUser : string) (now : Z)
    (n : nat) (found : list (nat * Session))
    (createdEntries : list (nat * Entry)) (entries : gmap nat Entry)
    : Reply (list (nat * Entry)) * gmap nat Entry :=
  match found with
  | [] => (Json 200 createdEntries, entries)
  | (sid, session) :: rest =>
      match completedSentences session with
      | [] =>
          bulk_each toLocaleDateString artworks reqUser now n rest
                    createdEntries entries
      | _ :: _ =>
          match artworks n with
          | Throws _ =>
              (Error 500 "Failed to create memory garden entries", entries)
          | Returns artwork =>
              let data :=
                bulk_entry reqUser
                  ("Session - " ++ toLocaleDateString (startedAt session))
                  ("Therapy session with "
                   ++ pretty (length (completedSentences session))
                   ++ " completed thoughts")
                  [sid] (completedSentences session) artwork now in
              let '(id, entries) := create data entries in
              bulk_each toLocaleDateString artworks reqUser now (S n) rest
                        (createdEntries ++ [(id, data)]) entries
          end
      end
  end.

(** [POST /bulk-create], lines 1826-1935. *)
Definition post_bulk_create (db_ok : bool) (toLocaleDateString : Z -> string)
    (artworks : nat -> Result Artwork) (reqUser : string)
    (sessionIds : option (list nat)) (groupByTheme : option bool) (now : Z)
    (sessions : gmap nat Session) (entries : gmap nat Entry)
    : Reply (list (nat * Entry)) * gmap nat Entry :=
  match sessionIds with
  | None | Some [] => (Error 400 "Session IDs are required", entries)
  | Some sessionIds =>
      if negb db_ok then
        (Error 500 "Failed to create memory garden entries", entries)
      else
        match sessions_with_sentences sessionIds reqUser sessions with
        | [] =>
            (Error 400 "No sessions found with completed sentences", entries)
        | found =>
            if default true groupByTheme then
              let allSentences :=
                found ≫= (fun row => completedSentences row.2) in
              match allSentences with
              | [] => (Json 200 [], entries)
              | _ :: _ =>
                  match artworks 0%nat with
                  | Throws _ =>
                      (Error 500 "Failed to create memory garden entries",
                       entries)
                  | Returns artwork =>
                      let data :=
                        bulk_entry reqUser
                          ("Communication Journey - " ++ toLocaleDateString now)
                          ("Combined insights from "
                           ++ pretty (length found) ++ " therapy sessions")
                          (fst <$> found) allSentences artwork now in
                      let '(id, entries) := create data entries in
                      (Json 200 [(id, data)], entries)
                  end
              end
            else
              bulk_each toLocaleDateString artworks reqUser now 0 found []
                        entries
        end
  end.

(** A request to the router by the authenticated user, with the
    outcomes of the remote calls it makes. *)
Inductive Request : Type :=
| Create (body : CreateBody) (artwork : Result Artwork)
| Update (id : nat) (body : UpdateBody) (artwork : Result Artwork)
| Delete (id : nat)
| RegenerateArtwork (id : nat) (artwork : Result Artwork)
| BulkCreate (sessionIds : option (list nat)) (groupByTheme : option bool)
    (artworks : nat -> Result Artwork).

(** The table after a request. *)
Definition serve (db_ok : bool) (toLocaleDateString : Z -> string)
    (reqUser : string) (now : Z) (sessions : gmap nat Session)
    (req : Request) (entries : gmap nat Entry) : gmap nat Entry :=
  match req with
  | Create body artwork =>
      (post_create db_ok artwork reqUser body now entries).2
  | Update id body artwork =>
      (put_update db_ok artwork reqUser id body now entries).2
  | Delete id => (delete_entry db_ok reqUser id entries).2
  | RegenerateArtwork id artwork =>
      (post_regenerate_artwork db_ok artwork reqUser id now entries).2
  | BulkCreate sessionIds groupByTheme artworks =>
      (post_bulk_create db_ok toLocaleDateString artworks reqUser sessionIds
         groupByTheme now sessions entries).2
  end.

(** Between [entries] and [entries'], only rows of [reqUser] were
    inserted, changed or deleted. *)
Definition only_own (reqUser : string) (entries entries' : gmap nat Entry)
    : Prop :=
  forall id,
    entries !! id = entries' !! id
    \/ ((forall e, entries !! id = Some e -> userId e = reqUser)
        /\ (forall e, entries' !! id = Some e -> userId e = reqUser)).

(** [skip] and [pages] of [GET /], lines 1349 and 1389, for the parsed
    [page], [limit] and the count [total]. *)
Definition skip (page limit : Z) : Z := (page - 1) * limit.

Definition pages (total limit : Z) : num :=
  if decide (limit = 0) then
    if decide (total = 0) then NaN
    else if decide (0 < total) then PInf else NInf
  else Fin (Qc_of_Z (- ((- total) / limit))).

End MemoryGardenRoutes.

(** ** The daily progress of a user

    [updateUserProgress] exists twice with the same body: as a helper
    of the speech routes (lines 484-526), which catches its errors, and
    as a method of [SocketService] (lines 1256-1294), which does not.
    [prisma.userProgress] is keyed by the user and the day. *)

Module UserProgress.

Record Progress : Type := {
  totalSessions : Z;
  totalWordsImproved : Z;
  averageConfidence : num;
  updatedAt : option Z
}.

Record ProgressData : Type := {
  sessionCompleted : bool;
  wordsImproved : nat;
  pd_averageConfidence : num
}.

(** [new Date().toISOString().split('T')[0]]: the day of [now] in UTC,
    counted from the epoch. *)
Definition today (now : Z) : Z := now / 86400000.

(** [x || 0] on a number. *)
Definition or_zero (x : num) : num := if truthy x then x else zero.

(** The body both copies share, when both queries reach the database
    and no query of another report runs between the two ([ProgressRace]
    below takes them apart); [wordsImproved] is the length of an array,
    for which [|| 0] changes nothing. *)
Definition updateUserProgress (userId : string) (progressData : ProgressData)
    (now : Z) (userProgress : gmap (string * Z) Progress)
    : gmap (string * Z) Progress :=
  match userProgress !! (userId, today now) with
  | Some existingProgress =>
      <[(userId, today now) :=
          {| totalSessions :=
               totalSessions existingProgress
               + (if sessionCompleted progressData then 1 else 0);
             totalWordsImproved :=
               totalWordsImproved existingProgress
               + Z.of_nat (wordsImproved progressData);
             averageConfidence :=
               div (add (averageConfidence existingProgress)
                        (pd_averageConfidence progressData))
                   (Fin (Qc_of_Z 2));
             updatedAt := Some now |}]> userProgress
  | None =>
      <[(userId, today now) :=
          {| totalSessions := if sessionCompleted progressData then 1 else 0;
             totalWordsImproved := Z.of_nat (wordsImproved progressData);
             averageConfidence := or_zero (pd_averageConfidence progressData);
             updatedAt := None |}]> userProgress
  end.

(** The helper of the speech routes: a failing query is logged and
    swallowed. *)
Definition route_updateUserProgress (db_ok : bool) (userId : string)
    (progressData : ProgressData) (now : Z)
    (userProgress : gmap (string * Z) Progress)
    : gmap (string * Z) Progress :=
  if db_ok then updateUserProgress userId progressData now userProgress
  else userProgress.

(** The method of [SocketService]: a failing query rejects the call. *)
Definition socket_updateUserProgress (db : Result unit) (userId : string)
    (progressData : ProgressData) (now : Z)
    (userProgress : gmap (string * Z) Progress)
    : Result unit * gmap (string * Z) Progress :=
  match db with
  | Returns _ =>
      (Returns tt, updateUserProgress userId progressData now userProgress)
  | Throws m => (Throws m, userProgress)
  end.

(** What the end of a session reports, lines 352-356 and 1180-1184:
    the number of completed sentences and [session.confidence || 0]. *)
Definition session_end_data (completedSentences : list string)
    (confidence : option num) : ProgressData :=
  {| sessionCompleted := true;
     wordsImproved := length completedSentences;
     pd_averageConfidence :=
       match confidence with
       | Some c => or_zero c
       | None => zero
       end |}.

(** The reports of one user, each with the time it is made at. *)
Definition report_all (userId : string) (reports : list (ProgressData * Z))
    (userProgress : gmap (string * Z) Progress)
    : gmap (string * Z) Progress :=
  fold_left (fun table report =>
               updateUserProgress userId report.1 report.2 table)
            reports userProgress.

End UserProgress.

(** ** Reports of progress that overlap

    Both copies of [updateUserProgress] read the row of the day
    ([findUnique], lines 488 and 1259) and then, with a second query,
    update it with totals computed from the row they read or create it
    (lines 498-521 and 1269-1292). Each query is awaited, so the queries
    of other reports can run between the read and the write of one
    report. The queries name the row by [userId_date], the unique key
    of the table on the user and the day, so a [create] for a key that
    has a row is rejected. [UserProgress.updateUserProgress] above is a
    report whose two queries run with nothing in between and succeed;
    here the two queries are steps of their own and may fail. *)

Module ProgressRace.

Import UserProgress.

(** A report between its read and its write: the query it is about to
    make, [prisma.userProgress.create] or [prisma.userProgress.update],
    with the key and the data. *)
Record Pending : Type := {
  p_create : bool;
  p_key : string * Z;
  p_data : Progress
}.

(** The read of a report that starts, the write of the [i]-th waiting
    report, or that write rejected by the database. A report whose read
    rejects makes no other query and is no move; the copy of the routes
    swallows a rejection, the copy of the socket service passes it on,
    and neither writes. *)
Inductive Move : Type :=
| Read (userId : string) (progressData : ProgressData) (now : Z)
| Write (i : nat)
| Reject (i : nat).

(** The second query of the report, from what its read returns. *)
Definition query (userId : string) (progressData : ProgressData) (now : Z)
    (userProgress : gmap (string * Z) Progress) : Pending :=
  match userProgress !! (userId, today now) with
  | Some existingProgress =>
      {| p_create := false; p_key := (userId, today now);
         p_data :=
           {| totalSessions :=
                totalSessions existingProgress
                + (if sessionCompleted progressData then 1 else 0);
              totalWordsImproved :=
                totalWordsImproved existingProgress
                + Z.of_nat (wordsImproved progressData);
              averageConfidence :=
                div (add (averageConfidence existingProgress)
                         (pd_averageConfidence progressData))
                    (Fin (Qc_of_Z 2));
              updatedAt := Some now |} |}
  | None =>
      {| p_create := true; p_key := (userId, today now);
         p_data :=
           {| totalSessions := if sessionCompleted progressData then 1 else 0;
              totalWordsImproved := Z.of_nat (wordsImproved progressData);
              averageConfidence :=
                or_zero (pd_averageConfidence progressData);
              updatedAt := None |} |}
  end.

(** The query reaches the table: an update needs its row, a create
    needs the key to be free; otherwise the query is rejected and
    nothing is written. *)
Definition run (q : Pending) (userProgress : gmap (string * Z) Progress)
    : gmap (string * Z) Progress :=
  match userProgress !! p_key q, p_create q with
  | Some _, false | None, true => <[p_key q := p_data q]> userProgress
  | _, _ => userProgress
  end.

Definition move (mv : Move) (c : gmap (string * Z) Progress * list Pending)
    : gmap (string * Z) Progress * list Pending :=
  match mv with
  | Read userId progressData now =>
      (c.1, c.2 ++ [query userId progressData now c.1])
  | Write i =>
      match c.2 !! i with
      | Some q => (run q c.1, delete i c.2)
      | None => c
      end
  | Reject i => (c.1, delete i c.2)
  end.

Definition moves (mvs : list Move)
    (c : gmap (string * Z) Progress * list Pending)
    : gmap (string * Z) Progress * list Pending :=
  fold_left (fun c mv => move mv c) mvs c.

(** The reports of a list, each running from its read to its write
    before the next one starts. *)
Definition one_by_one (userId : string) (reports : list (ProgressData * Z))
    : list Move :=
  reports ≫= (fun report => [Read userId report.1 report.2; Write 0]).

(** What the move reports for the user [u] on the day [d], if it is the
    read of such a report. *)
Definition reported (u : string) (d : Z) (mv : Move) : option ProgressData :=
  match mv with
  | Read userId progressData now =>
      if decide (userId = u /\ today now = d) then Some progressData else None
  | _ => None
  end.

(** The completed sessions and the improved words of a list of
    reports. *)
Definition sessions_reported (l : list ProgressData) : Z :=
  Z.of_nat (length (filter (fun pd => sessionCompleted pd = true) l)).

Definition words_reported (l : list ProgressData) : Z :=
  Z.of_nat (sum_list_with wordsImproved l).

(** The row of [k] and the waiting queries for it hold at most
    [sessions] sessions and [words] words. *)
Definition at_most (k : string * Z) (sessions words : Z)
    (c : gmap (string * Z) Progress * list Pending) : Prop :=
  (forall p, c.1 !! k = Some p ->
             0 <= totalSessions p <= sessions
             /\ 0 <= totalWordsImproved p <= words)
  /\ Forall (fun q => p_key q = k ->
                      0 <= totalSessions (p_data q) <= sessions
                      /\ 0 <= totalWordsImproved (p_data q) <= words) c.2.

End ProgressRace.

(** ** [SocketService]: messages to a user *)

Module Broadcast.

Import SocketService.

(** [broadcastToUser(userId, event, data)], lines 1318-1323, for an
    event of the service; [activeConnections] holds the socket
    objects, whose [connected] the socket library clears. *)
Definition broadcastToUser (userId : string) (e : Event) (st : State)
    : State :=
  match activeConnections st !! userId with
  | Some sock =>
      match sockets st !! sock with
      | Some s => if s_connected s then emit sock None e st else st
      | None => st
      end
  | None => st
  end.

(** [getActiveConnectionCount()], lines 1329-1331. *)
Definition getActiveConnectionCount (st : State) : nat :=
  size (activeConnections st).

(** The sockets that are connected and authenticated as [userId]. *)
Definition sockets_of (userId : string) (st : State) : list nat :=
  fst <$> filter (fun p => s_connected p.2 = true /\ s_auth p.2 = Some userId)
                 (map_to_list (sockets st)).

End Broadcast.

(** ** [SocketService]: what it writes to a session row *)

Module SessionRows.

Import Store SocketService.

(** The row holds the completed sentences and the visual aids of the
    row it was before, none if there was no row. *)
Definition same_sentences (before : option Session) (s : Session) : Prop :=
  completedSentences s = from_option completedSentences [] before
  /\ visualAids s = from_option visualAids [] before.

(** The table hands out ids it has not used. *)
Definition fresh_ids (st : State) : Prop :=
  forall k, is_Some (sessions st !! k) -> (k < nextSession st)%nat.

End SessionRows.

(** ** The routes of [/api/auth]: registration and login

    [prisma.user] is a table keyed by the user id. The validation by
    [Joi], [bcrypt] and [jwt.sign] are arguments: [None] is a body the
    schema rejects, [hash] and [compare] are [bcrypt.hash] and
    [bcrypt.compare], [sign] makes the token of a user id. *)

Module AuthRoutes.

Import Http.

Record User : Type := {
  email : string;
  username : option string;
  password : string;
  lastLogin : option Z
}.

(** The validated body of [POST /register]; [POST /login] has no
    [username]. *)
Record Credentials : Type := {
  c_email : string;
  c_username : option string;
  c_password : string
}.

(** The [where] of the query at lines 44-51: the email, or the
    username when the body has one. *)
Definition taken (value : Credentials) (u : User) : bool :=
  bool_decide (email u = c_email value)
  || match c_username value with
     | Some name => truthy_str name && bool_decide (username u = Some name)
     | None => false
     end.

(** [prisma.user.findFirst] with that [where], in the order of the
    table. *)
Definition find_taken (value : Credentials) (users : gmap nat User)
    : option User :=
  head (filter (fun u => taken value u = true) (snd <$> rows users)).

(** [POST /register], lines 30-131: the id and the token of the new
    user. *)
Definition post_register (validated : option Credentials)
    (hash : string -> string) (sign : nat -> string) (db_ok : bool)
    (users : gmap nat User) : Reply (nat * string) * gmap nat User :=
  match validated with
  | None => (Error 400 "Validation error", users)
  | Some value =>
      if negb db_ok then (Error 500 "Registration failed", users)
      else
        match find_taken value users with
        | Some existingUser => (Error 409 "User already exists", users)
        | None =>
            let hashedPassword := hash (c_password value) in
            let id := fresh (dom users) in
            (Json 201 (id, sign id),
             <[id := {| email := c_email value;
                        username := c_username value;
                        password := hashedPassword;
                        lastLogin := None |}]> users)
        end
  end.



(** A sequence of registrations, from the table [users] on. *)
Definition register_all (hash : string -> string) (sign : nat -> string)
    (requests : list (option Credentials * bool)) (users : gmap nat User)
    : gmap nat User :=
  fold_left (fun users request =>
               (post_register request.1 hash sign request.2 users).2)
            requests users.

(** No two rows share an email or a non-empty username. *)
Definition unique (users : gmap nat User) : Prop :=
  forall i j u v,
    users !! i = Some u -> users !! j = Some v ->
    email u = email v
    \/ (exists name, name <> EmptyString /\ username u = Some name
                     /\ username v = Some name) ->
    i = j.

End AuthRoutes.

(** ** Concrete requests *)

Module Examples.

Import Http AuthMiddleware MemoryGardenRoutes.

Definition alice : ReqUser := {| id := "alice"; roles := None |}.

Definition bob : ReqUser := {| id := "bob"; roles := None |}.

(** Four requests of alice and one without a user, within 1.2 s. *)
Definition burst : list (option ReqUser * Z) :=
  [(Some alice, 0); (Some alice, 400); (None, 600); (Some alice, 800);
   (Some alice, 1200)].

Definition garden_art : Artwork :=
  {| a_url := "https://images.example/garden.png";
     a_theme := "outdoors"; a_emotions := "calm";
     a_visualElements := ["trees"; "path"];
     a_colors := ["green"; "blue"];
     a_prompt := "Create a beautiful, serene memory garden artwork";
     a_sentences := ["I went to the park"]; a_createdAt := 1000 |}.

Definition morning_walk : CreateBody :=
  {| c_title := Some "Morning walk"; c_description := None;
     c_sentences := Some ["I went to the park"]; c_sessionIds := None;
     c_theme := None; c_emotions := None; c_keyWords := None;
     c_generateArtwork := None |}.

(** The row [POST /] stores for [morning_walk] when the artwork
    generation fails. *)
Definition morning_walk_entry : Entry :=
  {| userId := "alice"; title := "Morning walk"; description := "";
     theme := "general"; sessionIds := []; sentences := ["I went to the park"];
     emotions := []; keyWords := []; artworkUrl := None; artPrompt := None;
     colors := []; generatedAt := None; updatedAt := None |}.

(** An update that sends an empty array of sentences. *)
Definition no_sentences : UpdateBody :=
  {| u_title := None; u_description := None; u_sentences := Some [];
     u_emotions := None; u_keyWords := None; u_regenerateArtwork := None |}.

(** Two sessions of alice with completed sentences and one of bob. *)
Definition three_sessions : gmap nat Store.Session :=
  {[ 0%nat := Scenario.three_sentences;
     1%nat := Scenario.three_sentences;
     2%nat := Store.new_session "bob" 0 ]}.

(** The image service fails from the second call on. *)
Definition second_call_fails (n : nat) : Result Artwork :=
  match n with
  | O => Returns garden_art
  | S _ => Throws "quota exceeded"
  end.

Definition toLocaleDateString (t : Z) : string := pretty t.

(** Two sessions ended on the first day of the epoch. *)
Definition two_reports : list (UserProgress.ProgressData * Z) :=
  [(UserProgress.session_end_data ["I went to the park"; "I saw a dog"]
      (Some (Fin (Q2Qc (85 # 100)))), 1000);
   (UserProgress.session_end_data ["It was sunny"] None, 2000)].

(** Alice is authenticated on two sockets. *)
Definition two_sockets : list SocketService.Action :=
  [ SocketService.Connect 1; SocketService.Connect 2;
    SocketService.Authenticate 1 (Some "alice");
    SocketService.Authenticate 2 (Some "alice") ].

(** A turn of alice that awaits its visual aid. *)
Definition awaiting_visual_aid : list SocketService.Action :=
  [ SocketService.Connect 1; SocketService.Authenticate 1 (Some "alice");
    SocketService.ProcessSpeech 1 Scenario.speech Scenario.all_succeed;
    SocketService.Resume 0; SocketService.Resume 0; SocketService.Resume 0 ].

(** Alice starts a session and gives feedback on it. *)
Definition session_with_feedback : list SocketService.Action :=
  [ SocketService.Connect 1; SocketService.Authenticate 1 (Some "alice");
    SocketService.StartSession 1 (Returns tt);
    SocketService.SendFeedback 1
      {| SocketService.predictionAccepted := true;
         SocketService.suggestion := "park";
         SocketService.actualIntent := "park";
         SocketService.fb_sessionId := Some 0%nat |} (Returns tt) ].

(** Alice starts a session over the socket and stores three sentences
    in it with [PUT /session/0/update]. *)
Definition three_sentences_body : SpeechRoutes.UpdateBody :=
  {| SpeechRoutes.b_transcript := None;
     SpeechRoutes.b_predictions := None;
     SpeechRoutes.b_completedSentences :=
       Some ["I went to the park"; "I saw a dog"; "It was sunny"];
     SpeechRoutes.b_confidence := None;
     SpeechRoutes.b_visualAids := None |}.

Definition sentences_stored : SocketService.State :=
  let st :=
    SocketService.exec
      [SocketService.Connect 1; SocketService.Authenticate 1 (Some "alice");
       SocketService.StartSession 1 (Returns tt)] SocketService.init in
  SocketService.set_sessions
    (SpeechRoutes.put_session_update true "alice" 0 three_sentences_body 100
       (SocketService.sessions st)).2 st.

(** A turn of alice that runs to its end, and feedback on it. *)
Definition turn_and_feedback : list SocketService.Action :=
  [ SocketService.ProcessSpeech 1 Scenario.speech Scenario.all_succeed;
    SocketService.Resume 0; SocketService.Resume 0; SocketService.Resume 0;
    SocketService.Resume 0; SocketService.Resume 0;
    SocketService.SendFeedback 1
      {| SocketService.predictionAccepted := true;
         SocketService.suggestion := "park";
         SocketService.actualIntent := "park";
         SocketService.fb_sessionId := Some 0%nat |} (Returns tt) ].

End Examples.

(** * Properties *)

(** ** The confidence estimate *)

Section Confidence.

Import OpenAIService ConfidenceSpec.

Lemma Qc_eqb_true (a b : Qc) : Qc_eqb a b = true <-> a = b.
Proof.
  unfold Qc_eqb. rewrite Qceq_alt. destruct (a ?= b)%Qc; split; congruence.
Qed.

Lemma Qc_eqb_false (a b : Qc) : Qc_eqb a b = false <-> a <> b.
Proof.
  rewrite <- Qc_eqb_true. destruct (Qc_eqb a b); split; congruence.
Qed.

Lemma Qc_ltb_true (a b : Qc) : Qc_ltb a b = true <-> (a < b)%Qc.
Proof.
  unfold Qc_ltb. rewrite Qclt_alt. destruct (a ?= b)%Qc; split; congruence.
Qed.

Lemma Qc_ltb_false (a b : Qc) : Qc_ltb a b = false <-> (b <= a)%Qc.
Proof.
  split; intros H.
  - apply Qcnot_lt_le. rewrite <- Qc_ltb_true. congruence.
  - apply Qcle_not_lt in H. rewrite <- Qc_ltb_true in H.
    destruct (Qc_ltb a b); congruence.
Qed.

Lemma clamp01_bounds (q : Qc) : (0 <= clamp01 q)%Qc /\ (clamp01 q <= 1)%Qc.
Proof.
  unfold clamp01, Qc_max, Qc_min.
  destruct (Qc_ltb q 1) eqn:H1.
  - destruct (Qc_ltb 0 q) eqn:H0.
    + apply Qc_ltb_true in H0, H1. split; by apply Qclt_le_weak.
    + split; [apply Qcle_refl | done].
  - destruct (Qc_ltb 0 1) eqn:H0; [split; [done | apply Qcle_refl] |].
    apply Qc_ltb_false in H0. done.
Qed.

Lemma expected_duration_nonneg (w : Word) : (0 <= expected_duration w)%Qc.
Proof.
  unfold expected_duration. apply Qcmult_nonneg_nonneg; [| done].
  rewrite <- Z2Qc_inj_0. apply (proj1 (Z2Qc_inj_le 0 _)). lia.
Qed.

Lemma expected_duration_zero (w : Word) :
  expected_duration w = 0%Qc <-> word w = "".
Proof.
  unfold expected_duration. split.
  - intros H. destruct (word w) as [| c s] eqn:E; [done | exfalso].
    assert (Hn : Qc_of_Z (Z.of_nat (String.length (String c s))) <> 0%Qc).
    { rewrite <- Z2Qc_inj_0. intros H'%Z2Qc_inj. simpl in H'. lia. }
    apply Hn.
    rewrite <- (Qcdiv_mult_l _ tenth) by done.
    rewrite H. done.
  - intros ->. simpl. apply Qcmult_0_l.
Qed.

Lemma observed_duration_zero (w : Word) :
  observed_duration w = 0%Qc <-> start w = end_ w.
Proof.
  unfold observed_duration. split.
  - intros H.
    assert (E : end_ w = (end_ w - start w + start w)%Qc) by ring.
    rewrite H in E. rewrite E. ring.
  - intros ->. ring.
Qed.

(** What one step of the [reduce] adds for a word. *)
Lemma word_confidence_spec (w : Word) :
  word_confidence w =
    if decide (degenerate w) then NaN else Fin (capped_ratio w).
Proof.
  unfold word_confidence, capped_ratio, degenerate. simpl.
  fold (observed_duration w). fold (expected_duration w).
  destruct (Qc_eqb (observed_duration w) 0) eqn:Ho.
  - apply Qc_eqb_true, observed_duration_zero in Ho.
    destruct (Qc_eqb (expected_duration w) 0) eqn:He.
    + apply Qc_eqb_true, expected_duration_zero in He.
      by rewrite decide_True.
    + apply Qc_eqb_false in He.
      rewrite decide_False
        by (intros [Hw _]; by apply He, expected_duration_zero).
      destruct (Qc_ltb (expected_duration w) 0) eqn:Hl; [| done].
      apply Qc_ltb_true in Hl.
      by apply Qclt_not_le in Hl; destruct Hl; apply expected_duration_nonneg.
  - apply Qc_eqb_false in Ho.
    rewrite decide_False
      by (intros [_ Hs]; by apply Ho, observed_duration_zero).
    unfold Qc_min. by destruct (Qc_ltb _ 1).
Qed.

Lemma add_NaN_l (a : num) : add NaN a = NaN.
Proof. by destruct a. Qed.

Lemma fold_add_NaN (ws : list Word) :
  fold_left (fun sum w => add sum (word_confidence w)) ws NaN = NaN.
Proof.
  induction ws as [| w ws IH]; [done |].
  cbn [fold_left]. by rewrite add_NaN_l.
Qed.

(** The [reduce] of lines 798-804 over words none of which is
    degenerate is the sum of the capped ratios. *)
Lemma fold_add_regular (ws : list Word) (a : Qc) :
  Forall (fun w => ~ degenerate w) ws ->
  fold_left (fun sum w => add sum (word_confidence w)) ws (Fin a)
  = Fin (a + sum_Qc (capped_ratio <$> ws))%Qc.
Proof.
  intros H. revert a.
  induction H as [| w ws Hw _ IH]; intros a; cbn [fold_left fmap list_fmap].
  - f_equal. simpl. ring.
  - rewrite word_confidence_spec, decide_False by done. cbn [add].
    rewrite IH. f_equal. simpl. ring.
Qed.

(** One degenerate word makes the whole sum [NaN]. *)
Lemma fold_add_degenerate (ws : list Word) (a : num) :
  Exists degenerate ws ->
  fold_left (fun sum w => add sum (word_confidence w)) ws a = NaN.
Proof.
  intros H. revert a.
  induction H as [w ws Hw | w ws _ IH]; intros a; cbn [fold_left].
  - rewrite word_confidence_spec, decide_True by done.
    replace (add a NaN) with NaN by (by destruct a).
    apply fold_add_NaN.
  - apply IH.
Qed.

Lemma of_nat_S_nonzero (n : nat) : Qc_of_Z (Z.of_nat (S n)) <> 0%Qc.
Proof. rewrite <- Z2Qc_inj_0. intros H%Z2Qc_inj. lia. Qed.

Lemma confidence_cons (w : Word) (ws : list Word) :
  calculateTranscriptionConfidence (Some (w :: ws))
  = max (Fin 0%Qc)
        (min (Fin 1%Qc)
             (div (fold_left (fun sum w => add sum (word_confidence w))
                             (w :: ws) (Fin 0%Qc))
                  (Fin (Qc_of_Z (Z.of_nat (S (length ws))))))).
Proof. reflexivity. Qed.

(** Without degenerate words the code computes the estimate of the
    specification. *)
Lemma confidence_regular (ws : list Word) :
  Forall (fun w => ~ degenerate w) ws ->
  calculateTranscriptionConfidence (Some ws) = Fin (confidence_spec (Some ws)).
Proof.
  intros H. destruct ws as [| w ws]; [done |].
  rewrite confidence_cons, fold_add_regular by done.
  rewrite Qcplus_0_l. unfold confidence_spec, div.
  pose proof (of_nat_S_nonzero (length ws)) as Hn.
  apply Qc_eqb_false in Hn. rewrite Hn. cbn [length].
  unfold clamp01, Qc_max, Qc_min, max, min.
  destruct (Qc_ltb _ 1); [| by destruct (Qc_ltb 0 1)].
  by destruct (Qc_ltb 0 _).
Qed.

Lemma confidence_regular_in_unit_interval (ws : list Word) :
  Forall (fun w => ~ degenerate w) ws ->
  in_unit_interval (calculateTranscriptionConfidence (Some ws)).
Proof.
  intros H. rewrite confidence_regular by done. simpl.
  destruct ws as [| w ws]; [done |]. apply clamp01_bounds.
Qed.

Lemma confidence_no_words :
  calculateTranscriptionConfidence None = zero
  /\ calculateTranscriptionConfidence (Some []) = zero.
Proof. done. Qed.

(** A degenerate word anywhere in the list makes the estimate [NaN]:
    neither [Math.min] nor [Math.max] replaces it. *)
Lemma confidence_degenerate (ws : list Word) :
  Exists degenerate ws ->
  calculateTranscriptionConfidence (Some ws) = NaN.
Proof.
  intros H. destruct ws as [| w ws]; [by apply Exists_nil in H |].
  by rewrite confidence_cons, fold_add_degenerate.
Qed.

(** C9 (fails on the code). The confidence derived for the
    transcription whose only word has no characters and no duration,
    [[{ word: '', start: 0, end: 0 }]], is [NaN]: it is not a number of
    the interval [0,1], although the list of words is not empty. *)
Theorem C9_confidence_of_empty_word_is_NaN :
  calculateTranscriptionConfidence
    (Some [{| word := ""; start := 0%Qc; end_ := 0%Qc |}]) = NaN
  /\ ~ in_unit_interval
        (calculateTranscriptionConfidence
           (Some [{| word := ""; start := 0%Qc; end_ := 0%Qc |}])).
Proof.
  assert (E : calculateTranscriptionConfidence
                (Some [{| word := ""; start := 0%Qc; end_ := 0%Qc |}]) = NaN)
    by (apply confidence_degenerate, Exists_cons_hd; by split).
  split; [done |]. rewrite E. simpl. tauto.
Qed.

End Confidence.

(** ** The conversation context store *)

Section Contexts.

Import OpenAIService ContextStore.

Lemma slice_last_length {A : Type} (n : nat) (l : list A) :
  length (slice_last n l) = Nat.min n (length l).
Proof. unfold slice_last. rewrite length_drop. lia. Qed.

Lemma slice_last_short {A : Type} (n : nat) (l : list A) :
  (length l <= n)%nat -> slice_last n l = l.
Proof.
  intros H. unfold slice_last.
  replace (length l - n)%nat with 0%nat by lia. done.
Qed.

(** What [updateConversationContext] stores for the user: the old
    entries and the new one, without the oldest ones beyond ten. *)
Lemma updateConversationContext_lookup (u : string) (e : ContextEntry)
    (m : gmap string (list ContextEntry)) :
  updateConversationContext u e m !! u
  = Some (slice_last 10 (default [] (m !! u) ++ [e])).
Proof.
  unfold updateConversationContext. rewrite lookup_insert_eq. f_equal.
  destruct (10 <? _)%nat eqn:E; [done |].
  apply Nat.ltb_ge in E. by rewrite slice_last_short.
Qed.

Lemma updateConversationContext_other (u v : string) (e : ContextEntry)
    (m : gmap string (list ContextEntry)) :
  u <> v -> updateConversationContext u e m !! v = m !! v.
Proof.
  intros H. unfold updateConversationContext. by rewrite lookup_insert_ne.
Qed.

(** What [cleanupContexts] leaves of a user's entries. *)
Lemma cleanupContextsWith_lookup (maxAge t : Z) (u : string)
    (m : gmap string (list ContextEntry)) :
  cleanupContextsWith maxAge t m !! u
  = match m !! u with
    | Some ctx =>
        match filter (fun e => age t e < maxAge) ctx with
        | [] => None
        | kept => Some kept
        end
    | None => None
    end.
Proof.
  unfold cleanupContextsWith. rewrite lookup_omap.
  destruct (m !! u) as [ctx |]; [| done]. simpl.
  unfold age. by destruct (filter _ ctx).
Qed.

(** Every list of the store has between one and ten entries, none of
    them stamped later than the clock. *)
Definition well_formed (s : Store) : Prop :=
  forall u ctx, contexts s !! u = Some ctx ->
    (0 < length ctx <= 10)%nat /\ Forall (fun e => timestamp e <= now s) ctx.

Lemma apply_well_formed (op : Op) (s : Store) :
  well_formed s -> well_formed (apply op s).
Proof.
  intros Hs u ctx. destruct op as [v text raw | maxAge | ms]; simpl.
  - destruct (decide (v = u)) as [-> | Hne].
    + rewrite updateConversationContext_lookup. intros [= <-]. split.
      * rewrite slice_last_length, length_app. cbn [length].
        destruct (contexts s !! u) as [old |] eqn:E;
          cbn [default from_option id length]; [| lia].
        destruct (Hs _ _ E) as [? _]. lia.
      * unfold slice_last. apply Forall_drop, Forall_app. split.
        -- destruct (contexts s !! u) as [old |] eqn:E; simpl; [| done].
           by destruct (Hs _ _ E).
        -- apply Forall_singleton. simpl. lia.
    + rewrite updateConversationContext_other by done. apply Hs.
  - rewrite cleanupContextsWith_lookup.
    destruct (contexts s !! u) as [old |] eqn:E; [| done].
    destruct (Hs _ _ E) as [Hlen Hts].
    destruct (filter _ old) as [| e kept] eqn:F; [done |].
    intros [= <-]. rewrite <- F. split.
    + split; [rewrite F; simpl; lia |].
      pose proof (length_filter (fun e => age (now s) e < maxAge) old). lia.
    + rewrite Forall_forall in Hts |- *.
      intros x Hx%list_elem_of_filter. apply Hts, Hx.
  - intros E. destruct (Hs _ _ E) as [Hlen Hts]. split; [done |].
    eapply Forall_impl; [exact Hts |]. simpl. intros; lia.
Qed.

Lemma run_well_formed (ops : list Op) (s : Store) :
  well_formed s -> well_formed (run ops s).
Proof.
  revert s. induction ops as [| op ops IH]; intros s Hs; [done |].
  simpl. apply IH, apply_well_formed, Hs.
Qed.

Lemma empty_well_formed (t0 : Z) : well_formed (empty t0).
Proof. intros u ctx. simpl. by rewrite lookup_empty. Qed.

Lemma filter_none_young (t : Z) (ctx : list ContextEntry) :
  Forall (fun e => timestamp e <= t) ctx ->
  filter (fun e => age t e < 0) ctx = [].
Proof.
  induction 1 as [| e ctx He _ IH]; [done |].
  rewrite filter_cons, decide_False by (unfold age; lia). exact IH.
Qed.

(** C5. Starting from the empty store, after every sequence of appends,
    sweeps and waits: no user has more than ten entries; an append
    stores the old entries followed by the new one, without the oldest
    when there were ten already; a sweep keeps of every list exactly the
    entries younger than the maximum age, in order, and drops the list
    of a user none of whose entries is kept, so that no entry as old as
    the maximum age and no empty list is left; and a sweep with
    maximum age 0 leaves the store empty. *)
Theorem C5_contexts_bounded_and_swept (t0 : Z) (ops : list Op) :
  let s := run ops (empty t0) in
  (forall u ctx, contexts s !! u = Some ctx -> (length ctx <= 10)%nat)
  /\ (forall u text raw,
        contexts (apply (Append u text raw) s) !! u
        = Some (let ctx := default [] (contexts s !! u) in
                if decide (length ctx = 10%nat)
                then drop 1 ctx ++ [entry text raw s]
                else ctx ++ [entry text raw s]))
  /\ (forall maxAge u,
        contexts (apply (Sweep maxAge) s) !! u
        = match contexts s !! u with
          | Some ctx =>
              match filter (fun e => age (now s) e < maxAge) ctx with
              | [] => None
              | kept => Some kept
              end
          | None => None
          end)
  /\ (forall maxAge u ctx,
        contexts (apply (Sweep maxAge) s) !! u = Some ctx ->
        ctx <> [] /\ Forall (fun e => age (now s) e < maxAge) ctx)
  /\ contexts (apply (Sweep 0) s) = ∅.
Proof.
  intros s.
  assert (Hs : well_formed s) by apply run_well_formed, empty_well_formed.
  repeat split.
  - intros u ctx E. destruct (Hs _ _ E) as [? _]. lia.
  - intros u text raw. simpl. rewrite updateConversationContext_lookup.
    f_equal. unfold slice_last. rewrite length_app. cbn [length].
    destruct (contexts s !! u) as [old |] eqn:E;
      cbn [default from_option id length].
    + destruct (Hs _ _ E) as [Hlen _]. case_decide as H10.
      * rewrite H10. cbn [Nat.add Nat.sub].
        rewrite drop_app_le by lia. done.
      * replace (length old + 1 - 10)%nat with 0%nat by lia. done.
    + by rewrite decide_False.
  - intros maxAge u. simpl. apply cleanupContextsWith_lookup.
  - simpl in H. rewrite cleanupContextsWith_lookup in H.
    destruct (contexts s !! u) as [old |]; [| done].
    destruct (filter _ old); [done |]. by intros ->.
  - simpl in H. rewrite cleanupContextsWith_lookup in H.
    destruct (contexts s !! u) as [old |]; [| done].
    destruct (filter _ old) as [| e kept] eqn:F; [done |].
    injection H as <-. rewrite <- F, Forall_forall.
    by intros x [Hx _]%list_elem_of_filter.
  - apply map_eq. intros u. simpl.
    rewrite cleanupContextsWith_lookup, lookup_empty.
    destruct (contexts s !! u) as [old |] eqn:E; [| done].
    destruct (Hs _ _ E) as [_ Hts]. by rewrite filter_none_young.
Qed.

(** The timer of the service sweeps with the maximum age of thirty
    minutes. *)
Lemma cleanupContexts_is_sweep (s : Store) :
  contexts (apply (Sweep maxAge) s) = cleanupContexts (now s) (contexts s).
Proof. reflexivity. Qed.

Lemma updateConversationContext_bounded (u : string) (e : ContextEntry)
    (m : gmap string (list ContextEntry)) :
  contexts_bounded m -> contexts_bounded (updateConversationContext u e m).
Proof.
  intros H v ctx. destruct (decide (u = v)) as [<- | Hne].
  - rewrite updateConversationContext_lookup. intros [= <-].
    rewrite slice_last_length. lia.
  - rewrite updateConversationContext_other by done. apply H.
Qed.

Lemma cleanupContextsWith_bounded (maxAge t : Z)
    (m : gmap string (list ContextEntry)) :
  contexts_bounded m -> contexts_bounded (cleanupContextsWith maxAge t m).
Proof.
  intros H u ctx. rewrite cleanupContextsWith_lookup.
  destruct (m !! u) as [old |] eqn:E; [| done].
  destruct (filter _ old) as [| e kept] eqn:F; [done |].
  intros [= <-]. rewrite <- F.
  pose proof (length_filter (fun e => ContextStore.age t e < maxAge) old).
  specialize (H _ _ E). lia.
Qed.

End Contexts.

(** ** Prediction counters *)

Section Feedback.

Import Store FeedbackLog FeedbackRace.

(** One event: a recorded feedback adds one to the total and, when the
    prediction was accepted, one to the successful predictions; any
    other event leaves the counters alone. *)
Lemma handle_counts (sid : nat) (owner : string) (c : Z * Z)
    (e : FeedbackEvent) (m : gmap nat Session) :
  session_with_counts sid owner c m ->
  session_with_counts sid owner
    match recorded sid owner e with
    | Some accepted => (c.1 + (if accepted then 1 else 0), c.2 + 1)
    | None => c
    end
    (handle e m).
Proof.
  intros (s & Hs & Ho & Hc1 & Hc2).
  destruct e as [uid fb db | db_ok reqUser sessionId acc]; simpl;
    unfold SocketService.processFeedback, SpeechRoutes.post_feedback,
      findUnique, findFirst, update.
  all: repeat (first [case_decide | case_match]; simplify_eq/=).
  all: destruct_and?; simplify_eq/=.
  all: try (exists s; rewrite ?lookup_insert_ne by congruence; done).
  all: try (eexists; rewrite lookup_insert_eq; split; [done |];
            simpl; by rewrite ?Hc1, ?Hc2).
  all: try tauto.
  all: destruct (decide (n = sid)) as [-> | Hne];
    [ exfalso; simplify_eq; destruct db_ok; [tauto | done]
    | exists s; by rewrite lookup_insert_ne ].
Qed.

Lemma move_ordered (sid : nat) (owner : string) (mv : Move)
    (c : gmap nat Session * list Pending) :
  ordered sid owner c -> ordered sid owner (move mv c).
Proof.
  intros [(s & Hs & Ho & Hle) Hpend]. destruct mv as [k u acc | i | i]; simpl.
  - destruct (lookup_for k u c.1) as [r |] eqn:E; [| by split; [exists s |]].
    assert (Hr : c.1 !! k = Some r).
    { unfold lookup_for, findFirst, findUnique in E.
      destruct u; [| done]. destruct (c.1 !! k); [| done].
      by case_decide. }
    split; [by exists s |]. simpl. apply Forall_app. split; [done |].
    apply Forall_singleton. simpl. intros ->.
    rewrite Hs in Hr. injection Hr as <-. destruct acc; lia.
  - destruct (c.2 !! i) as [p |] eqn:E; [| by split; [exists s |]].
    assert (Hp : p_session p = sid -> 0 <= p_successful p <= p_total p).
    { rewrite Forall_forall in Hpend. apply Hpend.
      by eapply list_elem_of_lookup_2. }
    split; simpl; [| by apply Forall_delete].
    unfold update. destruct (c.1 !! p_session p) as [r |] eqn:Er; simpl;
      [| by exists s].
    destruct (decide (p_session p = sid)) as [Heq | Hne].
    + rewrite Heq in *. rewrite Hs in Er. injection Er as <-.
      eexists. rewrite lookup_insert_eq. split; [done |]. simpl. auto.
    + exists s. by rewrite lookup_insert_ne.
  - split; [by exists s |]. by apply Forall_delete.
Qed.

Lemma moves_ordered (sid : nat) (owner : string) (mvs : list Move)
    (c : gmap nat Session * list Pending) :
  ordered sid owner c -> ordered sid owner (moves mvs c).
Proof.
  revert c. induction mvs as [| mv mvs IH]; intros c H; [done |].
  simpl. by apply IH, move_ordered.
Qed.

(** A handler whose queries run with nothing in between is the handler
    of [processFeedback] and [post_feedback]; the waiting handlers wait
    on. *)
Lemma alone_is_handle (e : FeedbackEvent)
    (c : gmap nat Session * list Pending) :
  moves (alone e (length c.2)) c = (handle e c.1, c.2).
Proof.
  assert (Hrw : forall k u acc,
            moves [Read k u acc; Write (length c.2)] c
            = (match lookup_for k u c.1 with
               | Some session =>
                   default c.1
                     (update k
                        (set_counts
                           (successfulPredictions session
                            + (if acc then 1 else 0))
                           (totalPredictions session + 1)) c.1)
               | None => c.1
               end, c.2)).
  { intros k u acc. destruct c as [m pend]. simpl.
    destruct (lookup_for k u m) as [r |] eqn:E; simpl.
    - rewrite lookup_app_r, Nat.sub_diag by done. simpl.
      f_equal. rewrite delete_middle. by rewrite app_nil_r.
    - by rewrite lookup_ge_None_2. }
  destruct e as [uid fb [[] | msg] | [] reqUser [k |] acc];
    cbn [alone handle];
    unfold SocketService.processFeedback, SpeechRoutes.post_feedback;
    cbn [negb].
  - destruct (SocketService.fb_sessionId fb) as [k |]; [| by destruct c].
    rewrite Hrw. cbn [lookup_for snd]. unfold findUnique.
    destruct (c.1 !! k) as [r |] eqn:Er; [| done].
    unfold update. by rewrite Er.
  - by destruct (SocketService.fb_sessionId fb), c.
  - rewrite Hrw. cbn [lookup_for].
    destruct (findFirst k reqUser c.1) as [r |] eqn:Er; [| done].
    by destruct (update k _ c.1).
  - by destruct c.
  - by destruct c.
  - by destruct c.
Qed.

(** C6 (as amended). A session is created with both counters at 0.
    However the reads and the writes of feedback handlers, over the
    socket or over the route, interleave afterwards, and whatever their
    targets and outcomes, the session has
    [0 <= successfulPredictions <= totalPredictions] after every step;
    and a handler that then runs from its read to its write with
    nothing in between adds one to [totalPredictions] and adds one to
    [successfulPredictions] exactly when the prediction was accepted if
    its event is recorded on this session, and leaves both counters as
    they are if not. *)
Theorem C6_successful_at_most_total (m0 : gmap nat Session) (sid : nat)
    (owner : string) (t0 : Z) (mvs : list Move) :
  let c := moves mvs (<[sid := new_session owner t0]> m0, []) in
  exists successful total,
    counts sid c.1 = Some (successful, total)
    /\ 0 <= successful <= total
    /\ forall e,
         (moves (alone e (length c.2)) c).1 = handle e c.1
         /\ counts sid (handle e c.1)
            = Some match recorded sid owner e with
                   | Some accepted =>
                       (successful + (if accepted then 1 else 0), total + 1)
                   | None => (successful, total)
                   end.
Proof.
  intros c.
  assert (H : ordered sid owner c).
  { apply moves_ordered. split; [| constructor].
    exists (new_session owner t0). cbn [fst]. rewrite lookup_insert_eq.
    split; [done |]. split; [done |]. simpl. lia. }
  destruct H as [(s & Hs & Ho & Hle) _].
  exists (successfulPredictions s), (totalPredictions s).
  split; [unfold counts; by rewrite Hs |]. split; [done |].
  intros e. split; [by rewrite alone_is_handle |].
  pose proof (handle_counts sid owner
                (successfulPredictions s, totalPredictions s) e c.1
                ltac:(by exists s)) as (s' & Hs' & _ & H1 & H2).
  unfold counts. rewrite Hs'. simpl. rewrite H1, H2.
  by destruct (recorded sid owner e).
Qed.

(** C6 (as stated, fails). Two handlers read the counters of a new
    session before either writes: of two accepted feedbacks one
    increment of each counter is lost, and an accepted feedback is
    overwritten by a refused one that read before it was written. One
    after the other, the same two count 1 of 2. *)
Lemma C6_overlapping_feedback_loses_an_increment :
  counts 0 (moves [Read 0 None true; Read 0 None true; Write 0; Write 0]
              fresh_session).1 = Some (1, 1)
  /\ counts 0 (moves [Read 0 None true; Read 0 (Some "alice") false;
                      Write 0; Write 0] fresh_session).1 = Some (0, 1)
  /\ counts 0 (moves [Read 0 None true; Write 0;
                      Read 0 (Some "alice") false; Write 0]
                 fresh_session).1 = Some (1, 2).
Proof. vm_compute. done. Qed.

End Feedback.

(** ** Session ownership *)

Section Ownership.

Import Store SpeechRoutes SocketService.

(** The update route answers 404 and writes nothing unless the session
    exists and belongs to the requesting user. *)
Lemma put_session_update_foreign (db_ok : bool) (reqUser : string)
    (sessionId : nat) (body : UpdateBody) (now : Z)
    (sessions : gmap nat Session) :
  db_ok = true ->
  (forall s, sessions !! sessionId = Some s -> Store.userId s <> reqUser) ->
  put_session_update db_ok reqUser sessionId body now sessions
  = (Status404, sessions).
Proof.
  intros -> H. unfold put_session_update, findFirst. simpl.
  destruct (sessions !! sessionId) as [s |] eqn:E; [| done].
  by rewrite decide_False by by apply H.
Qed.

(** The update route changes the table only in the row of a session of
    the requesting user. *)
Lemma put_session_update_owned (db_ok : bool) (reqUser : string)
    (sessionId : nat) (body : UpdateBody) (now : Z)
    (sessions : gmap nat Session) :
  let '(response, sessions') :=
    put_session_update db_ok reqUser sessionId body now sessions in
  sessions' = sessions
  \/ exists s, sessions !! sessionId = Some s /\ Store.userId s = reqUser
               /\ response = Json (merge_update body now s)
               /\ sessions' = <[sessionId := merge_update body now s]> sessions.
Proof.
  unfold put_session_update, findFirst, update.
  destruct db_ok; simpl; [| by left].
  destruct (sessions !! sessionId) as [s |] eqn:E; [| by left].
  case_decide; [| by left]. right. by exists s.
Qed.

(** The session update of a turn writes the row whoever owns it. *)
Lemma resume_session_update_any_owner (tid : nat) (st : State) (t : Turn)
    (sid : nat) (tr : OpenAIService.TranscriptionResult)
    (an : OpenAIService.Analysis)
    (row : Session) :
  turns st !! tid = Some t ->
  stage t = AwaitSessionUpdate sid tr an ->
  session_write (remote t) = Returns tt ->
  sessions st !! sid = Some row ->
  sessions (resume tid st) !! sid
  = Some (set_turn_data (OpenAIService.text tr)
            (OpenAIService.predictions an)
            (OpenAIService.confidence an) (clock st) row).
Proof.
  intros Ht Hst Hw Hrow. unfold resume. rewrite Ht, Hst, Hw.
  unfold updateSessionData, update. rewrite Hrow.
  unfold finally_block, suspend, emit. simpl. by rewrite lookup_insert_eq.
Qed.

(** C7 (fails on the code). On one socket alice starts session 0, bob
    authenticates and submits a turn, and every call of the turn
    succeeds. The turn is bob's, the session is alice's, and yet the
    turn's session update is written into it: no error is emitted and
    alice's session carries the transcript of bob's turn. *)
Theorem C7_turn_updates_foreign_session :
  let st := exec Scenario.second_login init in
  (Store.userId <$> sessions st !! 0%nat) = Some "alice"
  /\ (transcript <$> sessions st !! 0%nat) = Some "I went... park"
  /\ (s_auth <$> sockets st !! 1%nat) = Some (Some "bob")
  /\ names_of 0 (log st)
     = ["processing_started"; "transcription_ready"; "predictions_ready";
        "visual_aid_ready"; "processing_complete"].
Proof. vm_compute. done. Qed.

End Ownership.

(** ** Ending a session *)

Section Artwork.

Import Store SpeechRoutes.

(** The end route, for a session of the requesting user: the artwork
    generation is called exactly when the request lists at least three
    completed sentences, and the response is the same whether the
    generation or the insertion of its row fails or not. *)
Lemma post_session_end_artwork (art : Result string) (garden_ok : bool)
    (reqUser : string) (sessionId : nat) (completedSentences : list string)
    (now : Z) (sessions : gmap nat Session) (memoryGarden : list Garden)
    (s : Session) :
  sessions !! sessionId = Some s ->
  userId s = reqUser ->
  let '(response, sessions', _, calls) :=
    post_session_end true art garden_ok reqUser sessionId completedSentences
                     now sessions memoryGarden in
  response = Json {| st_duration := (now - startedAt s) / 1000;
                     st_completedSentences := length completedSentences |}
  /\ Store.completedSentences <$> sessions' !! sessionId
     = Some completedSentences
  /\ (generateMemoryGardenArt completedSentences ∈ calls
      <-> (3 <= length completedSentences)%nat).
Proof.
  intros Hs Hu. unfold post_session_end, findFirst, update. cbn [negb].
  rewrite Hs, decide_True by done.
  destruct (3 <=? length completedSentences)%nat eqn:E; cbn beta iota zeta.
  - apply Nat.leb_le in E. rewrite lookup_insert_eq.
    repeat split; [done |]. intros _. set_solver.
  - apply Nat.leb_gt in E. rewrite lookup_insert_eq.
    repeat split; [| lia].
    intros H%list_elem_of_singleton. done.
Qed.

(** Over the socket no artwork generation is ever called. *)
Lemma endSession_calls (sessionId : nat) (db progress : Result unit)
    (now : Z) (sessions : gmap nat Session) (sentences : list string) :
  generateMemoryGardenArt sentences
    ∉ (SocketService.endSession sessionId db progress now sessions).2.
Proof.
  unfold SocketService.endSession, findUnique, update.
  destruct db; simpl; [| apply not_elem_of_nil].
  destruct (sessions !! sessionId); simpl; [| apply not_elem_of_nil].
  destruct progress; simpl; by intros ?%list_elem_of_singleton.
Qed.

(** C8 (fails on the code). A session of three completed sentences is
    ended over the socket: [endSession] returns, the session is closed,
    and the only remote call made is the progress update; the artwork
    generation is not triggered. *)
Theorem C8_socket_end_triggers_no_artwork :
  SocketService.endSession 7 (Returns tt) (Returns tt) 5000
    {[ 7%nat := Scenario.three_sentences ]}
  = (Returns tt,
     {[ 7%nat := set_ended 5000 5 Scenario.three_sentences ]},
     [updateUserProgress "alice" 3]).
Proof. vm_compute. done. Qed.

End Artwork.

(** ** The turn pipeline *)

Section Pipeline.

Import Store OpenAIService SocketService TurnTrace.

Lemma audio_hint_and_session_spec (tid : nat) (t : Turn)
    (tr : TranscriptionResult) (an : Analysis) (st : State) :
  exists s' new,
    turns (audio_hint_and_session tid t tr an st)
    = <[tid := set_stage s' t]> (turns st)
    /\ log (audio_hint_and_session tid t tr an st) = log st ++ new
    /\ tagged tid t new
    /\ ((s' = Settled
         /\ names new = audio_names an ++ ["processing_complete"]
         /\ processingQueue (audio_hint_and_session tid t tr an st)
            = delete (userId t) (processingQueue st))
        \/ (exists sid, s' = AwaitSessionUpdate sid tr an
              /\ sockets st !! socket t ≫= s_sessionId = Some sid
              /\ names new = audio_names an
              /\ processingQueue (audio_hint_and_session tid t tr an st)
                 = processingQueue st)).
Proof.
  unfold audio_hint_and_session, audio_names, tagged, names.
  destruct (audioHintSuggested an); [destruct (audioHintText an) |];
    simpl; destruct (sockets st !! socket t ≫= s_sessionId) eqn:Es;
    simpl; unfold finally_block, suspend, emit; simpl;
    rewrite <- ?app_assoc; eexists _, _;
    (split; [reflexivity |]);
    (split; [simpl; try reflexivity; try (symmetry; apply app_nil_r) |]);
    (split; [repeat constructor |]); eauto 10.
Qed.

Ltac crush :=
  simpl; rewrite <- ?app_assoc; simpl;
  repeat split; simpl; eauto 10; try done; try (repeat constructor; done).

(** One step of a turn in flight: the turn moves to its next [await]
    or settles; the events it emits in the step extend what it had
    emitted to what its new stage requires, and the flag of its user
    is deleted exactly when it settles. *)
Lemma resume_turn (tid : nat) (st : State) (t : Turn) :
  turns st !! tid = Some t ->
  in_flight t = true ->
  stage_wf t ->
  (forall sid tr an, stage t = AwaitSessionUpdate sid tr an ->
                     is_Some (sessions st !! sid)) ->
  exists s' new,
    turns (resume tid st) = <[tid := set_stage s' t]> (turns st)
    /\ log (resume tid st) = log st ++ new
    /\ tagged tid t new
    /\ stage_wf (set_stage s' t)
    /\ (if in_flight (set_stage s' t)
        then emitted_so_far (set_stage s' t) = emitted_so_far t ++ names new
             /\ processingQueue (resume tid st) = processingQueue st
        else settled_names (remote t) (emitted_so_far t ++ names new)
             /\ processingQueue (resume tid st)
                = delete (userId t) (processingQueue st))
    /\ (forall sid tr an,
          s' = AwaitSessionUpdate sid tr an ->
          sockets st !! socket t ≫= s_sessionId = Some sid).
Proof.
  intros Ht Hf Hwf Hs. unfold resume. rewrite Ht.
  unfold stage_wf in Hwf. unfold in_flight in Hf.
  assert (Hem := eq_refl (emitted_so_far t)).
  unfold emitted_so_far at 2 in Hem.
  destruct (stage t) as [| tr | tr | tr an c | sid tr an |] eqn:Est;
    try done; rewrite Hem; clear Hem.
  - destruct (transcribe_outcome (remote t)) eqn:E1.
    + eexists _, _. unfold suspend, emit, stage_wf, tagged. crush.
    + eexists _, _.
      unfold throw, handler_catch, finally_block, suspend, emit, tagged.
      crush. unfold settled_names. by rewrite E1.
  - destruct Hwf as [x Hx]. destruct (user_lookup (remote t)) as [[] |] eqn:E2.
    + exists (AwaitAnalysis tr), []. unfold suspend, stage_wf, tagged.
      simpl. rewrite app_nil_r. crush.
    + eexists _, _.
      unfold throw, handler_catch, finally_block, suspend, emit, tagged.
      crush. unfold settled_names. by rewrite Hx, E2.
  - destruct Hwf as [[x Hx] Hu]. unfold processMultimodalInput.
    destruct (analysis_outcome (remote t)) as [raw |] eqn:E3;
      cbv beta iota.
    + set (st1 := emit _ _ _ _). set (an := formatAnalysisResponse raw).
      assert (Hl1 : exists e, log st1 = log st ++ [e] /\ tagged tid t [e]
                              /\ event_name (ev e) = "predictions_ready")
        by (eexists; unfold tagged; crush).
      destruct Hl1 as (e1 & Hl1 & Ht1 & Hn1).
      assert (Hq1 : processingQueue st1 = processingQueue st) by done.
      assert (Htu1 : turns st1 = turns st) by done.
      assert (Hso1 : sockets st1 = sockets st) by done.
      clearbody st1.
      assert (Hv : (exists c, visualAidSuggested an = true
                              /\ visualConcept an = Some c)
                   \/ (visual_names (remote t) an = []
                       /\ match visualAidSuggested an, visualConcept an with
                          | true, Some c =>
                              suspend tid t (AwaitVisualAid tr an c) st1
                          | _, _ => audio_hint_and_session tid t tr an st1
                          end = audio_hint_and_session tid t tr an st1)).
      { unfold visual_names. destruct (visualAidSuggested an);
          [destruct (visualConcept an) |]; eauto. }
      destruct Hv as [(c & Ev & Ec) | [Hv ->]].
      * rewrite Ev, Ec. exists (AwaitVisualAid tr an c), [e1].
        unfold suspend, stage_wf, names. simpl. rewrite Htu1, Hn1. crush.
      * destruct (audio_hint_and_session_spec tid t tr an st1)
          as (s' & new & Htu & Hl & Htag & Hcase).
        exists s', (e1 :: new). rewrite Htu, Hl, Hl1, Htu1, <- app_assoc.
        split; [done |]. split; [done |].
        split; [apply Forall_cons; split; [by inversion Ht1 | done] |].
        unfold names. rewrite fmap_cons. simpl. rewrite Hn1.
        destruct Hcase as [(-> & Hn & Hq) | (sid & -> & Hsock & Hn & Hq)];
          simpl; rewrite Hq, Hq1; unfold names in Hn; rewrite Hn.
        -- crush. unfold settled_names. rewrite Hx, Hu, E3. left.
           fold an. by rewrite Hv.
        -- unfold stage_wf, emitted_so_far. crush; [by rewrite Hv |].
           intros ? ? ? [= <- _ _]. by rewrite <- Hso1.
    + eexists _, _.
      unfold throw, handler_catch, finally_block, suspend, emit, tagged.
      crush. unfold settled_names. by rewrite Hx, Hu, E3.
  - destruct Hwf as ([x Hx] & Hu & (raw & E3 & Han) & Ev & Ec).
    set (st1 := match generateVisualAid _ _ _ with
                | Returns _ => _ | Throws _ => _ end).
    assert (H1 : exists new1, log st1 = log st ++ new1 /\ tagged tid t new1
                   /\ names new1 = visual_names (remote t) an
                   /\ processingQueue st1 = processingQueue st
                   /\ turns st1 = turns st /\ sockets st1 = sockets st).
    { unfold st1, generateVisualAid, visual_names, tagged, names.
      rewrite Ev, Ec. destruct (visual_outcome (remote t)).
      - eexists. crush.
      - exists []. rewrite app_nil_r. crush. }
    destruct H1 as (new1 & Hl1 & Ht1 & Hn1 & Hq1 & Htu1 & Hso1).
    clearbody st1.
    destruct (audio_hint_and_session_spec tid t tr an st1)
      as (s' & new & Htu & Hl & Htag & Hcase).
    exists s', (new1 ++ new). rewrite Htu, Hl, Hl1, Htu1, <- app_assoc.
    split; [done |]. split; [done |].
    split; [by apply Forall_app |].
    unfold names in *. rewrite fmap_app, Hn1.
    destruct Hcase as [(-> & Hn & Hq) | (sid & -> & Hsock & Hn & Hq)];
      simpl; rewrite Hq, Hq1, Hn.
    + crush. unfold settled_names. rewrite Hx, Hu, E3. left.
      rewrite <- Han. by rewrite <- !app_assoc.
    + unfold stage_wf, emitted_so_far. crush.
      intros ? ? ? [= <- _ _]. by rewrite <- Hso1.
  - destruct Hwf as ([x Hx] & Hu & (raw & E3 & Han)).
    destruct (Hs _ _ _ eq_refl) as [row Hrow].
    assert (Hbody : emitted_so_far t
                    = ["processing_started"; "transcription_ready";
                       "predictions_ready"]
                      ++ visual_names (remote t) an ++ audio_names an).
    { unfold emitted_so_far. by rewrite Est. }
    destruct (session_write (remote t)) as [[] | m] eqn:E5.
    + unfold updateSessionData, update. rewrite Hrow.
      eexists _, _. unfold finally_block, suspend, emit, tagged. crush.
      unfold settled_names. rewrite Hx, Hu, E3. left. rewrite <- Han.
      by rewrite <- !app_assoc.
    + eexists _, _.
      unfold throw, handler_catch, finally_block, suspend, emit, tagged.
      crush. unfold settled_names. rewrite Hx, Hu, E3. right.
      split; [eauto |]. rewrite <- Han. by rewrite <- !app_assoc.
Qed.

(** What a step of a turn leaves alone. *)
Lemma resume_frame (tid : nat) (st : State) :
  nextTurn (resume tid st) = nextTurn st
  /\ sockets (resume tid st) = sockets st
  /\ nextSession (resume tid st) = nextSession st
  /\ activeConnections (resume tid st) = activeConnections st
  /\ clock (resume tid st) = clock st.
Proof.
  unfold resume, throw, handler_catch, audio_hint_and_session,
    finally_block, suspend, emit.
  repeat case_match; done.
Qed.

Lemma update_dom (sid : nat) (f : Session -> Session)
    (m m' : gmap nat Session) (k : nat) :
  update sid f m = Some m' -> is_Some (m' !! k) <-> is_Some (m !! k).
Proof.
  unfold update. destruct (m !! sid) as [s |] eqn:E; [| done].
  intros [= <-]. destruct (decide (sid = k)) as [-> | Hne].
  - rewrite lookup_insert_eq, E. split; eauto.
  - by rewrite lookup_insert_ne.
Qed.

Lemma resume_sessions_dom (tid : nat) (st : State) (k : nat) :
  is_Some (sessions (resume tid st) !! k) <-> is_Some (sessions st !! k).
Proof.
  unfold resume, throw, handler_catch, audio_hint_and_session,
    finally_block, suspend, emit, updateSessionData.
  repeat case_match; try done.
  simpl. by eapply update_dom.
Qed.

Lemma names_of_app (tid : nat) (l new : list Emit) :
  names_of tid (l ++ new) = names_of tid l ++ names_of tid new.
Proof. unfold names_of, events_of. by rewrite filter_app, !fmap_app. Qed.

Lemma names_of_tagged (tid : nat) (t : Turn) (new : list Emit) :
  tagged tid t new -> names_of tid new = names new.
Proof.
  unfold names_of, events_of, names.
  induction 1 as [| e new [He _] _ IH]; [done |].
  rewrite filter_cons, decide_True by done.
  rewrite !fmap_cons, IH. done.
Qed.

Lemma names_of_foreign (tid : nat) (new : list Emit) :
  Forall (fun e => by_turn e <> Some tid) new -> names_of tid new = [].
Proof.
  unfold names_of, events_of.
  induction 1 as [| e new He _ IH]; [done |].
  by rewrite filter_cons, decide_False.
Qed.

Lemma names_of_untagged (tid : nat) (new : list Emit) :
  untagged new -> names_of tid new = [].
Proof.
  intros H. apply names_of_foreign. eapply Forall_impl; [exact H |].
  simpl. congruence.
Qed.

Ltac log_grows :=
  first [ by exists []; rewrite app_nil_r; split; [| constructor]
        | by eexists [_]; split; [| repeat constructor] ].

(** A submission is either turned away, and then nothing but the log
    changes, or it starts the turn numbered [nextTurn]. *)
Lemma process_speech_cases (sock : nat) (d : SpeechData) (r : Remote)
    (st : State) :
  let st' := on_process_speech sock d r st in
  sockets st' = sockets st /\ sessions st' = sessions st
  /\ nextSession st' = nextSession st
  /\ ((turns st' = turns st /\ nextTurn st' = nextTurn st
       /\ processingQueue st' = processingQueue st
       /\ exists new, log st' = log st ++ new /\ untagged new)
      \/ (exists s uid,
            sockets st !! sock = Some s /\ s_connected s = true
            /\ s_auth s = Some uid /\ processingQueue st !! uid = None
            /\ turns st'
               = <[nextTurn st := {| socket := sock; userId := uid; data := d;
                                     remote := r; stage := AwaitTranscribe |}]>
                   (turns st)
            /\ nextTurn st' = S (nextTurn st)
            /\ processingQueue st' = <[uid := true]> (processingQueue st)
            /\ log st'
               = log st ++ [{| to := sock; by_turn := Some (nextTurn st);
                               ev := processing_started (timestamp d) |}])).
Proof.
  unfold on_process_speech, with_socket, processSpeechInput, emit.
  destruct (sockets st !! sock) as [s |] eqn:Es; simpl;
    [| repeat split; try done; left; repeat split; try done; log_grows].
  destruct (s_connected s) eqn:Ec; simpl;
    [| repeat split; try done; left; repeat split; try done; log_grows].
  destruct (s_auth s) as [uid |] eqn:Ea; simpl;
    [| repeat split; try done; left; repeat split; try done; log_grows].
  case_decide as Hq; simpl;
    [repeat split; try done; left; repeat split; try done; log_grows |].
  repeat split; try done. right. exists s, uid. repeat split; try done.
  by apply eq_None_not_Some.
Qed.

(** The handlers other than [process_speech] and the continuation of a
    turn touch neither the turns nor their events. *)
Lemma step_other_frame (a : Action) (st : State) :
  match a with
  | Resume _ | ProcessSpeech _ _ _ => True
  | _ =>
      turns (step a st) = turns st /\ nextTurn (step a st) = nextTurn st
      /\ (is_disconnect a = false ->
          processingQueue (step a st) = processingQueue st)
      /\ exists new, log (step a st) = log st ++ new /\ untagged new
  end.
Proof.
  destruct a; try done; simpl;
    unfold handleConnection, on_authenticate, on_start_session,
      on_end_session, on_feedback, handleDisconnection,
      on_process_speech_without_data, with_socket, startNewSession, emit;
    repeat case_match; simpl; repeat split; try done; log_grows.
Qed.

Lemma endSession_dom (sid : nat) (db progress : Result unit) (now : Z)
    (m : gmap nat Session) (k : nat) :
  is_Some ((endSession sid db progress now m).1.2 !! k) <-> is_Some (m !! k).
Proof.
  unfold endSession, findUnique.
  destruct db; [| done]. destruct (m !! sid) eqn:E; [| done].
  destruct (update sid _ m) eqn:U; [| done].
  destruct progress; simpl; by eapply update_dom.
Qed.

Lemma processFeedback_dom (uid : string) (fb : Feedback) (db : Result unit)
    (m : gmap nat Session) (k : nat) :
  is_Some ((processFeedback uid fb db m).2 !! k) <-> is_Some (m !! k).
Proof.
  unfold processFeedback, findUnique.
  destruct (fb_sessionId fb); [| done]. destruct db; [| done].
  destruct (m !! n) eqn:E; [| done].
  destruct (update n _ m) eqn:U; [| done]. simpl. by eapply update_dom.
Qed.

Lemma sessions_exist_intro (st st' : State) :
  (forall k, is_Some (sessions st !! k) -> is_Some (sessions st' !! k)) ->
  turns st' = turns st ->
  (forall sock s sid,
      sockets st' !! sock = Some s -> s_sessionId s = Some sid ->
      is_Some (sessions st' !! sid)) ->
  (forall sid, is_Some (sessions st' !! sid) -> (sid < nextSession st')%nat) ->
  sessions_exist st -> sessions_exist st'.
Proof.
  intros Hmono Ht Hsock Hnext (H1 & H2 & H3). repeat split; [done | | done].
  intros tid t sid tr an Htid Hst. rewrite Ht in Htid. eauto.
Qed.

Lemma step_other_sessions_exist (a : Action) (st : State) :
  match a with
  | Resume _ | ProcessSpeech _ _ _ => True
  | _ => sessions_exist st -> sessions_exist (step a st)
  end.
Proof.
  destruct a as [sock | sock decoded | | | sock db | sock db pr
                | sock fb db | sock | | ms | sock msg];
    try done; intros Hse;
    pose proof Hse as (H1 & H2 & H3).
  - simpl. unfold handleConnection.
    destruct (sockets st !! sock) as [s0 |] eqn:E; [done |].
    apply (sessions_exist_intro st); try done. simpl.
    intros sock' x sid. destruct (decide (sock = sock')) as [-> | Hne].
    + rewrite lookup_insert_eq. by intros [= <-].
    + rewrite lookup_insert_ne by done. eauto.
  - simpl. unfold on_authenticate, with_socket.
    destruct (sockets st !! sock) as [s0|] eqn:E; [| done].
    destruct (s_connected s0); [| done]. destruct decoded; [| done].
    apply (sessions_exist_intro st); try done. simpl.
    intros sock' x sid. destruct (decide (sock = sock')) as [-> | Hne].
    + rewrite lookup_insert_eq. intros [= <-]. simpl. eauto.
    + rewrite lookup_insert_ne by done. eauto.
  - simpl. unfold on_start_session, with_socket.
    destruct (sockets st !! sock) as [s0|] eqn:E; [| done].
    destruct (s_connected s0); [| done]. destruct (s_auth s0); [| done].
    destruct db; [| done].
    apply (sessions_exist_intro st); simpl; try done.
    + intros k Hk. rewrite lookup_insert_ne; [done |]. apply H3 in Hk. lia.
    + intros sock' x sid. destruct (decide (sock = sock')) as [-> | Hne].
      * rewrite lookup_insert_eq. intros [= <-]. simpl. intros [= <-].
        rewrite lookup_insert_eq. eauto.
      * rewrite lookup_insert_ne by done. intros Hs Hsid.
        pose proof (H1 _ _ _ Hs Hsid) as Hk.
        rewrite lookup_insert_ne; [done |]. apply H3 in Hk. lia.
    + intros sid.
      destruct (decide (nextSession st = sid)) as [<- | Hne]; [lia |].
      rewrite lookup_insert_ne by done. intros Hk%H3. lia.
  - simpl. unfold on_end_session, with_socket.
    destruct (sockets st !! sock) as [s0|] eqn:E; [| done].
    destruct (s_connected s0); [| done]. destruct (s_auth s0); [| done].
    destruct (s_sessionId s0) as [sid0 |] eqn:Esid; [| done].
    pose proof (endSession_dom sid0 db pr (clock st) (sessions st)) as Hdom.
    destruct (endSession sid0 db pr (clock st) (sessions st))
      as [[[[] | m] ss] calls];
      simpl in Hdom.
    + apply (sessions_exist_intro st); simpl; try done.
      * intros k. by rewrite Hdom.
      * intros sock' x sid. destruct (decide (sock = sock')) as [-> | Hne].
        -- rewrite lookup_insert_eq. by intros [= <-].
        -- rewrite lookup_insert_ne by done. intros Hs Hsid.
           rewrite Hdom. eauto.
      * intros sid. rewrite Hdom. apply H3.
    + apply (sessions_exist_intro st); simpl; try done.
      * intros k. by rewrite Hdom.
      * intros sock' x sid Hs Hsid. rewrite Hdom. eauto.
      * intros sid. rewrite Hdom. apply H3.
  - simpl. unfold on_feedback, with_socket.
    destruct (sockets st !! sock) as [s0|] eqn:E; [| done].
    destruct (s_connected s0); [| done].
    destruct (s_auth s0) as [uid |]; [| done].
    pose proof (processFeedback_dom uid fb db (sessions st)) as Hdom.
    apply (sessions_exist_intro st); simpl; try done.
    + intros k. by rewrite Hdom.
    + intros sock' x sid Hs Hsid. rewrite Hdom. eauto.
    + intros sid. rewrite Hdom. apply H3.
  - simpl. unfold handleDisconnection, with_socket.
    destruct (sockets st !! sock) as [s0|] eqn:E; [| done].
    destruct (s_connected s0); [| done].
    apply (sessions_exist_intro st); simpl.
    + by repeat case_match.
    + by repeat case_match.
    + intros sock' x sid. destruct (decide (sock = sock')) as [-> | Hne].
      * rewrite lookup_insert_eq. intros [= <-]. simpl. 
        intros Hsid. repeat case_match; simpl; eauto.
      * rewrite lookup_insert_ne by done. repeat case_match; simpl; eauto.
    + repeat case_match; simpl; eauto.
    + done.
  - simpl. unfold on_process_speech_without_data, with_socket, emit.
    repeat case_match; try done; by apply (sessions_exist_intro st).
Qed.

Lemma consistent_frame (st st' : State) :
  turns st' = turns st -> nextTurn st' = nextTurn st ->
  (exists new, log st' = log st ++ new /\ untagged new) ->
  sessions_exist st' ->
  consistent st -> consistent st'.
Proof.
  intros Ht Hn (new & Hl & Hnew) Hse ([N1 N2] & _ & Hok).
  split; [split |]; [| | split; [done |]].
  - intros tid. rewrite Ht, Hn. apply N1.
  - intros e tid. rewrite Hl, Hn, elem_of_app. intros [He | He] Hby; [eauto |].
    unfold untagged in Hnew. rewrite Forall_forall in Hnew.
    apply Hnew in He. congruence.
  - intros tid t. rewrite Ht. intros Htid.
    destruct (Hok _ _ Htid) as [Hwf Hnames]. split; [done |].
    unfold turn_ok.
    by rewrite Hl, names_of_app, (names_of_untagged _ new), app_nil_r.
Qed.

Lemma names_of_fresh (tid : nat) (l : list Emit) :
  (forall e, e ∈ l -> by_turn e <> Some tid) -> names_of tid l = [].
Proof. intros H. apply names_of_foreign. by apply Forall_forall. Qed.

Lemma step_consistent (a : Action) (st : State) :
  consistent st -> consistent (step a st).
Proof.
  intros Hc.
  pose proof Hc as ([N1 N2] & (S1 & S2 & S3) & Hok).
  destruct a as [sock | sock decoded | sock d r | tid | sock db | sock db pr
                | sock fb db | sock | | ms | sock msg].
  4: {
    simpl. destruct (turns st !! tid) as [t |] eqn:Etid;
      [| unfold resume; by rewrite Etid].
    destruct (Hok _ _ Etid) as [Hwf Hnames].
    destruct (in_flight t) eqn:Efl;
      [| unfold resume; rewrite Etid; unfold in_flight in Efl;
         by destruct (stage t)].
    destruct (resume_turn tid st t Etid Efl Hwf
                (fun sid tr an => S2 tid t sid tr an Etid))
      as (s' & new & Htu & Hl & Htag & Hwf' & Hnew & Hsock).
    destruct (resume_frame tid st) as (Fn & Fs & Fns & _ & _).
    split; [split |]; [| | split; [split; [| split] |]].
    - intros k. rewrite Htu, Fn, <- N1. rewrite lookup_insert_is_Some.
      split; [intros [<- | [_ ?]]; eauto |].
      intros ?; destruct (decide (tid = k)); eauto.
    - intros e k. rewrite Hl, Fn, elem_of_app. intros [He | He] Hby; [eauto |].
      unfold tagged in Htag. rewrite Forall_forall in Htag.
      destruct (Htag _ He) as [Hk _]. rewrite Hk in Hby. injection Hby as <-.
      apply N1. eauto.
    - intros sock s sid. rewrite Fs. intros. apply resume_sessions_dom. eauto.
    - intros k t' sid tr an. rewrite Htu. intros Hk Hst.
      apply resume_sessions_dom.
      destruct (decide (tid = k)) as [<- | Hne].
      + rewrite lookup_insert_eq in Hk. injection Hk as <-. simpl in Hst.
        specialize (Hsock _ _ _ Hst).
        destruct (sockets st !! socket t) as [s |] eqn:Es; [| done].
        simpl in Hsock. eauto.
      + rewrite lookup_insert_ne in Hk by done. eauto.
    - intros sid. rewrite resume_sessions_dom, Fns. apply S3.
    - intros k t'. rewrite Htu. intros Hk.
      destruct (decide (tid = k)) as [<- | Hne].
      + rewrite lookup_insert_eq in Hk. injection Hk as <-.
        split; [done |]. rewrite Hl, names_of_app, (names_of_tagged _ _ _ Htag).
        rewrite Hnames.
        destruct (in_flight (set_stage s' t)); [symmetry |]; apply Hnew.
      + rewrite lookup_insert_ne in Hk by done.
        destruct (Hok _ _ Hk) as [Hwfk Hnk]. split; [done |].
        rewrite Hl, names_of_app, (names_of_foreign k new), app_nil_r; [done |].
        eapply Forall_impl; [exact Htag |]. simpl. intros e [He _].
        congruence. }
  3: {
    simpl.
    destruct (process_speech_cases sock d r st)
      as (Fs & Fse & Fns & [(Ft & Fn & _ & Hl) | Hacc]).
    - apply (consistent_frame st); try done.
      repeat split.
      + intros ? ? ?. rewrite Fs, Fse. apply S1.
      + intros ? ? ? ? ?. rewrite Ft, Fse. apply S2.
      + intros ?. rewrite Fse, Fns. apply S3.
    - destruct Hacc as (s & uid & Es & Ec & Ea & Hq & Htu & Hn & _ & Hl).
      assert (Hfresh : turns st !! nextTurn st = None).
      { apply eq_None_not_Some. rewrite N1. lia. }
      split; [split |]; [| | split; [split; [| split] |]].
      + intros k. rewrite Htu, Hn, lookup_insert_is_Some, N1.
        destruct (decide (nextTurn st = k)); [subst |]; split; try lia; eauto.
      + intros e k. rewrite Hl, Hn, elem_of_app, list_elem_of_singleton.
        intros [He | ->] Hby; [apply (N2 _ _ He) in Hby; lia |].
        simpl in Hby. injection Hby as <-. lia.
      + intros ? ? ?. rewrite Fs, Fse. apply S1.
      + intros k t sid tr an. rewrite Htu, Fse.
        destruct (decide (nextTurn st = k)) as [<- | Hne].
        * rewrite lookup_insert_eq. by intros [= <-].
        * rewrite lookup_insert_ne by done. apply S2.
      + intros ?. rewrite Fse, Fns. apply S3.
      + intros k t. unfold turn_ok. rewrite Htu, Hl, names_of_app.
        destruct (decide (nextTurn st = k)) as [<- | Hne].
        * rewrite lookup_insert_eq. intros [= <-]. split; [done |]. simpl.
          rewrite names_of_fresh.
          { unfold names_of, events_of.
            by rewrite filter_cons, decide_True. }
          intros e He Hby. apply (N2 _ _ He) in Hby. lia.
        * rewrite lookup_insert_ne by done. intros Hk.
          destruct (Hok _ _ Hk) as [Hwfk Hnk]. split; [done |].
          rewrite (names_of_foreign k [_]), app_nil_r; [done |].
          repeat constructor. simpl. congruence. }
  all: match goal with
       | |- consistent (step ?a ?s) =>
           pose proof (step_other_frame a s) as Hfr;
           pose proof (step_other_sessions_exist a s) as Hse;
           cbv beta iota in Hfr, Hse;
           destruct Hfr as (Ft & Fn & _ & Hl);
           apply (consistent_frame s); auto;
           apply Hse; repeat split; assumption
       end.
Qed.

Lemma init_consistent : consistent init.
Proof.
  split; [split |]; [| | split; [split; [| split] |]]; simpl.
  - intros tid. rewrite lookup_empty. split; [by intros [? ?] | lia].
  - intros e tid He. by apply elem_of_nil in He.
  - intros sock s sid. by rewrite lookup_empty.
  - intros tid t sid tr an. by rewrite lookup_empty.
  - intros sid. rewrite lookup_empty. by intros [? ?].
  - intros tid t. by rewrite lookup_empty.
Qed.

Lemma exec_consistent (trace : list Action) (st : State) :
  consistent st -> consistent (exec trace st).
Proof.
  revert st. induction trace as [| a trace IH]; intros st H; [done |].
  simpl. by apply IH, step_consistent.
Qed.


Lemma audio_hint_and_session_progress (tid : nat) (t : Turn)
    (tr : TranscriptionResult) (an : Analysis) (st : State) :
  exists s', turns (audio_hint_and_session tid t tr an st) !! tid
             = Some (set_stage s' t)
             /\ (awaits_left s' <= 1)%nat.
Proof.
  unfold audio_hint_and_session, finally_block, suspend, emit.
  repeat case_match; simpl; rewrite lookup_insert_eq; eexists;
    split; try done; simpl; lia.
Qed.

Lemma resume_progress (tid : nat) (st : State) (t : Turn) :
  turns st !! tid = Some t ->
  exists s', turns (resume tid st) !! tid = Some (set_stage s' t)
             /\ (awaits_left s' <= awaits_left (stage t) - 1)%nat.
Proof.
  intros Ht. unfold resume. rewrite Ht.
  destruct (stage t) eqn:Est.
  6: { exists Settled. rewrite Ht. split; [| simpl; lia]. f_equal.
       destruct t. simpl in *. by subst. }
  all: unfold throw, handler_catch, finally_block, suspend, emit,
         updateSessionData.
  all: repeat case_match; simpl.
  all: try (rewrite lookup_insert_eq; eexists; split; [done |]; simpl; lia).
  all: try match goal with
       | |- context [audio_hint_and_session ?a ?b ?c ?d ?e] =>
           destruct (audio_hint_and_session_progress a b c d e)
             as (s' & -> & Hle);
           exists s'; split; [done |]; simpl; lia
       end.
Qed.

Lemma finally_block_spec (tid : nat) (t : Turn) (st : State) :
  turns (finally_block tid t st) !! tid = Some (set_stage Settled t)
  /\ processingQueue (finally_block tid t st) !! userId t = None
  /\ log (finally_block tid t st) = log st ++ [complete_at tid t (clock st)]
  /\ conversationContexts (finally_block tid t st) = conversationContexts st
  /\ sessions (finally_block tid t st) = sessions st.
Proof.
  unfold finally_block, suspend, emit. simpl.
  by rewrite lookup_insert_eq, lookup_delete_eq.
Qed.

Lemma audio_hint_and_session_settling (tid : nat) (t : Turn)
    (tr : TranscriptionResult) (an : Analysis) (st : State) (t' : Turn) :
  turns (audio_hint_and_session tid t tr an st) !! tid = Some t' ->
  in_flight t' = false ->
  processingQueue (audio_hint_and_session tid t tr an st) !! userId t = None
  /\ complete_at tid t (clock st)
     ∈ log (audio_hint_and_session tid t tr an st).
Proof.
  unfold audio_hint_and_session, finally_block, suspend, emit, complete_at.
  repeat case_match; simpl; rewrite lookup_insert_eq; intros [= <-]; try done;
    intros _; rewrite lookup_delete_eq; split; try done;
    rewrite !elem_of_app, !list_elem_of_singleton; auto.
Qed.

Lemma resume_settling (tid : nat) (st : State) (t t' : Turn) :
  turns st !! tid = Some t -> in_flight t = true ->
  turns (resume tid st) !! tid = Some t' -> in_flight t' = false ->
  processingQueue (resume tid st) !! userId t = None
  /\ complete_at tid t (clock st) ∈ log (resume tid st).
Proof.
  intros Ht Hf. unfold resume. rewrite Ht. unfold in_flight in Hf.
  destruct (stage t) eqn:Est; try done.
  all: unfold throw, handler_catch, updateSessionData.
  all: repeat case_match.
  all: try match goal with
       | |- context [audio_hint_and_session ?a ?b ?c ?d ?e] =>
           let Hx := fresh in
           let Hy := fresh in
           intros Hx Hy;
           exact (audio_hint_and_session_settling a b c d e _ Hx Hy)
       end.
  all: try (unfold finally_block, suspend, emit, complete_at; simpl;
            rewrite lookup_insert_eq; intros [= <-]; try done; intros _;
            rewrite lookup_delete_eq; split; try done;
            rewrite !elem_of_app, !list_elem_of_singleton; auto).
Qed.

Lemma resume_replicate (n : nat) (tid : nat) (st : State) (t : Turn) :
  turns st !! tid = Some t -> (awaits_left (stage t) <= n)%nat ->
  exists t', turns (exec (replicate n (Resume tid)) st) !! tid = Some t'
             /\ in_flight t' = false.
Proof.
  revert st t. induction n as [| n IH]; intros st t Ht Hn.
  - exists t. split; [done |]. unfold in_flight.
    destruct (stage t); simpl in Hn; try lia.
  - simpl. destruct (resume_progress tid st t Ht) as (s' & Ht' & Hle).
    apply (IH _ _ Ht'). simpl. lia.
Qed.

Lemma emitted_so_far_no_complete (t : Turn) :
  filter (fun n => n = "processing_complete") (emitted_so_far t) = [].
Proof.
  unfold emitted_so_far, visual_names, audio_names.
  repeat case_match; reflexivity.
Qed.

Lemma settled_names_one_complete (r : Remote) (l : list string) :
  settled_names r l ->
  length (filter (fun n => n = "processing_complete") l) = 1%nat.
Proof.
  unfold settled_names, visual_names, audio_names.
  repeat case_match; intros Hl; destruct_or?; destruct_and?; subst;
    reflexivity.
Qed.

Lemma exec_app (tr1 tr2 : list Action) (st : State) :
  exec (tr1 ++ tr2) st = exec tr2 (exec tr1 st).
Proof. apply fold_left_app. Qed.

Lemma count_complete (trace : list Action) (tid : nat) (t : Turn) :
  turns (exec trace init) !! tid = Some t ->
  count_event "processing_complete" tid (log (exec trace init))
  = if in_flight t then 0%nat else 1%nat.
Proof.
  intros Ht.
  destruct (exec_consistent trace init init_consistent) as (_ & _ & Hok).
  destruct (Hok _ _ Ht) as [_ Hn]. unfold count_event.
  destruct (in_flight t).
  - by rewrite Hn, emitted_so_far_no_complete.
  - by eapply settled_names_one_complete.
Qed.

(** C2. For every turn that passed the busy check, in every state the
    service reaches: [processing_complete] has been emitted for the turn
    not at all while it is in flight and exactly once when it has
    settled; whatever the outcomes of its remote calls, five
    continuations at most settle it; and the continuation that settles
    it emits [processing_complete] with the time of that moment and
    leaves the flag of its user deleted. *)
Theorem C2_processing_complete_exactly_once (trace : list Action) (tid : nat)
    (t : Turn) :
  let st := exec trace init in
  turns st !! tid = Some t ->
  count_event "processing_complete" tid (log st)
  = (if in_flight t then 0%nat else 1%nat)
  /\ (let st5 := exec (replicate 5 (Resume tid)) st in
      (exists t', turns st5 !! tid = Some t' /\ in_flight t' = false)
      /\ count_event "processing_complete" tid (log st5) = 1%nat)
  /\ (in_flight t = true ->
      forall t', turns (resume tid st) !! tid = Some t' ->
                 in_flight t' = false ->
                 processingQueue (resume tid st) !! userId t = None
                 /\ complete_at tid t (clock st) ∈ log (resume tid st)).
Proof.
  intros st Ht. split; [by apply count_complete |]. split.
  - destruct (resume_replicate 5 tid st t Ht) as (t' & Ht' & Hf').
    { destruct (stage t); simpl; lia. }
    split; [eauto |].
    unfold st in *. rewrite <- exec_app in Ht' |- *.
    by rewrite (count_complete _ _ _ Ht'), Hf'.
  - intros Hf t' Ht' Hf'. by eapply resume_settling.
Qed.

Lemma events_of_app (tid : nat) (l new : list Emit) :
  events_of tid (l ++ new) = events_of tid l ++ events_of tid new.
Proof. unfold events_of. by rewrite filter_app, fmap_app. Qed.

Lemma events_of_tagged (tid : nat) (t : Turn) (new : list Emit) :
  tagged tid t new -> events_of tid new = ev <$> new.
Proof.
  unfold events_of. induction 1 as [| e new [He _] _ IH]; [done |].
  rewrite filter_cons, decide_True by done. by rewrite !fmap_cons, IH.
Qed.

Lemma throw_spec (tid : nat) (t : Turn) (message : string) (st : State) :
  throw tid t message st = handler_catch tid t message (finally_block tid t st)
  /\ turns (throw tid t message st) !! tid = Some (set_stage Settled t)
  /\ processingQueue (throw tid t message st) !! userId t = None
  /\ log (throw tid t message st)
     = log st ++ [complete_at tid t (clock st); error_at tid t message]
  /\ conversationContexts (throw tid t message st) = conversationContexts st
  /\ sessions (throw tid t message st) = sessions st.
Proof.
  unfold throw, handler_catch, finally_block, suspend, emit. simpl.
  by rewrite lookup_insert_eq, lookup_delete_eq, <- app_assoc.
Qed.

(** C3. A turn whose transcription fails awaits the transcription with
    [processing_started] as its only event; its continuation settles it,
    emitting [processing_complete] and then [processing_error], leaves
    the conversation contexts as they are and the flag of the user
    deleted; once settled its events are [processing_started],
    [processing_complete], [processing_error] and no others. *)
Theorem C3_transcription_failure (trace : list Action) (tid : nat) (t : Turn)
    (m : string) :
  let st := exec trace init in
  turns st !! tid = Some t ->
  transcribe_outcome (remote t) = Throws m ->
  if in_flight t then
    stage t = AwaitTranscribe
    /\ names_of tid (log st) = ["processing_started"]
    /\ let st' := resume tid st in
       turns st' !! tid = Some (set_stage Settled t)
       /\ events_of tid (log st')
          = events_of tid (log st)
            ++ [processing_complete (clock st);
                processing_error ("Speech transcription failed: " ++ m)]
       /\ conversationContexts st' = conversationContexts st
       /\ processingQueue st' !! userId t = None
  else
    names_of tid (log st)
    = ["processing_started"; "processing_complete"; "processing_error"].
Proof.
  intros st Ht Hm.
  destruct (exec_consistent trace init init_consistent) as (_ & _ & Hok).
  destruct (Hok _ _ Ht) as [Hwf Hn]. fold st in Hn.
  destruct (in_flight t) eqn:Hf.
  - assert (Est : stage t = AwaitTranscribe).
    { unfold stage_wf in Hwf. unfold in_flight in Hf.
      destruct (stage t); try done; destruct_and?;
        match goal with H : exists _, _ |- _ => destruct H; congruence end. }
    split; [done |].
    split; [rewrite Hn; unfold emitted_so_far; by rewrite Est |].
    unfold resume. rewrite Ht, Est, Hm. cbn [transcribeAudio].
    destruct (throw_spec tid t ("Speech transcription failed: " ++ m) st)
      as (_ & -> & -> & -> & -> & _).
    repeat split. rewrite events_of_app. f_equal.
    by rewrite (events_of_tagged tid t) by (repeat constructor).
  - unfold settled_names in Hn. by rewrite Hm in Hn.
Qed.

(** C4. A turn whose transcription, profile lookup and analysis succeed
    and whose analysis suggests a visual aid with a concept. At every
    [await] the turn has already emitted the events of the stages
    behind it. Once settled its events are [processing_started],
    [transcription_ready], [predictions_ready], then
    [visual_aid_ready] if the generation succeeded, then
    [audio_hint_ready] if the analysis suggests a hint, then
    [processing_complete], followed by [processing_error] only if the
    session write failed. With a generated visual aid the five events
    of the scenario occur once each, in their order; with a failed
    generation there is no [visual_aid_ready], and [predictions_ready]
    and [processing_complete] are there. *)
Theorem C4_event_order (trace : list Action) (tid : nat) (t : Turn)
    (x : RawTranscription) (raw : RawAnalysis) (c : string) :
  let st := exec trace init in
  let an := formatAnalysisResponse raw in
  let visual :=
    match visual_outcome (remote t) with
    | Returns _ => ["visual_aid_ready"]
    | Throws _ => []
    end in
  let body :=
    ["processing_started"; "transcription_ready"; "predictions_ready"]
    ++ visual ++ audio_names an in
  turns st !! tid = Some t ->
  transcribe_outcome (remote t) = Returns x ->
  user_lookup (remote t) = Returns tt ->
  analysis_outcome (remote t) = Returns raw ->
  visualAidSuggested an = true ->
  visualConcept an = Some c ->
  match stage t with
  | AwaitTranscribe => names_of tid (log st) = ["processing_started"]
  | AwaitUser _ | AwaitAnalysis _ =>
      names_of tid (log st) = ["processing_started"; "transcription_ready"]
  | AwaitVisualAid _ _ _ =>
      names_of tid (log st)
      = ["processing_started"; "transcription_ready"; "predictions_ready"]
  | AwaitSessionUpdate _ _ _ => names_of tid (log st) = body
  | Settled =>
      (names_of tid (log st) = body ++ ["processing_complete"]
       \/ ((exists m, session_write (remote t) = Throws m)
           /\ names_of tid (log st)
              = body ++ ["processing_complete"; "processing_error"]))
      /\ match visual_outcome (remote t) with
         | Returns _ =>
             filter (fun n => n ∈ five) (names_of tid (log st)) = five
         | Throws _ =>
             ("visual_aid_ready" ∉ names_of tid (log st))
             /\ ("predictions_ready" ∈ names_of tid (log st))
             /\ ("processing_complete" ∈ names_of tid (log st))
         end
  end.
Proof.
  intros st an visual body Ht Hx Hu Hraw Ev Ec.
  destruct (exec_consistent trace init init_consistent) as (_ & _ & Hok).
  destruct (Hok _ _ Ht) as [Hwf Hn]. fold st in Hn.
  assert (Hvis : visual_names (remote t) an = visual).
  { unfold visual_names, visual. by rewrite Ev, Ec. }
  unfold in_flight in Hn. unfold stage_wf in Hwf.
  destruct (stage t) as [| tr | tr | tr an' c' | sid tr an' |] eqn:Est;
    try (rewrite Hn; unfold emitted_so_far; by rewrite Est).
  - destruct Hwf as (_ & _ & (raw' & Hraw' & ->)).
    rewrite Hn. unfold emitted_so_far. rewrite Est.
    rewrite Hraw in Hraw'. injection Hraw' as <-. fold an. by rewrite Hvis.
  - unfold settled_names in Hn. rewrite Hx, Hu, Hraw in Hn. fold an in Hn.
    rewrite Hvis in Hn. fold body in Hn. split; [exact Hn |].
    unfold body, visual, audio_names in *.
    destruct (visual_outcome (remote t));
      destruct (audioHintSuggested an); try destruct (audioHintText an);
      destruct Hn as [-> | [_ ->]]; simpl; try reflexivity;
      repeat split; compute_done.
Qed.

Lemma settled_names_error_last (r : Remote) (l : list string) :
  settled_names r l ->
  "processing_error" ∈ l ->
  exists pre,
    l = pre ++ ["processing_complete"; "processing_error"]
    /\ ("processing_complete" ∉ pre) /\ ("processing_error" ∉ pre).
Proof.
  unfold settled_names, visual_names, audio_names.
  repeat case_match; intros Hl; destruct_or?; destruct_and?; subst;
    intros Hin; try (exfalso; revert Hin; compute_done).
  all: match goal with
       | |- exists pre, ?l = _ /\ _ => exists (take (length l - 2) l)
       end; repeat split; compute_done.
Qed.

Lemma emitted_so_far_no_error (t : Turn) :
  "processing_error" ∉ emitted_so_far t.
Proof.
  unfold emitted_so_far, visual_names, audio_names.
  repeat case_match; compute_done.
Qed.


Lemma process_speech_accepts (sock : nat) (s : Socket) (uid : string)
    (d : SpeechData) (r : Remote) (st : State) :
  sockets st !! sock = Some s -> s_connected s = true ->
  s_auth s = Some uid -> processingQueue st !! uid = None ->
  accepts sock uid d r st.
Proof.
  intros Hs Hc Ha Hq.
  unfold accepts, on_process_speech, with_socket, processSpeechInput.
  rewrite Hs, Hc, Ha, Hq. rewrite decide_False by (by intros [? ?]). done.
Qed.


(** C10. If a turn has emitted [processing_error], the turn has settled
    and [processing_complete] and [processing_error] are its last two
    events, in this order, each once; a settled turn whose
    transcription, profile lookup or analysis threw has emitted it. An
    error thrown in a turn runs the [finally] block and then the
    handler's [catch]: after the first the flag of the user is deleted
    and [processing_complete] is emitted, the second only adds
    [processing_error]; a submission of the same user is accepted in
    the state between the two as well as after both. *)
Theorem C10_complete_precedes_error (trace : list Action) (tid : nat)
    (t : Turn) :
  let st := exec trace init in
  turns st !! tid = Some t ->
  ("processing_error" ∈ names_of tid (log st) ->
   in_flight t = false
   /\ exists pre,
        names_of tid (log st)
        = pre ++ ["processing_complete"; "processing_error"]
        /\ ("processing_complete" ∉ pre) /\ ("processing_error" ∉ pre))
  /\ (in_flight t = false ->
      (exists m, transcribe_outcome (remote t) = Throws m)
      \/ (exists m, user_lookup (remote t) = Throws m)
      \/ (exists m, analysis_outcome (remote t) = Throws m) ->
      "processing_error" ∈ names_of tid (log st))
  /\ forall message,
       let st1 := finally_block tid t st in
       let st2 := throw tid t message st in
       st2 = handler_catch tid t message st1
       /\ log st1 = log st ++ [complete_at tid t (clock st)]
       /\ log st2 = log st1 ++ [error_at tid t message]
       /\ processingQueue st1 !! userId t = None
       /\ processingQueue st2 !! userId t = None
       /\ forall sock s d r,
            sockets st !! sock = Some s -> s_connected s = true ->
            s_auth s = Some (userId t) ->
            accepts sock (userId t) d r st1
            /\ accepts sock (userId t) d r st2.
Proof.
  intros st Ht.
  destruct (exec_consistent trace init init_consistent) as (_ & _ & Hok).
  destruct (Hok _ _ Ht) as [Hwf Hn]. fold st in Hn.
  split; [| split].
  - intros Hin. destruct (in_flight t).
    + rewrite Hn in Hin. by apply emitted_so_far_no_error in Hin.
    + split; [done |]. by eapply settled_names_error_last.
  - intros Hf Hthrow. rewrite Hf in Hn. revert Hn Hthrow.
    unfold settled_names.
    destruct (transcribe_outcome (remote t));
      [destruct (user_lookup (remote t));
       [destruct (analysis_outcome (remote t)) |] |];
      intros Hn Hthrow; try (rewrite Hn; compute_done).
    destruct Hthrow as [[? ?] | [[? ?] | [? ?]]]; done.
  - intros message st1 st2.
    destruct (finally_block_spec tid t st) as (_ & Hq1 & Hl1 & _ & _).
    destruct (throw_spec tid t message st) as (E2 & _ & Hq2 & Hl2 & _ & _).
    fold st1 in Hq1, Hl1, E2. fold st2 in Hq2, Hl2, E2.
    split; [exact E2 |]. split; [exact Hl1 |].
    split; [by rewrite Hl2, Hl1, <- app_assoc |].
    split; [exact Hq1 |]. split; [exact Hq2 |].
    intros sock s d r Hs Hc Ha. split.
    + exact (process_speech_accepts sock s _ d r st1 Hs Hc Ha Hq1).
    + exact (process_speech_accepts sock s _ d r st2 Hs Hc Ha Hq2).
Qed.












(** A step of a turn leaves the contexts alone or appends one entry. *)
Lemma resume_contexts (tid : nat) (st : State) :
  conversationContexts (resume tid st) = conversationContexts st
  \/ exists u e,
       conversationContexts (resume tid st)
       = updateConversationContext u e (conversationContexts st).
Proof.
  unfold resume, processMultimodalInput, throw, handler_catch,
    audio_hint_and_session, finally_block, suspend, emit.
  repeat case_match; simplify_eq; simpl; eauto.
Qed.

Lemma step_contexts_bounded (a : Action) (st : State) :
  ContextStore.contexts_bounded (conversationContexts st) ->
  ContextStore.contexts_bounded (conversationContexts (step a st)).
Proof.
  intros H. destruct a; simpl.
  4: { destruct (resume_contexts tid st) as [-> | (u & e & ->)]; [done |].
       by apply updateConversationContext_bounded. }
  8: by apply cleanupContextsWith_bounded.
  all: unfold handleConnection, on_authenticate, on_process_speech,
         processSpeechInput, on_start_session, on_end_session, on_feedback,
         handleDisconnection, on_process_speech_without_data, with_socket,
         startNewSession, emit;
       repeat case_match; simpl; done.
Qed.

(** The contexts of the service never hold more than ten entries. *)
Lemma exec_contexts_bounded (trace : list Action) (st : State) :
  ContextStore.contexts_bounded (conversationContexts st) ->
  ContextStore.contexts_bounded (conversationContexts (exec trace st)).
Proof.
  revert st. induction trace as [| a trace IH]; intros st H; [done |].
  simpl. by apply IH, step_contexts_bounded.
Qed.


(** The settled turn of [second_login] has emitted
    [processing_complete] once. *)
Lemma C2_witness :
  turns (exec Scenario.second_login init) !! 0%nat
  = Some Scenario.settled_turn
  /\ count_event "processing_complete" 0
       (log (exec Scenario.second_login init)) = 1%nat.
Proof.
  assert (H : turns (exec Scenario.second_login init) !! 0%nat
              = Some Scenario.settled_turn) by (vm_compute; reflexivity).
  split; [exact H |].
  exact (proj1 (C2_processing_complete_exactly_once _ _ _ H)).
Defined.

(** The events of the turn of [failed_turn]. *)
Lemma C3_witness :
  turns (exec Scenario.failed_turn init) !! 0%nat
  = Some Scenario.settled_failed_turn
  /\ names_of 0 (log (exec Scenario.failed_turn init))
     = ["processing_started"; "processing_complete"; "processing_error"].
Proof.
  assert (H : turns (exec Scenario.failed_turn init) !! 0%nat
              = Some Scenario.settled_failed_turn)
    by (vm_compute; reflexivity).
  split; [exact H |].
  exact (C3_transcription_failure _ _ _ "timeout" H eq_refl).
Defined.

(** The scenario of the specification: the five events in order. *)
Lemma C4_witness :
  turns (exec Scenario.second_login init) !! 0%nat
  = Some Scenario.settled_turn
  /\ filter (fun n => n ∈ five)
       (names_of 0 (log (exec Scenario.second_login init))) = five.
Proof.
  assert (H : turns (exec Scenario.second_login init) !! 0%nat
              = Some Scenario.settled_turn) by (vm_compute; reflexivity).
  split; [exact H |].
  exact (proj2 (C4_event_order _ _ _ Scenario.park_transcription
                  Scenario.park_analysis "park" H eq_refl eq_refl eq_refl
                  eq_refl eq_refl)).
Defined.

(** The failed turn of [failed_turn]: [processing_complete] precedes
    [processing_error]. *)
Lemma C10_witness :
  turns (exec Scenario.failed_turn init) !! 0%nat
  = Some Scenario.settled_failed_turn
  /\ forall message,
       log (throw 0 Scenario.settled_failed_turn message
              (exec Scenario.failed_turn init))
       = log (finally_block 0 Scenario.settled_failed_turn
                (exec Scenario.failed_turn init))
         ++ [error_at 0 Scenario.settled_failed_turn message].
Proof.
  assert (H : turns (exec Scenario.failed_turn init) !! 0%nat
              = Some Scenario.settled_failed_turn)
    by (vm_compute; reflexivity).
  split; [exact H |]. intros message.
  exact (proj1 (proj2 (proj2
           (proj2 (proj2 (C10_complete_precedes_error _ _ _ H))
              message)))).
Defined.

End Pipeline.

(** ** The middleware *)

Section Middleware.

Import Store SpeechRoutes AuthMiddleware.
Import Stdlib.Strings.Ascii.

(** [s.substring(0)] of the whole length is [s]. *)
Lemma substring_all (s : string) : String.substring 0 (String.length s) s = s.
Proof. induction s as [|c s IH]; simpl; [done | by rewrite IH]. Qed.

(** A header that starts with the prefix is the prefix followed by
    what [substring(7)] keeps. *)
Lemma startsWith_Bearer_spec (h : string) :
  startsWith_Bearer h = true <-> h = "Bearer " +:+ substring_7 h.
Proof.
  unfold startsWith_Bearer, substring_7. split.
  - intros H.
    do 7 (destruct h as [|? h]; [discriminate H|];
          simpl in H; case_match; [subst|discriminate H]).
    simpl. rewrite Nat.sub_0_r, substring_all. done.
  - intros H. rewrite H.
    generalize (substring 7 (String.length h - 7) h). by intros [].
Qed.

Lemma substring_7_Bearer (token : string) :
  substring_7 ("Bearer " +:+ token) = token.
Proof. unfold substring_7. simpl. by rewrite Nat.sub_0_r, substring_all. Qed.

(** X1. authMiddleware calls next() exactly when the Authorization
    header is 'Bearer ' followed by a token that jwt.verify decodes, the
    user lookup reaches the database, and it finds a user with the
    decoded id; the user it attaches has that id and no roles. *)
Theorem authMiddleware_next (authorization : option string)
    (verify : string -> Verified) (db_ok : bool) (users : gset string)
    (u : ReqUser) :
  authMiddleware authorization verify db_ok users = Next u <->
  exists token,
    authorization = Some ("Bearer " +:+ token)
    /\ verify token = Decoded (id u) /\ db_ok = true /\ id u ∈ users
    /\ roles u = None.
Proof.
  unfold authMiddleware. split.
  - intros H. destruct authorization as [h|]; [|discriminate H].
    destruct (truthy_str h && startsWith_Bearer h) eqn:Hp;
      [|discriminate H].
    apply andb_true_iff in Hp as [_ Hp%startsWith_Bearer_spec].
    simpl in H. exists (substring_7 h).
    destruct (verify (substring_7 h)) eqn:Hv; try discriminate H.
    destruct db_ok; [|discriminate H]. simpl in H.
    case_decide; [|discriminate H]. injection H as <-. simpl.
    by rewrite <- Hp.
  - intros (token & -> & Hv & -> & Hu & Hr).
    rewrite substring_7_Bearer, Hv.
    replace (startsWith_Bearer ("Bearer " +:+ token)) with true
      by (symmetry; apply startsWith_Bearer_spec;
          by rewrite substring_7_Bearer).
    cbn [truthy_str String.app andb negb].
    rewrite decide_True by done. destruct u; simpl in *; by subst.
Qed.

(** X2. optionalAuthMiddleware always calls next(), and it attaches a
    user exactly when authMiddleware lets the same request pass, the
    same user. *)
Theorem optionalAuthMiddleware_agrees (authorization : option string)
    (verify : string -> Verified) (db_ok : bool) (users : gset string) :
  optionalAuthMiddleware authorization verify db_ok users
  = Next (match authMiddleware authorization verify db_ok users with
          | Next u => Some u
          | Respond _ _ => None
          end).
Proof.
  unfold optionalAuthMiddleware, authMiddleware.
  destruct authorization as [h|]; [|done].
  destruct (negb _); [done|].
  destruct (verify _); try done.
  destruct db_ok; [|done]. simpl. by case_decide.
Qed.

(** X3. requireRole(roles) calls next() exactly when the request has a
    user and one of the required roles is among the roles of the user, a
    user without a roles field counting as ['user']; with the default,
    empty list of required roles it never calls next(). *)
Theorem requireRole_next (roles_required : list string)
    (user : option ReqUser) :
  (requireRole roles_required user = Next tt <->
   exists u role,
     user = Some u /\ role ∈ roles_required
     /\ role ∈ default ["user"] (roles u))
  /\ requireRole [] user <> Next tt.
Proof.
  unfold requireRole. split; [|by destruct user].
  destruct user as [u|]; [|split; [done | by intros (? & ? & ? & _)]].
  destruct (existsb _ _) eqn:He; simpl.
  - split; [intros _|done].
    apply existsb_exists in He as (role & Hr%list_elem_of_In & Hu).
    apply bool_decide_eq_true in Hu. by exists u, role.
  - split; [done|]. intros (u' & role & [= <-] & Hr & Hu).
    assert (existsb
              (fun role => bool_decide (role ∈ default ["user"] (roles u)))
              roles_required = true) as He'; [|congruence].
    apply existsb_exists. exists role.
    split; [by apply list_elem_of_In | by apply bool_decide_eq_true].
Qed.

(** X4. Behind authMiddleware, which attaches users without roles,
    requireRole(roles) lets a request pass exactly when roles contains
    'user'; when authMiddleware does not pass, it answers 401 or 500. *)
Theorem requireRole_after_authMiddleware (roles_required : list string)
    (authorization : option string) (verify : string -> Verified)
    (db_ok : bool) (users : gset string) :
  match authMiddleware authorization verify db_ok users with
  | Next u =>
      requireRole roles_required (Some u) = Next tt
      <-> "user" ∈ roles_required
  | Respond status _ => status = 401%nat \/ status = 500%nat
  end.
Proof.
  destruct (authMiddleware _ _ _ _) as [u|status e] eqn:Ha.
  - apply authMiddleware_next in Ha as (_ & _ & _ & _ & _ & Hr).
    rewrite (proj1 (requireRole_next roles_required (Some u))).
    split.
    + intros (? & role & [= <-] & ? & Hu). rewrite Hr in Hu.
      by apply list_elem_of_singleton in Hu as ->.
    + intros ?. exists u, "user". rewrite Hr.
      split_and!; [done..|]. by apply list_elem_of_singleton.
  - unfold authMiddleware in Ha.
    repeat case_match; simplify_eq; auto.
Qed.

(** The limiter, request by request. *)
Lemma serve_from_cons (mx w : Z) (user : option ReqUser) (now : Z)
    (rest : list (option ReqUser * Z)) (rq : gmap string (list Z)) :
  serve_from mx w ((user, now) :: rest) rq
  = ((userRateLimit mx w user now rq).1
       :: (serve_from mx w rest (userRateLimit mx w user now rq).2).1,
     (serve_from mx w rest (userRateLimit mx w user now rq).2).2).
Proof.
  simpl. destruct (userRateLimit _ _ _ _ _). by destruct (serve_from _ _ _ _).
Qed.

(** The two answers to a request of a user: too many requests in the
    window, or one more entry in the history. *)
Lemma userRateLimit_cases (mx w : Z) (u : ReqUser) (now : Z)
    (rq : gmap string (list Z)) :
  let f := filter (fun ts => now - w < ts) (default [] (rq !! id u)) in
  (mx <= Z.of_nat (length f)
   /\ userRateLimit mx w (Some u) now rq
      = (TooManyRequests
           ((fun first => ceil_div_1000 (first - (now - w))) <$> head f), rq))
  \/ (Z.of_nat (length f) < mx
      /\ userRateLimit mx w (Some u) now rq
         = (Pass, <[id u := f ++ [now]]> rq)).
Proof.
  intros f. unfold userRateLimit. fold f.
  destruct (mx <=? Z.of_nat (length f)) eqn:Hc; [left|right].
  - by apply Z.leb_le in Hc.
  - by apply Z.leb_gt in Hc.
Qed.

(** A request leaves the histories of the other users alone. *)
Lemma userRateLimit_other (mx w : Z) (user : option ReqUser) (now : Z)
    (rq : gmap string (list Z)) (uid : string) :
  (forall u, user = Some u -> id u <> uid) ->
  (userRateLimit mx w user now rq).2 !! uid = rq !! uid.
Proof.
  intros Hu. destruct user as [u|]; [|done].
  destruct (userRateLimit_cases mx w u now rq) as [[_ ->]|[_ ->]]; [done|].
  simpl. rewrite lookup_insert_ne; [done|]. by apply Hu.
Qed.

Lemma in_window_app (w t : Z) (l1 l2 : list Z) :
  in_window w t (l1 ++ l2) = (in_window w t l1 + in_window w t l2)%nat.
Proof. unfold in_window. by rewrite filter_app, length_app. Qed.

(** One request keeps the invariant of the sliding window. *)
Lemma userRateLimit_window_invariant (mx w : Z) (uid : string)
    (user : option ReqUser) (now : Z) (rq : gmap string (list Z))
    (hist : list Z) (lo : Z) :
  window_invariant mx w uid rq hist lo -> lo <= now ->
  window_invariant mx w uid (userRateLimit mx w user now rq).2
    (hist ++ passed uid [(user, now)] [(userRateLimit mx w user now rq).1])
    now.
Proof.
  intros (Ha & Hb & Hc) Hlo.
  assert (forall c, now - w <= c ->
            filter (fun x => c < x) (default [] (rq !! uid))
            = filter (fun x => c < x) hist) as Ha'.
  { intros c Hc'. apply Ha. lia. }
  assert (Forall (fun x => x <= now) hist) as Hc'.
  { eapply Forall_impl; [exact Hc|]. simpl. intros. lia. }
  (* the request leaves the history of [uid] alone *)
  assert ((userRateLimit mx w user now rq).2 !! uid = rq !! uid ->
          passed uid [(user, now)] [(userRateLimit mx w user now rq).1] = [] ->
          window_invariant mx w uid (userRateLimit mx w user now rq).2
            (hist ++ passed uid [(user, now)]
                       [(userRateLimit mx w user now rq).1]) now) as Hskip.
  { intros Hsame ->. rewrite app_nil_r. split_and!; [|done..].
    intros c Hc''. rewrite Hsame. by apply Ha'. }
  destruct user as [u|]; [|by apply Hskip].
  destruct (decide (id u = uid)) as [Hu|Hu]; cycle 1.
  { apply Hskip.
    - apply userRateLimit_other. by intros ? [= <-].
    - cbn [passed]. destruct (userRateLimit _ _ _ _ _).1; [|done].
      by rewrite decide_False. }
  destruct (userRateLimit_cases mx w u now rq) as [[Hf He]|[Hf He]].
  { apply Hskip; rewrite He; done. }
  rewrite He. cbn [fst snd passed]. rewrite decide_True by done.
  split_and!; [| |by apply Forall_app; split; [|apply Forall_singleton]].
  - intros c Hc''. rewrite Hu, lookup_insert_eq.
    cbn [default from_option Datatypes.id].
    rewrite !filter_app. f_equal.
    rewrite list_filter_filter_l by (intros; lia). by apply Ha'.
  - intros t'. rewrite in_window_app.
    destruct (decide (t' - w < now /\ now <= t')) as [Hin|Hout]; cycle 1.
    { replace (in_window w t' [now]) with 0%nat;
        [rewrite Nat.add_0_r; apply Hb|].
      unfold in_window. by rewrite filter_cons_False. }
    replace (in_window w t' [now]) with 1%nat
      by (unfold in_window; by rewrite filter_cons_True).
    assert (in_window w t' hist
            <= length (filter (fun ts => (now - w < ts)%Z)
                         (default [] (rq !! id u))))%nat; [|lia].
    unfold in_window.
    replace (filter (fun x => t' - w < x /\ x <= t') hist)
      with (filter (fun x => t' - w < x) hist); cycle 1.
    { clear -Hc' Hin. induction Hc' as [|x l Hx _ IHl]; [done|].
      rewrite !filter_cons, IHl. repeat case_decide; try done; lia. }
    rewrite <- Ha' by lia. rewrite <- Hu.
    rewrite <- (list_filter_filter_l (fun x => t' - w < x)
                  (fun ts => now - w < ts)) by (intros; lia).
    apply length_filter.
Qed.

Lemma passed_cons (uid : string) (user : option ReqUser) (now : Z)
    (rest : list (option ReqUser * Z)) (v : Limit) (vs : list Limit) :
  passed uid ((user, now) :: rest) (v :: vs)
  = passed uid [(user, now)] [v] ++ passed uid rest vs.
Proof. destruct user as [u|], v; simpl; try done. by case_decide. Qed.

(** The invariant after a first part of the requests, with the clock
    the rest of them starts from. *)
Lemma serve_from_window_invariant (mx w : Z) (uid : string)
    (reqs rest : list (option ReqUser * Z)) :
  forall (rq : gmap string (list Z)) (hist : list Z) (lo : Z),
    window_invariant mx w uid rq hist lo ->
    nondecreasing lo (snd <$> (reqs ++ rest)) ->
    exists lo',
      window_invariant mx w uid (serve_from mx w reqs rq).2
        (hist ++ passed uid reqs (serve_from mx w reqs rq).1) lo'
      /\ nondecreasing lo' (snd <$> rest).
Proof.
  induction reqs as [|[user now] reqs IH]; intros rq hist lo Hinv Hm.
  { exists lo. simpl. by rewrite app_nil_r. }
  rewrite <- app_comm_cons in Hm.
  cbn [fmap list_fmap snd nondecreasing] in Hm. destruct Hm as [Hlo Hm].
  rewrite serve_from_cons. cbn [fst snd]. rewrite passed_cons, app_assoc.
  apply (IH _ _ now); [|done].
  by apply (userRateLimit_window_invariant _ _ _ _ _ _ _ lo).
Qed.

Lemma window_invariant_empty (mx w : Z) (uid : string) (lo : Z) :
  window_invariant mx w uid ∅ [] lo.
Proof.
  split_and!; [done| |done]. intros t. unfold in_window. simpl. lia.
Qed.

(** X5. When Date.now() never goes back, the limiter lets through at
    most max(0, maxRequests) requests of one user in any window (t -
    windowMs, t], whatever the other requests are. *)
Theorem userRateLimit_sliding_window (maxRequests windowMs : Z)
    (reqs : list (option ReqUser * Z)) (lo : Z) (uid : string) (t : Z) :
  nondecreasing lo (snd <$> reqs) ->
  Z.of_nat
    (in_window windowMs t
       (passed uid reqs (serve maxRequests windowMs reqs).1))
  <= Z.max 0 maxRequests.
Proof.
  intros Hm.
  destruct (serve_from_window_invariant maxRequests windowMs uid reqs [] ∅
              [] lo) as (lo' & (_ & Hb & _) & _).
  - apply window_invariant_empty.
  - by rewrite app_nil_r.
  - apply Hb.
Qed.

Lemma serve_from_length (mx w : Z) (reqs : list (option ReqUser * Z)) :
  forall rq : gmap string (list Z),
    length (serve_from mx w reqs rq).1 = length reqs.
Proof.
  induction reqs as [|[user now] rest IH]; intros rq; [done|].
  rewrite serve_from_cons. simpl. by rewrite IH.
Qed.

(** No history grows beyond the limit. *)
Lemma userRateLimit_bounded (mx w : Z) (user : option ReqUser) (now : Z)
    (rq : gmap string (list Z)) :
  (forall uid l, rq !! uid = Some l -> Z.of_nat (length l) <= Z.max 0 mx) ->
  forall uid l,
    (userRateLimit mx w user now rq).2 !! uid = Some l ->
    Z.of_nat (length l) <= Z.max 0 mx.
Proof.
  intros Hrq uid l. destruct user as [u|]; [|apply Hrq].
  destruct (userRateLimit_cases mx w u now rq) as [[_ ->]|[Hf ->]];
    [apply Hrq|].
  simpl. destruct (decide (id u = uid)) as [<-|Hne].
  - rewrite lookup_insert_eq. intros [= <-]. rewrite length_app. simpl. lia.
  - rewrite lookup_insert_ne by done. apply Hrq.
Qed.

Lemma serve_from_bounded (mx w : Z) (reqs : list (option ReqUser * Z)) :
  forall rq : gmap string (list Z),
    (forall uid l, rq !! uid = Some l -> Z.of_nat (length l) <= Z.max 0 mx) ->
    forall uid l,
      (serve_from mx w reqs rq).2 !! uid = Some l ->
      Z.of_nat (length l) <= Z.max 0 mx.
Proof.
  induction reqs as [|[user now] rest IH]; intros rq Hrq; [done|].
  rewrite serve_from_cons. cbn [snd]. apply IH.
  by apply userRateLimit_bounded.
Qed.

Lemma serve_from_app (mx w : Z) (reqs1 reqs2 : list (option ReqUser * Z)) :
  forall rq : gmap string (list Z),
    serve_from mx w (reqs1 ++ reqs2) rq
    = ((serve_from mx w reqs1 rq).1
         ++ (serve_from mx w reqs2 (serve_from mx w reqs1 rq).2).1,
       (serve_from mx w reqs2 (serve_from mx w reqs1 rq).2).2).
Proof.
  induction reqs1 as [|[user now] rest IH]; intros rq.
  { simpl. by destruct (serve_from _ _ _ _). }
  rewrite <- app_comm_cons, !serve_from_cons, IH. done.
Qed.

Lemma serve_from_others (mx w : Z) (uid : string)
    (reqs : list (option ReqUser * Z)) :
  Forall (fun q => forall u, q.1 = Some u -> id u <> uid) reqs ->
  forall rq : gmap string (list Z),
    (serve_from mx w reqs rq).2 !! uid = rq !! uid.
Proof.
  induction 1 as [|[user now] rest Hq _ IH]; intros rq; [done|].
  rewrite serve_from_cons. cbn [snd]. rewrite IH.
  by apply userRateLimit_other.
Qed.

(** X6. When Date.now() never goes back, a request of a user passes
    exactly when fewer than maxRequests earlier requests of that user
    were let through less than windowMs before it; otherwise it is
    answered 429 with retryAfter the seconds, rounded up, until the
    oldest of these leaves the window (NaN when there is none). *)
Theorem userRateLimit_passes_iff (maxRequests windowMs : Z)
    (before after : list (option ReqUser * Z)) (u : ReqUser) (now lo : Z) :
  nondecreasing lo (snd <$> (before ++ (Some u, now) :: after)) ->
  (serve maxRequests windowMs (before ++ (Some u, now) :: after)).1
    !! length before
  = Some
      (if bool_decide
            (Z.of_nat
               (length
                  (filter (fun x => now - windowMs < x)
                     (passed (id u) before
                        (serve maxRequests windowMs before).1)))
             < maxRequests)
       then Pass
       else TooManyRequests
              ((fun first => ceil_div_1000 (first - (now - windowMs)))
                 <$> head (filter (fun x => now - windowMs < x)
                             (passed (id u) before
                                (serve maxRequests windowMs before).1)))).
Proof.
  unfold serve. intros Hm.
  destruct (serve_from_window_invariant maxRequests windowMs (id u) before
              ((Some u, now) :: after) ∅ [] lo
              (window_invariant_empty _ _ _ _) Hm)
    as (lo' & (Ha & _ & _) & Hm').
  cbn [fmap list_fmap snd nondecreasing] in Hm'. destruct Hm' as [Hlo _].
  rewrite serve_from_app. cbn [fst].
  rewrite lookup_app_r by (by rewrite serve_from_length).
  rewrite serve_from_length, Nat.sub_diag, serve_from_cons. cbn [fst lookup].
  simpl in Ha. rewrite <- (Ha (now - windowMs)) by lia.
  set (rq := (serve_from maxRequests windowMs before ∅).2).
  destruct (userRateLimit_cases maxRequests windowMs u now rq)
    as [[Hf ->]|[Hf ->]]; cbn [fst list_lookup].
  - by rewrite bool_decide_eq_false_2 by lia.
  - by rewrite bool_decide_eq_true_2 by lia.
Qed.

Lemma ceil_div_1000_ge (a : Z) : a <= 1000 * ceil_div_1000 a.
Proof.
  unfold ceil_div_1000.
  pose proof (Z.mul_div_le (- a) 1000 ltac:(lia)). lia.
Qed.

(** The answer to a request depends on the history of its user alone. *)
Lemma userRateLimit_answer (mx w : Z) (u : ReqUser) (now : Z)
    (rq rq' : gmap string (list Z)) :
  rq !! id u = rq' !! id u ->
  (userRateLimit mx w (Some u) now rq).1
  = (userRateLimit mx w (Some u) now rq').1.
Proof.
  intros H. unfold userRateLimit. rewrite H. by case_match.
Qed.

(** X7. If a request of a user is answered 429 with retryAfter r, the
    next request of that user, made at least r seconds later, passes,
    whatever other users request in between. *)
Theorem userRateLimit_retry_after (maxRequests windowMs : Z)
    (before between : list (option ReqUser * Z)) (u : ReqUser)
    (now retryAfter now' : Z) :
  Forall (fun q => forall v, q.1 = Some v -> id v <> id u) between ->
  last (serve maxRequests windowMs (before ++ [(Some u, now)])).1
  = Some (TooManyRequests (Some retryAfter)) ->
  now + 1000 * retryAfter <= now' ->
  last (serve maxRequests windowMs
          (before ++ [(Some u, now)] ++ between ++ [(Some u, now')])).1
  = Some Pass.
Proof.
  unfold serve. intros Hbetween Hrej Hlater.
  rewrite serve_from_app, serve_from_cons in Hrej.
  cbn [serve_from fst snd] in Hrej. rewrite last_snoc in Hrej.
  replace (before ++ [(Some u, now)] ++ between ++ [(Some u, now')])
    with ((before ++ [(Some u, now)] ++ between) ++ [(Some u, now')])
    by (by rewrite <- !app_assoc).
  rewrite serve_from_app, serve_from_cons.
  cbn [serve_from fst snd]. rewrite last_snoc. f_equal.
  set (rq := (serve_from maxRequests windowMs before ∅).2) in *.
  assert (forall uid l, rq !! uid = Some l ->
            Z.of_nat (length l) <= Z.max 0 maxRequests) as Hrq.
  { apply serve_from_bounded. intros ? ?. by rewrite lookup_empty. }
  destruct (userRateLimit_cases maxRequests windowMs u now rq)
    as [[Hf He]|[Hf He]]; rewrite He in Hrej; [|discriminate Hrej].
  cbn [fst snd] in Hrej. injection Hrej as Hhead.
  rewrite (userRateLimit_answer _ _ _ _ _ rq); cycle 1.
  { rewrite !serve_from_app. cbn [snd]. rewrite serve_from_others by done.
    rewrite serve_from_cons. cbn [serve_from snd]. fold rq. by rewrite He. }
  destruct (default [] (rq !! id u)) as [|x0 l0] eqn:Hl; [done|].
  destruct (filter _ (x0 :: l0)) as [|x f] eqn:Hfil; [done|].
  simpl in Hhead. injection Hhead as <-.
  pose proof (ceil_div_1000_ge (x - (now - windowMs))) as Hceil.
  assert (now - windowMs < x /\ x ∈ x0 :: l0) as [? Hx].
  { apply (list_elem_of_filter (fun ts => now - windowMs < ts)).
    rewrite Hfil. apply list_elem_of_here. }
  assert (Z.of_nat (length (x0 :: l0)) <= Z.max 0 maxRequests) as Hlen.
  { destruct (rq !! id u) as [l|] eqn:Hlk; [|done]. simpl in Hl. subst l.
    by apply (Hrq (id u)). }
  assert (length (filter (fun ts => (now' - windowMs < ts)%Z) (x0 :: l0))
          < length (x0 :: l0))%nat as Hlt.
  { apply (length_filter_lt _ _ x); [done|]. lia. }
  destruct (userRateLimit_cases maxRequests windowMs u now' rq)
    as [[Hf' He']|[Hf' He']]; rewrite He'; [|done].
  rewrite Hl in Hf'. simpl in Hf. lia.
Qed.

(** X8. With maxRequests <= 0 every request of an authenticated user is
    answered 429 with retryAfter NaN, requests without a user pass, and
    the Map of the limiter stays empty. *)
Theorem userRateLimit_zero_limit (maxRequests windowMs : Z)
    (reqs : list (option ReqUser * Z)) :
  maxRequests <= 0 ->
  serve maxRequests windowMs reqs
  = ((fun q => match q.1 with
               | Some _ => TooManyRequests None
               | None => Pass
               end) <$> reqs, ∅).
Proof.
  intros Hmx. unfold serve.
  induction reqs as [|[user t] rest IH]; [done|].
  assert (userRateLimit maxRequests windowMs user t ∅
          = (match user with
             | Some _ => TooManyRequests None
             | None => Pass
             end, ∅)) as Hstep.
  { destruct user as [v|]; [|done].
    destruct (userRateLimit_cases maxRequests windowMs v t ∅)
      as [[_ ->]|[Hf _]]; [done|].
    rewrite lookup_empty in Hf. simpl in Hf. lia. }
  rewrite serve_from_cons, Hstep. cbn [fst snd]. by rewrite IH.
Qed.

Lemma split_comma_cons (s : string) :
  exists x xs, split_comma s = x :: xs.
Proof.
  destruct s as [|c s]; simpl; [by eauto|].
  destruct (Ascii.eqb c ","%char); [by eauto|].
  destruct (split_comma s); by eauto.
Qed.

(** [split] and [join] on the comma: joining the segments gives the
    string back, no segment holds a comma, and comma-free segments are
    what splitting their join returns. *)
Lemma split_comma_join (s : string) :
  String.concat "," (split_comma s) = s.
Proof.
  induction s as [|c s IH]; [done|]. simpl.
  destruct (split_comma_cons s) as (x & xs & Hs). rewrite Hs in *.
  destruct (Ascii.eqb c ","%char) eqn:Hc.
  - apply Ascii.eqb_eq in Hc as ->.
    change (String.concat "," (EmptyString :: x :: xs))
      with (String ","%char (String.concat "," (x :: xs))).
    by rewrite IH.
  - rewrite <- IH. by destruct xs.
Qed.

Lemma split_comma_segments (s : string) :
  Forall (fun x => includes_comma x = false) (split_comma s).
Proof.
  induction s as [|c s IH]; simpl; [by repeat constructor|].
  destruct (Ascii.eqb c ","%char) eqn:Hc; [by constructor|].
  destruct (split_comma s) as [|x xs];
    [by repeat constructor; simpl; rewrite Hc|].
  apply Forall_cons in IH as [Hx Hxs]. constructor; [|done].
  simpl. by rewrite Hc.
Qed.

Lemma split_comma_segment (x : string) (rest : string) :
  includes_comma x = false ->
  split_comma (x +:+ String ","%char rest) = x :: split_comma rest.
Proof.
  induction x as [|c x IH]; intros Hx; [done|].
  simpl in Hx. apply orb_false_iff in Hx as [Hc Hx].
  change (String c x +:+ String ","%char rest)
    with (String c (x +:+ String ","%char rest)).
  cbn [split_comma]. by rewrite Hc, IH.
Qed.

Lemma split_comma_last (x : string) :
  includes_comma x = false -> split_comma x = [x].
Proof.
  induction x as [|c x IH]; intros Hx; [done|].
  simpl in Hx. apply orb_false_iff in Hx as [Hc Hx].
  simpl. by rewrite Hc, IH.
Qed.

Lemma split_comma_concat (x : string) (xs : list string) :
  Forall (fun x => includes_comma x = false) (x :: xs) ->
  split_comma (String.concat "," (x :: xs)) = x :: xs.
Proof.
  revert x. induction xs as [|y ys IH]; intros x [Hx Hxs]%Forall_cons.
  - simpl. by apply split_comma_last.
  - change (String.concat "," (x :: y :: ys))
      with (x +:+ String ","%char (String.concat "," (y :: ys))).
    rewrite split_comma_segment by done. by rewrite IH.
Qed.

(** X9. apiKeyAuth calls next() exactly when the key is a non-empty
    string that is one of the comma-separated segments of
    VALID_API_KEYS; so no key passes when the variable is unset, and a
    key that contains a comma never passes. *)
Theorem apiKeyAuth_next (apiKey VALID_API_KEYS : option string) :
  apiKeyAuth apiKey VALID_API_KEYS = Next tt <->
  exists key before after,
    apiKey = Some key /\ key <> EmptyString
    /\ Forall (fun x => includes_comma x = false) (before ++ key :: after)
    /\ VALID_API_KEYS = Some (String.concat "," (before ++ key :: after)).
Proof.
  unfold apiKeyAuth. split.
  - intros H. destruct apiKey as [key|]; [|discriminate H].
    destruct (truthy_str key) eqn:Hk; [|discriminate H]. simpl in H.
    destruct (bool_decide _) eqn:Hin; [|discriminate H].
    apply bool_decide_eq_true in Hin.
    destruct VALID_API_KEYS as [e|]; simpl in Hin; [|by inversion Hin].
    apply list_elem_of_split in Hin as (before & after & Hsplit).
    exists key, before, after. split_and!; [done|by destruct key| |].
    + rewrite <- Hsplit. apply split_comma_segments.
    + by rewrite <- Hsplit, split_comma_join.
  - intros (key & before & after & -> & Hk & Hseg & ->).
    destruct key as [|c key]; [done|]. cbn [truthy_str negb]. simpl default.
    rewrite bool_decide_eq_true_2; [done|].
    destruct before as [|b before]; simpl app in *;
      rewrite split_comma_concat by done.
    + apply list_elem_of_here.
    + apply list_elem_of_further, elem_of_app. right. apply list_elem_of_here.
Qed.

(** X10. For a request with a session id and a user, and a database that
    answers, validateSession attaches the session exactly when it exists
    and belongs to the user, and then the update and the end route of
    /api/speech accept the same request; otherwise it answers 404 and so
    do both routes, which leave the tables as they are. *)
Theorem validateSession_agrees_with_routes (sessionId : nat) (u : ReqUser)
    (body : UpdateBody) (completedSentences : list string)
    (art : Result string) (garden_ok : bool) (now : Z)
    (sessions : gmap nat Session) (memoryGarden : list Garden) :
  match validateSession (Some sessionId) (Some u) true sessions with
  | Next session =>
      sessions !! sessionId = Some session
      /\ Store.userId session = id u
      /\ (put_session_update true (id u) sessionId body now sessions).1
         = Json (merge_update body now session)
      /\ (exists st,
            (post_session_end true art garden_ok (id u) sessionId
               completedSentences now sessions memoryGarden).1.1.1 = Json st)
  | Respond status _ =>
      status = 404%nat
      /\ (forall session, sessions !! sessionId = Some session ->
            Store.userId session <> id u)
      /\ put_session_update true (id u) sessionId body now sessions
         = (Status404, sessions)
      /\ post_session_end true art garden_ok (id u) sessionId
           completedSentences now sessions memoryGarden
         = (Status404, sessions, memoryGarden, [])
  end.
Proof.
  unfold validateSession, put_session_update, post_session_end, update.
  cbn [negb]. unfold findFirst.
  destruct (sessions !! sessionId) as [s|] eqn:Hs; [|done].
  case_decide as Ho; [|split_and!; try done; by intros ? [= <-]].
  split_and!; try done.
  destruct (3 <=? length completedSentences)%nat; by eauto.
Qed.

(** Every [retryAfter] is at least one second, given with a limit of
    at least one; it is [NaN] only under a limit of zero or less. *)
Lemma userRateLimit_retryAfter_positive (maxRequests windowMs : Z)
    (reqs : list (option ReqUser * Z)) (retryAfter : option Z) :
  TooManyRequests retryAfter ∈ (serve maxRequests windowMs reqs).1 ->
  match retryAfter with
  | Some seconds => 1 <= seconds /\ 1 <= maxRequests
  | None => maxRequests <= 0
  end.
Proof.
  unfold serve.
  assert (forall rq : gmap string (list Z),
            (forall uid l, rq !! uid = Some l ->
               Z.of_nat (length l) <= Z.max 0 maxRequests) ->
            TooManyRequests retryAfter
              ∈ (serve_from maxRequests windowMs reqs rq).1 ->
            match retryAfter with
            | Some seconds => 1 <= seconds /\ 1 <= maxRequests
            | None => maxRequests <= 0
            end) as H.
  { induction reqs as [|[user now] rest IH]; intros rq Hrq Hin.
    { by apply not_elem_of_nil in Hin. }
    rewrite serve_from_cons in Hin. cbn [fst] in Hin.
    apply elem_of_cons in Hin as [Hin|Hin]; cycle 1.
    { apply (IH _ (userRateLimit_bounded _ _ _ _ _ Hrq) Hin). }
    destruct user as [u|]; [|discriminate Hin].
    destruct (userRateLimit_cases maxRequests windowMs u now rq)
      as [[Hf He]|[Hf He]]; rewrite He in Hin; [|discriminate Hin].
    cbn [fst] in Hin. injection Hin as ->.
    destruct (filter _ _) as [|x f] eqn:Hfil; simpl in *; [lia|].
    assert (now - windowMs < x /\ x ∈ default [] (rq !! id u)) as [Hx Hx'].
    { apply (list_elem_of_filter (fun ts => now - windowMs < ts)).
      rewrite Hfil. apply list_elem_of_here. }
    split.
    - pose proof (ceil_div_1000_ge (x - (now - windowMs))).
      unfold ceil_div_1000 in *. lia.
    - destruct (rq !! id u) as [l|] eqn:Hl; [|by apply not_elem_of_nil in Hx'].
      specialize (Hrq _ _ Hl). simpl in Hx'.
      destruct l; [by apply not_elem_of_nil in Hx'|]. simpl in Hrq. lia. }
  apply H. intros ? ?. by rewrite lookup_empty.
Qed.

End Middleware.

(** ** Tables *)

Section Tables.

Import Http.

(** The rows of a table are its entries. *)
Lemma elem_of_rows {A : Type} (table : gmap nat A) (id : nat) (x : A) :
  (id, x) ∈ rows table <-> table !! id = Some x.
Proof.
  unfold rows. rewrite merge_sort_Permutation. apply elem_of_map_to_list.
Qed.

Lemma rows_insert {A : Type} (table : gmap nat A) (id : nat) (x : A) :
  table !! id = None -> rows (<[id := x]> table) ≡ₚ (id, x) :: rows table.
Proof.
  intros Hnone. unfold rows. rewrite !merge_sort_Permutation.
  by apply map_to_list_insert.
Qed.

End Tables.

(** ** The memory garden *)

Section MemoryGarden.

Import Store Http MemoryGardenRoutes.

(** A new row gets an id the table does not hold. *)
Lemma create_fresh (data : Entry) (entries : gmap nat Entry) :
  entries !! (create data entries).1 = None
  /\ (create data entries).2 = <[(create data entries).1 := data]> entries.
Proof.
  unfold create. cbn [fst snd]. split; [|done].
  apply not_elem_of_dom, is_fresh.
Qed.

(** [only_own] is a preorder that insertions into rows of the user
    respect. *)
Lemma only_own_refl (u : string) (entries : gmap nat Entry) :
  only_own u entries entries.
Proof. intros id. by left. Qed.

Lemma only_own_trans (u : string) (e1 e2 e3 : gmap nat Entry) :
  only_own u e1 e2 -> only_own u e2 e3 -> only_own u e1 e3.
Proof.
  intros H12 H23 id. destruct (H12 id) as [H|[Ha Hb]], (H23 id) as [H'|[Hc Hd]].
  - left. congruence.
  - right. rewrite H. done.
  - right. rewrite <- H'. done.
  - right. done.
Qed.

Lemma only_own_insert (u : string) (id : nat) (e : Entry)
    (entries : gmap nat Entry) :
  (forall old, entries !! id = Some old -> userId old = u) ->
  userId e = u ->
  only_own u entries (<[id := e]> entries).
Proof.
  intros Hold He id'. destruct (decide (id = id')) as [<-|Hne].
  - right. split; [done|]. rewrite lookup_insert_eq. by intros ? [= <-].
  - left. by rewrite lookup_insert_ne.
Qed.

Lemma only_own_create (u : string) (data : Entry) (entries : gmap nat Entry) :
  userId data = u -> only_own u entries (create data entries).2.
Proof.
  intros Hu. destruct (create_fresh data entries) as [Hf ->].
  apply only_own_insert; [|done]. intros old. by rewrite Hf.
Qed.

Lemma findFirst_Some (id : nat) (u : string) (entries : gmap nat Entry)
    (e : Entry) :
  findFirst id u entries = Some e <-> entries !! id = Some e /\ userId e = u.
Proof.
  unfold findFirst.
  destruct (entries !! id) as [e'|]; [|by split; [|intros []]].
  case_decide; split; try done.
  - by intros [= <-].
  - by intros [[= <-] _].
  - intros [[= <-] ?]. done.
Qed.

Lemma userId_set_artwork (a : Artwork) (now : Z) (e : Entry) :
  userId (set_artwork a now e) = userId e.
Proof. done. Qed.

Lemma bulk_each_only_own (tl : Z -> string) (artworks : nat -> Result Artwork)
    (u : string) (now : Z) (found : list (nat * Session)) :
  forall (n : nat) (created : list (nat * Entry)) (entries : gmap nat Entry),
    only_own u entries
      (bulk_each tl artworks u now n found created entries).2.
Proof.
  induction found as [|[sid session] rest IH]; intros n created entries.
  { apply only_own_refl. }
  simpl. destruct (completedSentences session); [apply IH|].
  destruct (artworks n); [|apply only_own_refl].
  eapply only_own_trans; [|apply IH]. by apply only_own_create.
Qed.

(** X11. No request to the memory-garden router (create, update, delete,
    regenerate artwork, bulk create) inserts, changes or deletes a row
    of another user: every row that differs afterwards belongs to the
    requesting user, before and after. *)
Theorem routes_touch_only_own_entries (db_ok : bool) (tl : Z -> string)
    (reqUser : string) (now : Z) (sessions : gmap nat Session)
    (req : Request) (entries : gmap nat Entry) :
  only_own reqUser entries
    (MemoryGardenRoutes.serve db_ok tl reqUser now sessions req entries).
Proof.
  destruct req as [body art|id body art|id|id art|ids grp arts];
    unfold MemoryGardenRoutes.serve.
  - unfold post_create.
    destruct (c_title body) as [t|]; [|apply only_own_refl].
    destruct (c_sentences body) as [[|s ss]|]; try apply only_own_refl.
    destruct (negb (truthy_str t)); [apply only_own_refl|].
    destruct (negb db_ok); [apply only_own_refl|].
    destruct (create _ _) as [id entries'] eqn:Hc.
    change entries' with (id, entries').2. rewrite <- Hc.
    apply only_own_create. repeat case_match; done.
  - unfold put_update. destruct (negb db_ok); [apply only_own_refl|].
    destruct (findFirst id reqUser entries) as [e|] eqn:Hf;
      [|apply only_own_refl].
    apply findFirst_Some in Hf as [Hid Hu]. cbn [snd].
    apply only_own_insert; [intros ?; rewrite Hid; by intros [= <-]|].
    repeat case_match; done.
  - unfold delete_entry. destruct (negb db_ok); [apply only_own_refl|].
    destruct (findFirst id reqUser entries) as [e|] eqn:Hf;
      [|apply only_own_refl].
    apply findFirst_Some in Hf as [Hid Hu]. cbn [snd].
    intros id'. destruct (decide (id = id')) as [<-|Hne].
    + right. rewrite lookup_delete_eq, Hid. split; [by intros ? [= <-]|done].
    + left. by rewrite lookup_delete_ne.
  - unfold post_regenerate_artwork.
    destruct (negb db_ok); [apply only_own_refl|].
    destruct (findFirst id reqUser entries) as [e|] eqn:Hf;
      [|apply only_own_refl].
    apply findFirst_Some in Hf as [Hid Hu].
    destruct (sentences e); [apply only_own_refl|].
    destruct art; [|apply only_own_refl]. cbn [snd].
    apply only_own_insert; [intros ?; rewrite Hid; by intros [= <-]|done].
  - unfold post_bulk_create.
    destruct ids as [[|i ids]|]; try apply only_own_refl.
    destruct (negb db_ok); [apply only_own_refl|].
    destruct (sessions_with_sentences _ _ _) as [|row found];
      [apply only_own_refl|].
    destruct (default true grp); [|apply bulk_each_only_own].
    destruct (_ ≫= _); [apply only_own_refl|].
    destruct (arts 0%nat); [|apply only_own_refl].
    destruct (create _ _) as [id entries'] eqn:Hc.
    change entries' with (id, entries').2. rewrite <- Hc.
    by apply only_own_create.
Qed.

(** X12. POST /api/memory-garden with a non-empty title and at least one
    sentence stores the entry under a new id and answers 201, also when
    the artwork generation fails; the entry has an artworkUrl exactly
    when the generation was not switched off and succeeded. *)
Theorem post_create_despite_artwork_failure (artwork : Result Artwork)
    (reqUser : string) (body : CreateBody) (now : Z)
    (entries : gmap nat Entry) (t s : string) (ss : list string) :
  c_title body = Some t -> t <> EmptyString ->
  c_sentences body = Some (s :: ss) ->
  exists id e,
    post_create true artwork reqUser body now entries
    = (Json 201 (id, e), <[id := e]> entries)
    /\ entries !! id = None
    /\ userId e = reqUser /\ title e = t /\ sentences e = s :: ss
    /\ artworkUrl e
       = match artwork with
         | Returns a =>
             if default true (c_generateArtwork body) then Some (a_url a)
             else None
         | Throws _ => None
         end.
Proof.
  intros Ht Hne Hs. unfold post_create. rewrite Ht, Hs.
  destruct t as [|c t]; [done|]. cbn [truthy_str negb].
  destruct (create _ _) as [id entries'] eqn:Hc.
  match type of Hc with
  | create ?d _ = _ => pose proof (create_fresh d entries) as [Hfresh Hins]
  end.
  rewrite Hc in Hfresh, Hins. cbn [fst snd] in Hfresh, Hins.
  eexists id, _. split; [by rewrite Hins|].
  split; [done|].
  destruct (default true (c_generateArtwork body)), artwork; done.
Qed.

(** [POST /] answers 400 exactly when the title or the sentences are
    missing or empty, and then leaves the table. *)
Lemma post_create_bad_request (db_ok : bool) (artwork : Result Artwork)
    (reqUser : string) (body : CreateBody) (now : Z)
    (entries : gmap nat Entry) :
  (exists error,
     post_create db_ok artwork reqUser body now entries
     = (Error 400 error, entries))
  <-> OpenAIService.str_or (c_title body) "" = ""
      \/ default [] (c_sentences body) = [].
Proof.
  unfold post_create.
  destruct (c_title body) as [[|c t]|], (c_sentences body) as [[|s ss]|];
    cbn [truthy_str negb OpenAIService.str_or default from_option Datatypes.id];
    try (split; [by auto|by eauto]).
  split; [|by intros [|]].
  intros [error H]. destruct (negb db_ok); [discriminate H|].
  destruct (create _ _). discriminate H.
Qed.

(** X13. PUT /api/memory-garden/:id with sentences: [] on an entry of
    the user leaves the entry without sentences, which POST / refuses to
    create, and POST /:id/regenerate-artwork then answers 400 for it. *)
Theorem put_update_empties_sentences (artwork artwork' : Result Artwork)
    (reqUser : string) (id : nat) (body : UpdateBody) (now now' : Z)
    (entries : gmap nat Entry) (e : Entry) :
  findFirst id reqUser entries = Some e ->
  u_sentences body = Some [] ->
  let entries' := (put_update true artwork reqUser id body now entries).2 in
  (exists e', entries' !! id = Some e' /\ sentences e' = [])
  /\ post_regenerate_artwork true artwork' reqUser id now' entries'
     = (Error 400 "Cannot generate artwork without sentences", entries').
Proof.
  intros Hf Hs entries'. subst entries'. unfold put_update. cbn [negb].
  rewrite Hf, Hs. apply findFirst_Some in Hf as [Hid Hu].
  destruct (default false (u_regenerateArtwork body)); cbn [snd].
  all: split; [eexists; split; [apply lookup_insert_eq|simpl; by rewrite Hs]|].
  all: unfold post_regenerate_artwork, findFirst; cbn [negb].
  all: rewrite lookup_insert_eq; simpl; rewrite decide_True by done.
  all: unfold merge_update; cbn [sentences]; by rewrite Hs.
Qed.

(** X14. Deleting the entry that a successful POST /api/memory-garden
    created answers 200 and gives back the table as it was before the
    creation. *)
Theorem delete_entry_undoes_post_create (artwork : Result Artwork)
    (reqUser : string) (body : CreateBody) (now : Z)
    (entries entries' : gmap nat Entry) (id : nat) (e : Entry) :
  post_create true artwork reqUser body now entries
  = (Json 201 (id, e), entries') ->
  delete_entry true reqUser id entries' = (Json 200 tt, entries).
Proof.
  unfold post_create. intros H.
  destruct (c_title body) as [t|]; [|discriminate H].
  destruct (c_sentences body) as [[|s ss]|]; try discriminate H.
  destruct (negb (truthy_str t)); [discriminate H|]. cbn [negb] in H.
  destruct (create _ _) as [id' m] eqn:Hc.
  match type of Hc with
  | create ?d _ = _ => pose proof (create_fresh d entries) as Hfresh
  end.
  rewrite Hc in Hfresh. cbn [fst snd] in Hfresh.
  destruct Hfresh as [Hnone ->].
  injection H as <- <- <-.
  unfold delete_entry, findFirst. cbn [negb]. rewrite lookup_insert_eq.
  rewrite decide_True by (repeat case_match; done).
  by rewrite delete_insert_id.
Qed.

Lemma sessions_with_sentences_spec (sessionIds : list nat) (u : string)
    (sessions : gmap nat Session) (sid : nat) (session : Session) :
  (sid, session) ∈ sessions_with_sentences sessionIds u sessions <->
  sid ∈ sessionIds /\ sessions !! sid = Some session
  /\ Store.userId session = u /\ completedSentences session <> [].
Proof.
  unfold sessions_with_sentences.
  rewrite list_elem_of_filter, elem_of_rows. simpl. tauto.
Qed.

Lemma size_create (data : Entry) (entries : gmap nat Entry) :
  size (create data entries).2 = S (size entries).
Proof.
  destruct (create_fresh data entries) as [Hf ->].
  by apply map_size_insert_None.
Qed.

(** The loop of bulk-create when every artwork generation succeeds,
    and when one fails after [k] successes. *)
Lemma bulk_each_success (tl : Z -> string) (artworks : nat -> Result Artwork)
    (u : string) (now : Z) (found : list (nat * Session)) :
  Forall (fun row => completedSentences row.2 <> []) found ->
  forall (n : nat) (created : list (nat * Entry)) (entries : gmap nat Entry),
    (forall i, (n <= i < n + length found)%nat ->
       exists a, artworks i = Returns a) ->
    exists new entries',
      bulk_each tl artworks u now n found created entries
      = (Json 200 (created ++ new), entries')
      /\ (fun c => (sessionIds c.2, sentences c.2)) <$> new
         = (fun row => ([row.1], completedSentences row.2)) <$> found
      /\ size entries' = (size entries + length found)%nat.
Proof.
  induction 1 as [|[sid session] rest Hne _ IH]; intros n created entries Ha.
  { exists [], entries. simpl. by rewrite app_nil_r, Nat.add_0_r. }
  cbn [bulk_each]. simpl in Hne.
  destruct (completedSentences session) as [|s ss] eqn:Hs; [done|].
  destruct (Ha n) as [a Hn]; [simpl; lia|]. rewrite Hn.
  destruct (create _ _) as [id entries1] eqn:Hc.
  match type of Hc with
  | create ?d _ = _ =>
      pose proof (size_create d entries) as Hsize;
      destruct (IH (S n) (created ++ [(id, d)]) entries1)
        as (new & entries' & Heq & Hnew & Hsz);
      [|exists ((id, d) :: new), entries']
  end.
  { intros i Hi. apply Ha. simpl. lia. }
  rewrite Hc in Hsize. cbn [snd] in Hsize.
  split; [by rewrite Heq, <- app_assoc|].
  split; [rewrite !fmap_cons, Hnew; simpl; by rewrite Hs|]. simpl. lia.
Qed.

Lemma bulk_each_failure (tl : Z -> string) (artworks : nat -> Result Artwork)
    (u : string) (now : Z) (found : list (nat * Session)) :
  Forall (fun row => completedSentences row.2 <> []) found ->
  forall (n : nat) (created : list (nat * Entry)) (entries : gmap nat Entry)
         (k : nat) (m : string),
    (k < length found)%nat ->
    (forall i, (n <= i < n + k)%nat -> exists a, artworks i = Returns a) ->
    artworks (n + k)%nat = Throws m ->
    exists entries',
      bulk_each tl artworks u now n found created entries
      = (Error 500 "Failed to create memory garden entries", entries')
      /\ size entries' = (size entries + k)%nat.
Proof.
  induction 1 as [|[sid session] rest Hne _ IH];
    intros n created entries k m Hk Ha Hfail; [simpl in Hk; lia|].
  cbn [bulk_each]. simpl in Hne.
  destruct (completedSentences session) as [|s ss] eqn:Hs; [done|].
  destruct k as [|k].
  { rewrite Nat.add_0_r in Hfail. rewrite Hfail. exists entries.
    by rewrite Nat.add_0_r. }
  destruct (Ha n) as [a Hn]; [lia|]. rewrite Hn.
  destruct (create _ _) as [id entries1] eqn:Hc.
  match type of Hc with
  | create ?d _ = _ =>
      pose proof (size_create d entries) as Hsize;
      destruct (IH (S n) (created ++ [(id, d)]) entries1 k m)
        as (entries' & Heq & Hsz)
  end.
  { simpl in Hk. lia. }
  { intros i Hi. apply Ha. lia. }
  { by replace (S n + k)%nat with (n + S k)%nat by lia. }
  rewrite Hc in Hsize. cbn [snd] in Hsize.
  exists entries'. split; [done|]. lia.
Qed.

Lemma sessions_with_sentences_nonempty (sessionIds : list nat) (u : string)
    (sessions : gmap nat Session) :
  Forall (fun row => completedSentences row.2 <> [])
         (sessions_with_sentences sessionIds u sessions).
Proof.
  apply Forall_forall. intros [sid session] Hin.
  by apply sessions_with_sentences_spec in Hin as (_ & _ & _ & ?).
Qed.

Lemma sessions_with_sentences_nil (u : string) (sessions : gmap nat Session) :
  sessions_with_sentences [] u sessions = [].
Proof.
  unfold sessions_with_sentences.
  induction (rows sessions) as [|row l IH]; [done|].
  rewrite filter_cons_False; [done|]. rewrite elem_of_nil. tauto.
Qed.

(** X15. POST /bulk-create with groupByTheme false is not atomic: if the
    artwork generation succeeds for the first k sessions and fails for
    the next, the response is 500 and the k entries created before stay
    in the table. *)
Theorem post_bulk_create_not_atomic (tl : Z -> string)
    (artworks : nat -> Result Artwork) (reqUser : string)
    (sessionIds : list nat) (now : Z) (sessions : gmap nat Session)
    (entries : gmap nat Entry) (k : nat) (m : string) :
  (k < length (sessions_with_sentences sessionIds reqUser sessions))%nat ->
  (forall i, (i < k)%nat -> exists a, artworks i = Returns a) ->
  artworks k = Throws m ->
  exists entries',
    post_bulk_create true tl artworks reqUser (Some sessionIds) (Some false)
      now sessions entries
    = (Error 500 "Failed to create memory garden entries", entries')
    /\ size entries' = (size entries + k)%nat.
Proof.
  intros Hk Ha Hfail. unfold post_bulk_create.
  destruct sessionIds as [|sid0 ids].
  { rewrite sessions_with_sentences_nil in Hk. simpl in Hk. lia. }
  cbn [negb default from_option Datatypes.id].
  pose proof (sessions_with_sentences_nonempty (sid0 :: ids) reqUser sessions)
    as Hne.
  destruct (sessions_with_sentences _ _ _) as [|row found] eqn:Hfound;
    [simpl in Hk; lia|].
  apply (bulk_each_failure tl artworks reqUser now _ Hne 0 [] entries k m);
    [done| |done].
  intros i Hi. apply Ha. lia.
Qed.

(** X16. When every artwork generation succeeds, bulk-create makes one
    entry with groupByTheme and one entry per session with completed
    sentences without it; the grouped entry holds the sentences and the
    session ids of the separate entries, concatenated in their order. *)
Theorem post_bulk_create_modes_agree (tl : Z -> string)
    (artworks : nat -> Result Artwork) (reqUser : string)
    (ids : list nat) (now : Z) (sessions : gmap nat Session)
    (entries : gmap nat Entry) :
  sessions_with_sentences ids reqUser sessions <> [] ->
  (forall i, exists a, artworks i = Returns a) ->
  exists id e entries1 each entries2,
    post_bulk_create true tl artworks reqUser (Some ids) (Some true)
      now sessions entries
    = (Json 200 [(id, e)], entries1)
    /\ post_bulk_create true tl artworks reqUser (Some ids)
         (Some false) now sessions entries
       = (Json 200 each, entries2)
    /\ length each
       = length (sessions_with_sentences ids reqUser sessions)
    /\ size entries2 = (size entries + length each)%nat
    /\ size entries1 = S (size entries)
    /\ sentences e = each ≫= (fun c => sentences c.2)
    /\ sessionIds e = each ≫= (fun c => MemoryGardenRoutes.sessionIds c.2).
Proof.
  intros Hfound Ha. unfold post_bulk_create.
  destruct ids as [|sid0 ids].
  { exfalso. apply Hfound, sessions_with_sentences_nil. }
  cbn [negb default from_option Datatypes.id].
  pose proof (sessions_with_sentences_nonempty (sid0 :: ids) reqUser sessions)
    as Hne.
  destruct (sessions_with_sentences _ _ _) as [|row found] eqn:Hf; [done|].
  clear Hfound.
  destruct (bulk_each_success tl artworks reqUser now _ Hne 0 [] entries)
    as (each & entries2 & Heach & Hcols & Hsize).
  { intros i _. apply Ha. }
  rewrite Heach. cbn [app].
  destruct (Ha 0%nat) as [a Ha0]. rewrite Ha0.
  destruct ((row :: found) ≫= _) as [|s ss] eqn:Hall.
  { exfalso. apply Forall_cons in Hne as [Hrow _].
    rewrite bind_cons in Hall. by apply app_eq_nil in Hall as [? _]. }
  destruct (create _ _) as [id entries1] eqn:Hc.
  match type of Hc with
  | create ?d _ = _ => pose proof (size_create d entries) as Hsize1
  end.
  rewrite Hc in Hsize1. cbn [snd] in Hsize1.
  assert (length each = length (row :: found)) as Hlen.
  { by rewrite <- (length_fmap (fun c => (MemoryGardenRoutes.sessionIds c.2,
                                          sentences c.2)) each),
               Hcols, length_fmap. }
  eexists id, _, entries1, each, entries2.
  split_and!; [done|done|done|by rewrite Hlen|done| |].
  - cbn [sentences bulk_entry]. rewrite <- Hall.
    clear -Hcols. revert Hcols. generalize (row :: found).
    induction each as [|c each IH]; intros [|r l] Hcols; try done.
    rewrite !fmap_cons in Hcols. injection Hcols as _ Hs Hrest.
    rewrite !bind_cons, Hs. f_equal. by apply IH.
  - cbn [MemoryGardenRoutes.sessionIds bulk_entry].
    clear -Hcols. revert Hcols. generalize (row :: found).
    induction each as [|c each IH]; intros [|r l] Hcols; try done.
    rewrite !fmap_cons in Hcols. injection Hcols as Hi _ Hrest.
    rewrite fmap_cons, bind_cons, Hi. simpl. f_equal. by apply IH.
Qed.

(** Every row the loop inserts is of the user and holds the sentences
    of one of the sessions found. *)
Lemma bulk_each_rows (tl : Z -> string) (artworks : nat -> Result Artwork)
    (u : string) (now : Z) (found : list (nat * Session)) :
  forall (n : nat) (created : list (nat * Entry)) (entries : gmap nat Entry)
         (id : nat) (e : Entry),
    (bulk_each tl artworks u now n found created entries).2 !! id = Some e ->
    entries !! id = Some e
    \/ exists sid session,
         (sid, session) ∈ found /\ userId e = u
         /\ sentences e = completedSentences session.
Proof.
  induction found as [|[sid session] rest IH]; intros n created entries id e.
  { simpl. auto. }
  cbn [bulk_each].
  assert (forall P : Prop,
            (entries !! id = Some e
             \/ exists sid' session',
                  (sid', session') ∈ rest /\ userId e = u
                  /\ sentences e = completedSentences session') ->
            entries !! id = Some e
            \/ exists sid' session',
                 (sid', session') ∈ (sid, session) :: rest /\ userId e = u
                 /\ sentences e = completedSentences session') as Hweaken.
  { intros _ [?|(sid' & session' & ? & ?)]; [by left|right].
    exists sid', session'. split; [by apply list_elem_of_further|done]. }
  destruct (completedSentences session) as [|s ss] eqn:Hs.
  { intros H. apply (Hweaken True), (IH _ _ _ _ _ H). }
  destruct (artworks n); [|by left].
  destruct (create _ _) as [id' entries1] eqn:Hc.
  match type of Hc with
  | create ?d _ = _ => pose proof (create_fresh d entries) as [Hf Hins]
  end.
  rewrite Hc in Hf, Hins. cbn [fst snd] in Hf, Hins. subst entries1.
  intros H. apply IH in H as [H|H]; [|by apply (Hweaken True); right].
  destruct (decide (id' = id)) as [<-|Hne].
  - rewrite lookup_insert_eq in H. injection H as <-. right.
    exists sid, session. split; [apply list_elem_of_here|]. by rewrite Hs.
  - rewrite lookup_insert_ne in H by done. by left.
Qed.

(** X17. Every row bulk-create inserts, also before a failure, belongs
    to the requesting user and holds only completed sentences of
    sessions of that user that the request lists. *)
Theorem post_bulk_create_own_sentences (db_ok : bool) (tl : Z -> string)
    (artworks : nat -> Result Artwork) (reqUser : string)
    (ids : option (list nat)) (groupByTheme : option bool) (now : Z)
    (sessions : gmap nat Session) (entries : gmap nat Entry)
    (id : nat) (e : Entry) :
  (post_bulk_create db_ok tl artworks reqUser ids groupByTheme now sessions
     entries).2 !! id = Some e ->
  entries !! id = None ->
  userId e = reqUser
  /\ forall s, s ∈ sentences e ->
       exists sid session,
         sid ∈ default [] ids /\ sessions !! sid = Some session
         /\ Store.userId session = reqUser
         /\ s ∈ completedSentences session.
Proof.
  unfold post_bulk_create. intros H Hnew.
  destruct ids as [[|sid0 ids]|]; [cbn [snd] in H; congruence|
                                   |cbn [snd] in H; congruence].
  destruct (negb db_ok); [cbn [snd] in H; congruence|].
  destruct (sessions_with_sentences _ _ _) as [|row found] eqn:Hfound;
    [cbn [snd] in H; congruence|].
  cbn [default from_option Datatypes.id].
  destruct (default true groupByTheme).
  - destruct (_ ≫= _) as [|s0 ss0] eqn:Hall; [cbn [snd] in H; congruence|].
    destruct (artworks 0%nat); [|cbn [snd] in H; congruence].
    destruct (create _ _) as [id' entries1] eqn:Hc.
    match type of Hc with
    | create ?d _ = _ => pose proof (create_fresh d entries) as [Hf Hins]
    end.
    rewrite Hc in Hf, Hins. cbn [fst snd] in Hf, Hins. subst entries1.
    cbn [snd] in H. destruct (decide (id' = id)) as [<-|Hne];
      [|rewrite lookup_insert_ne in H by done; congruence].
    rewrite lookup_insert_eq in H. injection H as <-. split; [done|].
    cbn [sentences bulk_entry]. rewrite <- Hall. intros s Hs.
    apply list_elem_of_bind in Hs as ([sid session] & Hs & Hrow).
    rewrite <- Hfound in Hrow.
    apply sessions_with_sentences_spec in Hrow as (? & ? & ? & _).
    by exists sid, session.
  - apply bulk_each_rows in H as [H|(sid & session & Hrow & Hu & Hs)];
      [congruence|].
    split; [done|]. intros s Hin. rewrite <- Hfound in Hrow.
    apply sessions_with_sentences_spec in Hrow as (? & ? & ? & _).
    exists sid, session. by rewrite <- Hs.
Qed.

(** X18. For limit >= 1 and total >= 0, pages of GET /api/memory-garden
    is the integer p with p = 0 for no rows and (p - 1) * limit < total
    <= p * limit otherwise; a page >= 1 skips fewer rows than there are
    exactly when page <= p. *)
Theorem pages_cover_the_rows (page limit total : Z) :
  1 <= limit -> 0 <= total ->
  exists p,
    pages total limit = Fin (Qc_of_Z p)
    /\ (total = 0 -> p = 0)
    /\ (0 < total -> (p - 1) * limit < total <= p * limit)
    /\ (1 <= page -> (skip page limit < total <-> page <= p)).
Proof.
  intros Hl Ht. unfold pages, skip. rewrite decide_False by lia.
  exists (- (- total / limit)). split; [done|].
  pose proof (Z.div_mod (- total) limit ltac:(lia)) as Hdm.
  pose proof (Z.mod_pos_bound (- total) limit ltac:(lia)) as Hb.
  set (q := - total / limit) in *. set (r := - total `mod` limit) in *.
  split_and!; [intros; nia|intros; lia|].
  intros Hp. split; intros H.
  - destruct (Z_le_gt_dec page (- q)); [done|]. exfalso.
    assert (0 <= limit * (page - 1 + q)) by (apply Z.mul_nonneg_nonneg; lia).
    lia.
  - assert (0 <= limit * (- q - page)) by (apply Z.mul_nonneg_nonneg; lia).
    lia.
Qed.

Lemma fold_left_sentences (l : list Entry) (a : nat) :
  fold_left (fun sum entry => (sum + length (sentences entry))%nat) l a
  = (a + sum_list_with (fun e => length (sentences e)) l)%nat.
Proof.
  revert a. induction l as [|e l IH]; intros a; [simpl; lia|].
  cbn [fold_left]. rewrite IH. cbn [sum_list_with]. lia.
Qed.

(** The summary of a user after the insertion of a row. *)
Lemma get_stats_summary_insert (u : string) (id : nat) (e : Entry)
    (entries : gmap nat Entry) :
  entries !! id = None ->
  get_stats_summary u (<[id := e]> entries)
  = if decide (userId e = u) then
      {| totalEntries := S (totalEntries (get_stats_summary u entries));
         totalSentences :=
           (totalSentences (get_stats_summary u entries)
            + length (sentences e))%nat |}
    else get_stats_summary u entries.
Proof.
  intros Hnone. unfold get_stats_summary. cbn [totalEntries totalSentences].
  rewrite !fold_left_sentences.
  pose proof (rows_insert entries id e Hnone) as Hperm.
  assert (filter (fun e0 => userId e0 = u) ((rows (<[id:=e]> entries)).*2)
          ≡ₚ filter (fun e0 => userId e0 = u) (e :: (rows entries).*2))
    as Hf.
  { by rewrite Hperm. }
  case_decide as Hu.
  - rewrite filter_cons_True in Hf by done.
    f_equal; [by rewrite Hf|]. rewrite Hf. simpl. lia.
  - rewrite filter_cons_False in Hf by done.
    f_equal; by rewrite Hf.
Qed.

(** X19. After a successful POST /api/memory-garden the summary of the
    requesting user counts one entry more and as many sentences more as
    the request sent; the summary of every other user is unchanged. *)
Theorem stats_after_post_create (artwork : Result Artwork)
    (reqUser other : string) (body : CreateBody) (now : Z)
    (entries entries' : gmap nat Entry) (id : nat) (e : Entry) :
  post_create true artwork reqUser body now entries
  = (Json 201 (id, e), entries') ->
  get_stats_summary other entries'
  = if decide (other = reqUser) then
      {| totalEntries := S (totalEntries (get_stats_summary other entries));
         totalSentences :=
           (totalSentences (get_stats_summary other entries)
            + length (default [] (c_sentences body)))%nat |}
    else get_stats_summary other entries.
Proof.
  unfold post_create. intros H.
  destruct (c_title body) as [t|]; [|discriminate H].
  destruct (c_sentences body) as [[|s ss]|]; try discriminate H.
  destruct (negb (truthy_str t)); [discriminate H|]. cbn [negb] in H.
  destruct (create _ _) as [id' m] eqn:Hc.
  match type of Hc with
  | create ?d _ = _ => pose proof (create_fresh d entries) as Hfresh
  end.
  rewrite Hc in Hfresh. cbn [fst snd] in Hfresh.
  destruct Hfresh as [Hnone ->]. injection H as <- <- <-.
  rewrite get_stats_summary_insert by done.
  assert (forall d : Entry,
            userId d = reqUser -> sentences d = s :: ss ->
            (if decide (userId d = other)
             then {| totalEntries :=
                       S (totalEntries (get_stats_summary other entries));
                     totalSentences :=
                       (totalSentences (get_stats_summary other entries)
                        + length (sentences d))%nat |}
             else get_stats_summary other entries)
            = (if decide (other = reqUser)
               then {| totalEntries :=
                         S (totalEntries (get_stats_summary other entries));
                       totalSentences :=
                         (totalSentences (get_stats_summary other entries)
                          + length (default [] (Some (s :: ss))))%nat |}
               else get_stats_summary other entries)) as Hd.
  { intros d Hu Hs. rewrite Hu, Hs. by repeat case_decide. }
  apply Hd; repeat case_match; done.
Qed.

End MemoryGarden.

(** ** The daily progress *)

Section Progress.

Import UserProgress ProgressRace.

Lemma updateUserProgress_other (u : string) (pd : ProgressData) (now : Z)
    (table : gmap (string * Z) Progress) (k : string * Z) :
  k <> (u, today now) ->
  updateUserProgress u pd now table !! k = table !! k.
Proof.
  intros Hk. unfold updateUserProgress.
  destruct (table !! (u, today now)); by rewrite lookup_insert_ne.
Qed.

(** The totals of a row after reports of its day. *)
Lemma report_all_totals (u : string) (d : Z)
    (reports : list (ProgressData * Z)) :
  Forall (fun r => today r.2 = d) reports ->
  forall (table : gmap (string * Z) Progress) (p0 : Progress),
    table !! (u, d) = Some p0 ->
    exists p,
      report_all u reports table !! (u, d) = Some p
      /\ totalSessions p
         = totalSessions p0
           + Z.of_nat
               (length (filter (fun r => sessionCompleted r.1 = true) reports))
      /\ totalWordsImproved p
         = totalWordsImproved p0
           + Z.of_nat (sum_list_with (fun r => wordsImproved r.1) reports).
Proof.
  unfold report_all.
  induction 1 as [|[pd now] rest Hd _ IH]; intros table p0 Hp0.
  { exists p0. simpl. split; [done|]. lia. }
  cbn [fold_left fst snd]. simpl in Hd.
  edestruct (IH (updateUserProgress u pd now table)) as (p & Hp & Hs & Hw).
  { unfold updateUserProgress. rewrite Hd, Hp0. apply lookup_insert_eq. }
  exists p. split; [done|]. cbn [totalSessions totalWordsImproved] in Hs, Hw.
  rewrite Hs, Hw. cbn [sum_list_with fst].
  rewrite filter_cons. cbn [fst].
  destruct (sessionCompleted pd); (case_decide; [|try done]); try done;
    cbn [length]; lia.
Qed.

Lemma report_all_other (u : string) (d : Z)
    (reports : list (ProgressData * Z)) (k : string * Z) :
  Forall (fun r => today r.2 = d) reports ->
  k <> (u, d) ->
  forall table : gmap (string * Z) Progress,
    report_all u reports table !! k = table !! k.
Proof.
  unfold report_all. intros Hall Hk.
  induction Hall as [|[pd now] rest Hd _ IH]; intros table; [done|].
  cbn [fold_left fst snd]. simpl in Hd. rewrite IH.
  apply updateUserProgress_other. by rewrite Hd.
Qed.

(** A report whose queries run with nothing in between and succeed. *)
Lemma run_query (u : string) (pd : ProgressData) (now : Z)
    (table : gmap (string * Z) Progress) :
  run (query u pd now table) table = updateUserProgress u pd now table.
Proof.
  unfold run, query, updateUserProgress.
  by destruct (table !! (u, today now)) as [p |] eqn:E; simpl; rewrite E.
Qed.

Lemma read_then_write (u : string) (pd : ProgressData) (now : Z)
    (c : gmap (string * Z) Progress * list Pending) :
  moves [Read u pd now; Write (length c.2)] c
  = (updateUserProgress u pd now c.1, c.2).
Proof.
  destruct c as [table pend]. simpl.
  rewrite lookup_app_r, Nat.sub_diag by done. simpl.
  by rewrite run_query, delete_middle, app_nil_r.
Qed.

Lemma one_by_one_is_report_all (u : string)
    (reports : list (ProgressData * Z)) (table : gmap (string * Z) Progress) :
  moves (one_by_one u reports) (table, []) = (report_all u reports table, []).
Proof.
  revert table. induction reports as [| [pd now] reports IH]; intros table;
    [done |].
  unfold one_by_one, moves in *. rewrite bind_cons, fold_left_app.
  pose proof (read_then_write u pd now (table, [])) as H.
  unfold moves in H. cbn [snd length] in H. cbn [fst snd]. rewrite H.
  cbn [fst]. by rewrite IH.
Qed.

Lemma moves_snoc (mvs : list Move) (mv : Move)
    (c : gmap (string * Z) Progress * list Pending) :
  moves (mvs ++ [mv]) c = move mv (moves mvs c).
Proof. unfold moves. by rewrite fold_left_app. Qed.

(** However the queries interleave, the row of a day holds no more than
    was reported for it. *)
Lemma moves_at_most (u : string) (d : Z) (mvs : list Move)
    (table : gmap (string * Z) Progress) :
  table !! (u, d) = None ->
  at_most (u, d) (sessions_reported (omap (reported u d) mvs))
    (words_reported (omap (reported u d) mvs)) (moves mvs (table, [])).
Proof.
  intros Hnone. induction mvs as [| mv mvs IH] using rev_ind.
  { split; [| constructor]. simpl. intros p. by rewrite Hnone. }
  rewrite moves_snoc, omap_app.
  set (c := moves mvs (table, [])) in *.
  set (l := omap (reported u d) mvs) in *.
  assert (Hn : 0 <= sessions_reported l) by (unfold sessions_reported; lia).
  assert (Hw : 0 <= words_reported l) by (unfold words_reported; lia).
  destruct mv as [u' pd now | i | i]; cbn [omap list_omap reported].
  - destruct IH as [Hrow Hpend].
    assert (Hgrow :
              sessions_reported l
              <= sessions_reported (l ++ omap (reported u d) [Read u' pd now])
              /\ words_reported l
                 <= words_reported
                      (l ++ omap (reported u d) [Read u' pd now])).
    { unfold sessions_reported, words_reported.
      rewrite filter_app, length_app, sum_list_with_app. lia. }
    cbn [omap list_omap reported] in Hgrow.
    split; cbn [move fst snd].
    + intros p Hp. specialize (Hrow p Hp). lia.
    + apply Forall_app. split.
      * eapply Forall_impl; [exact Hpend |]. simpl. intros q Hq Hk.
        specialize (Hq Hk). lia.
      * apply Forall_singleton. intros Hk.
        assert (Hud : u' = u /\ today now = d).
        { unfold query in Hk. destruct (c.1 !! (u', today now)); simpl in Hk;
            by injection Hk as -> ->. }
        destruct Hud as [-> Hd]. rewrite Hd in *.
        rewrite decide_True by done.
        unfold sessions_reported, words_reported.
        rewrite filter_app, length_app, sum_list_with_app.
        cbn [sum_list_with]. rewrite filter_cons, filter_nil.
        unfold query. rewrite Hd.
        destruct (c.1 !! (u, d)) as [p |] eqn:Ep; cbn [p_data totalSessions
          totalWordsImproved].
        -- specialize (Hrow p eq_refl).
           unfold sessions_reported, words_reported in Hrow.
           destruct (sessionCompleted pd);
             [rewrite decide_True by done | rewrite decide_False by done];
             cbn [length]; lia.
        -- destruct (sessionCompleted pd);
             [rewrite decide_True by done | rewrite decide_False by done];
             cbn [length]; lia.
  - rewrite app_nil_r. destruct IH as [Hrow Hpend]. cbn [move].
    destruct (c.2 !! i) as [q |] eqn:Eq; [| by split].
    split; cbn [fst snd]; [| by apply Forall_delete].
    assert (Hq : p_key q = (u, d) ->
                 0 <= totalSessions (p_data q) <= sessions_reported l
                 /\ 0 <= totalWordsImproved (p_data q) <= words_reported l).
    { rewrite Forall_forall in Hpend. apply Hpend.
      by eapply list_elem_of_lookup_2. }
    intros p. unfold run.
    destruct (c.1 !! p_key q) as [p0 |] eqn:E0, (p_create q); try apply Hrow.
    all: destruct (decide (p_key q = (u, d))) as [Hk | Hk];
      [ rewrite Hk, lookup_insert_eq; intros [= <-]; by apply Hq
      | rewrite lookup_insert_ne by done; apply Hrow ].
  - rewrite app_nil_r. destruct IH as [Hrow Hpend]. cbn [move].
    split; cbn [fst snd]; [done | by apply Forall_delete].
Qed.

(** X20. Reports of one user for one UTC day, starting without a row
    for that day. However the reads and the writes of the reports
    interleave, among themselves and with other reports, and whichever
    writes are rejected, the row never holds more totalSessions than
    reports with sessionCompleted were made, nor more
    totalWordsImproved than the sum of their wordsImproved. When each
    report runs from its read to its write before the next one starts
    and no query is rejected, the row holds exactly these and no other
    row changes. When two first reports of the day overlap, the create
    of the second is rejected and its report is lost. *)
Theorem progress_of_a_day (u : string) (d : Z)
    (table : gmap (string * Z) Progress) :
  table !! (u, d) = None ->
  (forall mvs p,
     (moves mvs (table, [])).1 !! (u, d) = Some p ->
     0 <= totalSessions p <= sessions_reported (omap (reported u d) mvs)
     /\ 0 <= totalWordsImproved p
        <= words_reported (omap (reported u d) mvs))
  /\ (forall first now reports,
        Forall (fun r => today r.2 = d) ((first, now) :: reports) ->
        exists p,
          moves (one_by_one u ((first, now) :: reports)) (table, [])
          = (report_all u ((first, now) :: reports) table, [])
          /\ report_all u ((first, now) :: reports) table !! (u, d) = Some p
          /\ totalSessions p
             = sessions_reported (fst <$> (first, now) :: reports)
          /\ totalWordsImproved p
             = words_reported (fst <$> (first, now) :: reports)
          /\ forall k, k <> (u, d) ->
               report_all u ((first, now) :: reports) table !! k = table !! k)
  /\ (forall pd1 pd2 now1 now2,
        today now1 = d -> today now2 = d ->
        (moves [Read u pd1 now1; Read u pd2 now2; Write 0; Write 0]
           (table, [])).1
        = updateUserProgress u pd1 now1 table
        /\ (moves [Read u pd1 now1; Write 0; Read u pd2 now2; Write 0]
              (table, [])).1
           = updateUserProgress u pd2 now2
               (updateUserProgress u pd1 now1 table)).
Proof.
  intros Hnone. split_and!.
  - intros mvs p Hp.
    destruct (moves_at_most u d mvs table Hnone) as [Hrow _]. by apply Hrow.
  - intros first now reports Hall.
    pose proof Hall as [Hd Hrest]%Forall_cons. simpl in Hd.
    destruct (report_all_totals u d reports Hrest
                (updateUserProgress u first now table)
                {| totalSessions := if sessionCompleted first then 1 else 0;
                   totalWordsImproved := Z.of_nat (wordsImproved first);
                   averageConfidence := or_zero (pd_averageConfidence first);
                   updatedAt := None |})
      as (p & Hp & Hs & Hw).
    { unfold updateUserProgress. rewrite Hd, Hnone. apply lookup_insert_eq. }
    exists p. split; [apply one_by_one_is_report_all |].
    split; [exact Hp |].
    cbn [totalSessions totalWordsImproved] in Hs, Hw.
    unfold sessions_reported, words_reported.
    split_and!.
    + rewrite Hs, fmap_cons, !filter_cons. cbn [fst].
      assert (length (filter (fun r : ProgressData * Z =>
                        sessionCompleted r.1 = true) reports)
              = length (filter (fun pd => sessionCompleted pd = true)
                          (fst <$> reports))) as ->.
      { clear. induction reports as [| r reports IH]; [done |].
        rewrite fmap_cons, !filter_cons.
        repeat case_decide; try done; cbn [length]; by rewrite IH. }
      destruct (sessionCompleted first); (case_decide; [| try done]);
        try done; cbn [length]; lia.
    + rewrite Hw, fmap_cons. cbn [sum_list_with fst].
      assert (sum_list_with (fun r : ProgressData * Z => wordsImproved r.1)
                reports
              = sum_list_with wordsImproved (fst <$> reports)) as ->.
      { clear. induction reports as [| r reports IH]; [done |].
        rewrite fmap_cons. cbn [sum_list_with]. by rewrite IH. }
      lia.
    + intros k Hk. by apply (report_all_other u d).
  - intros pd1 pd2 now1 now2 Hd1 Hd2. split.
    + assert (Hq : forall pd now, today now = d ->
                p_create (query u pd now table) = true
                /\ p_key (query u pd now table) = (u, d)).
      { intros pd now Hd. unfold query. by rewrite Hd, Hnone. }
      destruct (Hq pd1 now1 Hd1) as [Hc1 Hk1].
      destruct (Hq pd2 now2 Hd2) as [Hc2 Hk2].
      unfold moves. cbn [fold_left move fst snd app].
      change ([query u pd1 now1 table; query u pd2 now2 table] !! 0%nat)
        with (Some (query u pd1 now1 table)).
      cbn [fst snd].
      change (delete 0%nat [query u pd1 now1 table; query u pd2 now2 table])
        with [query u pd2 now2 table].
      change ([query u pd2 now2 table] !! 0%nat)
        with (Some (query u pd2 now2 table)).
      cbn [fst snd]. rewrite run_query.
      unfold run. rewrite Hk2, Hc2.
      unfold updateUserProgress at 1. rewrite Hd1, Hnone.
      by rewrite lookup_insert_eq.
    + pose proof (read_then_write u pd1 now1 (table, [])) as H1.
      cbn [snd length fst] in H1.
      pose proof (read_then_write u pd2 now2
                    (updateUserProgress u pd1 now1 table, [])) as H2.
      cbn [snd length fst] in H2.
      change (moves [Read u pd1 now1; Write 0; Read u pd2 now2; Write 0]
                (table, []))
        with (moves [Read u pd2 now2; Write 0]
                (moves [Read u pd1 now1; Write 0] (table, []))).
      by rewrite H1, H2.
Qed.

(** [(a + b) / 2] stays in the unit interval. *)
Lemma half_sum_in_unit_interval (a b : num) :
  in_unit_interval a -> in_unit_interval b ->
  in_unit_interval (div (add a b) (Fin (Qc_of_Z 2))).
Proof.
  destruct a as [| | |x], b as [| | |y]; try done.
  intros [Hx0 Hx1] [Hy0 Hy1]. cbn [add div].
  replace (Qc_eqb (Qc_of_Z 2) 0) with false by done.
  cbn [in_unit_interval].
  assert ((x + y) / Qc_of_Z 2 = (x + y) * Q2Qc (1 # 2))%Qc as ->.
  { unfold Qcdiv. f_equal. }
  split.
  - apply Qcmult_nonneg_nonneg; [|done]. by apply Qcplus_nonneg_nonneg.
  - replace 1%Qc with ((1 + 1) * Q2Qc (1 # 2))%Qc by (by apply Qc_is_canon).
    apply Qcmult_le_compat_r; [|done]. by apply Qcplus_le_compat.
Qed.

Lemma or_zero_in_unit_interval (a : num) :
  in_unit_interval a -> in_unit_interval (or_zero a).
Proof. intros Ha. unfold or_zero. destruct (truthy a); [done|]. by split. Qed.

(** X21. If every stored averageConfidence and the reported one lie in
    [0, 1], so does every stored averageConfidence after
    updateUserProgress. *)
Theorem progress_average_in_unit_interval (u : string) (pd : ProgressData)
    (now : Z) (table : gmap (string * Z) Progress) :
  in_unit_interval (pd_averageConfidence pd) ->
  (forall k p, table !! k = Some p -> in_unit_interval (averageConfidence p)) ->
  forall k p,
    updateUserProgress u pd now table !! k = Some p ->
    in_unit_interval (averageConfidence p).
Proof.
  intros Hpd Htable k p. unfold updateUserProgress.
  destruct (table !! (u, today now)) as [p0|] eqn:Hp0;
    (destruct (decide (k = (u, today now))) as [->|Hk];
     [rewrite lookup_insert_eq; intros [= <-]; cbn [averageConfidence]
     |rewrite lookup_insert_ne by done; apply Htable]).
  - apply half_sum_in_unit_interval; [|done]. by apply (Htable _ _ Hp0).
  - by apply or_zero_in_unit_interval.
Qed.

End Progress.

(** ** The socket service and the session routes, once more *)

Section Service.

Import Store OpenAIService SocketService Broadcast SessionRows TurnTrace.

(** A disconnection deletes the entry of the user of the socket,
    whichever socket the entry holds. *)
Lemma broadcastToUser_after_disconnect (sock : nat) (s : Socket) (uid : string)
    (e : Event) (st : State) :
  sockets st !! sock = Some s -> s_connected s = true ->
  s_auth s = Some uid -> uid <> EmptyString ->
  activeConnections (handleDisconnection sock st) !! uid = None
  /\ broadcastToUser uid e (handleDisconnection sock st)
     = handleDisconnection sock st.
Proof.
  intros Hs Hc Ha Hne.
  assert (activeConnections (handleDisconnection sock st) !! uid = None) as H.
  { unfold handleDisconnection, with_socket. rewrite Hs. cbv beta iota.
    rewrite Hc, Ha. destruct uid; [done|]. simpl. apply lookup_delete_eq. }
  split; [done|]. unfold broadcastToUser. by rewrite H.
Qed.

(** An authentication registers the socket for the user. *)
Lemma broadcastToUser_after_authenticate (sock : nat) (s : Socket)
    (uid : string) (e : Event) (st : State) :
  sockets st !! sock = Some s -> s_connected s = true ->
  broadcastToUser uid e (on_authenticate sock (Some uid) st)
  = emit sock None e (on_authenticate sock (Some uid) st).
Proof.
  intros Hs Hc. unfold broadcastToUser, on_authenticate, with_socket.
  rewrite Hs. cbv beta iota. rewrite Hc.
  cbn [activeConnections emit set_log set_activeConnections
       set_sockets sockets].
  rewrite !lookup_insert_eq. cbn [s_connected]. done.
Qed.

(** X22. After a connected socket authenticates as a user,
    broadcastToUser reaches that socket; after a connected socket of the
    user disconnects, the user has no entry in activeConnections and
    broadcastToUser emits nothing, whether or not another socket of the
    user is still connected. *)
Theorem broadcast_follows_authentication_until_disconnect (sock : nat)
    (s : Socket) (uid : string) (e : Event) (st : State) :
  sockets st !! sock = Some s -> s_connected s = true ->
  broadcastToUser uid e (on_authenticate sock (Some uid) st)
  = emit sock None e (on_authenticate sock (Some uid) st)
  /\ (s_auth s = Some uid -> uid <> EmptyString ->
      activeConnections (handleDisconnection sock st) !! uid = None
      /\ broadcastToUser uid e (handleDisconnection sock st)
         = handleDisconnection sock st).
Proof.
  intros Hs Hc. split.
  - by apply (broadcastToUser_after_authenticate sock s).
  - intros Ha Hne. by apply (broadcastToUser_after_disconnect sock s).
Qed.

(** X24. formatAnalysisResponse never returns NaN as confidence, an
    empty assistanceLevel or emotionalContext, or an empty string as
    visualConcept or audioHintText. *)
Theorem formatAnalysisResponse_defaults (analysis : RawAnalysis) :
  confidence (formatAnalysisResponse analysis) <> NaN
  /\ assistanceLevel (formatAnalysisResponse analysis) <> EmptyString
  /\ emotionalContext (formatAnalysisResponse analysis) <> EmptyString
  /\ visualConcept (formatAnalysisResponse analysis) <> Some EmptyString
  /\ audioHintText (formatAnalysisResponse analysis) <> Some EmptyString.
Proof.
  unfold formatAnalysisResponse.
  cbn [confidence assistanceLevel emotionalContext visualConcept
       audioHintText].
  split_and!.
  - destruct (raw_confidence analysis) as [[| | |q]|]; try done. simpl.
    by destruct (negb _).
  - destruct (raw_assistanceLevel analysis) as [[|]|]; done.
  - destruct (raw_emotionalContext analysis) as [[|]|]; done.
  - destruct (raw_visualCues analysis) as [[? [[|]|]]|]; done.
  - destruct (raw_audioHint analysis) as [[? [[|]|]]|]; done.
Qed.

Lemma str_or_null_Some (x : option string) (c : string) :
  str_or_null x = Some c -> x = Some c /\ c <> EmptyString.
Proof. destruct x as [[|a x]|]; try done. by intros [= <-]. Qed.

(** X25. Over every run of the socket service, a turn that awaits
    generateVisualAid does so for a non-empty concept, which the
    analysis returned together with visualCues.suggested = true. *)
Theorem visual_aid_requested_for_named_concept (trace : list Action)
    (tid : nat) (t : Turn) (tr : TranscriptionResult) (an : Analysis)
    (c : string) :
  turns (exec trace init) !! tid = Some t ->
  stage t = AwaitVisualAid tr an c ->
  c <> EmptyString
  /\ exists raw,
       analysis_outcome (remote t) = Returns raw
       /\ raw_visualCues raw ≫= vc_suggested = Some true
       /\ raw_visualCues raw ≫= vc_concept = Some c.
Proof.
  intros Ht Hs.
  destruct (exec_consistent trace init init_consistent) as (_ & _ & Hok).
  destruct (Hok tid t Ht) as [Hwf _]. unfold stage_wf in Hwf.
  rewrite Hs in Hwf. destruct Hwf as (_ & _ & (raw & Hraw & ->) & Hv & Hc).
  unfold formatAnalysisResponse in Hv, Hc.
  cbn [visualAidSuggested visualConcept] in Hv, Hc.
  apply str_or_null_Some in Hc as [Hc Hne]. split; [done|].
  exists raw. split_and!; [done| |done].
  by destruct (raw_visualCues raw ≫= vc_suggested) as [[]|].
Qed.

(** A step deletes no row and changes neither owner nor start. *)
Lemma step_keeps_rows (a : Action) (st : State) (sid : nat) (s : Session) :
  (forall k, is_Some (sessions st !! k) -> (k < nextSession st)%nat) ->
  sessions st !! sid = Some s ->
  exists s',
    sessions (step a st) !! sid = Some s'
    /\ Store.userId s' = Store.userId s /\ startedAt s' = startedAt s.
Proof.
  intros Hnext Hs.
  assert (forall (k : nat) (f : Session -> Session) m',
            (forall r, Store.userId (f r) = Store.userId r
                       /\ startedAt (f r) = startedAt r) ->
            update k f (sessions st) = Some m' ->
            exists s',
              m' !! sid = Some s'
              /\ Store.userId s' = Store.userId s
              /\ startedAt s' = startedAt s) as Hupd.
  { intros k f m' Hf Hu. unfold update in Hu.
    destruct (sessions st !! k) as [r|] eqn:Hr; [|done]. injection Hu as <-.
    destruct (decide (k = sid)) as [->|Hne].
    - rewrite lookup_insert_eq. exists (f r). split; [done|].
      rewrite Hs in Hr. injection Hr as <-. apply Hf.
    - rewrite lookup_insert_ne by done. by exists s. }
  destruct a; cbn [step].
  - unfold handleConnection. case_match; by exists s.
  - unfold on_authenticate, with_socket. repeat case_match; by exists s.
  - unfold on_process_speech, with_socket, processSpeechInput.
    repeat case_match; by exists s.
  - unfold resume, throw, handler_catch, finally_block, suspend, emit,
      audio_hint_and_session, updateSessionData, processMultimodalInput.
    repeat case_match; simplify_eq; cbn [sessions set_sessions set_log
      set_turns set_processingQueue set_conversationContexts];
      try by exists s.
    all: eapply Hupd; [|eassumption]; by intros [].
  - unfold on_start_session, with_socket, startNewSession.
    repeat case_match; simplify_eq; cbn; try by exists s.
    exists s. split; [|done]. rewrite lookup_insert_ne; [done|].
    specialize (Hnext sid ltac:(by eexists)). lia.
  - unfold on_end_session, with_socket, endSession, findUnique.
    repeat case_match; simplify_eq; cbn; try by exists s.
    all: eapply Hupd; [|eassumption]; by intros [].
  - unfold on_feedback, with_socket, processFeedback, findUnique.
    repeat case_match; simplify_eq; cbn; try by exists s.
    all: eapply Hupd; [|eassumption]; by intros [].
  - unfold handleDisconnection, with_socket. repeat case_match; by exists s.
  - by exists s.
  - by exists s.
  - unfold on_process_speech_without_data, with_socket.
    repeat case_match; by exists s.
Qed.

(** X26. Over every run of the socket service, a session row, once
    created, is never deleted and keeps its userId and startedAt. *)
Theorem socket_sessions_keep_their_owner (before after : list Action)
    (sid : nat) (s : Session) :
  sessions (exec before init) !! sid = Some s ->
  exists s',
    sessions (exec (before ++ after) init) !! sid = Some s'
    /\ Store.userId s' = Store.userId s /\ startedAt s' = startedAt s.
Proof.
  rewrite exec_app.
  pose proof (exec_consistent before init init_consistent) as Hc.
  revert Hc s. generalize (exec before init). clear before.
  induction after as [|a after IH]; intros st Hc s Hs; [by exists s|].
  cbn [exec fold_left].
  destruct (step_keeps_rows a st sid s) as (s1 & Hs1 & Hu1 & Ht1); [|done|].
  { by destruct Hc as (_ & (_ & _ & ?) & _). }
  destruct (IH (step a st) (step_consistent a st Hc) s1 Hs1)
    as (s' & Hs' & Hu & Ht).
  exists s'. split; [done|]. by rewrite Hu, Ht.
Qed.

Lemma step_fresh_ids (a : Action) (st : State) :
  fresh_ids st -> fresh_ids (step a st).
Proof.
  intros Hst k.
  destruct a as [sock | sock decoded | sock d r | tid | sock db | sock db pr
                | sock fb db | sock | | ms | sock msg]; cbn [step].
  - unfold handleConnection. case_match; apply Hst.
  - unfold on_authenticate, with_socket. repeat case_match; apply Hst.
  - unfold on_process_speech, with_socket, processSpeechInput.
    repeat case_match; apply Hst.
  - destruct (resume_frame tid st) as (_ & _ & -> & _).
    rewrite resume_sessions_dom. apply Hst.
  - unfold on_start_session, with_socket, startNewSession.
    repeat case_match; simplify_eq; cbn; try apply Hst.
    destruct (decide (nextSession st = k)) as [<- | Hne]; [lia |].
    rewrite lookup_insert_ne by done. intros Hk%Hst. lia.
  - unfold on_end_session, with_socket.
    destruct (sockets st !! sock) as [s0 |]; [| apply Hst].
    destruct (s_connected s0); [| apply Hst].
    destruct (s_auth s0); [| apply Hst].
    destruct (s_sessionId s0) as [sid0 |]; [| apply Hst].
    pose proof (endSession_dom sid0 db pr (clock st) (sessions st) k) as Hdom.
    destruct (endSession sid0 db pr (clock st) (sessions st))
      as [[[[] | m] ss] calls]; simpl in *; rewrite Hdom; apply Hst.
  - unfold on_feedback, with_socket.
    destruct (sockets st !! sock) as [s0 |]; [| apply Hst].
    destruct (s_connected s0); [| apply Hst].
    destruct (s_auth s0) as [uid |]; [| apply Hst].
    cbn. rewrite processFeedback_dom. apply Hst.
  - unfold handleDisconnection, with_socket. repeat case_match; apply Hst.
  - apply Hst.
  - apply Hst.
  - unfold on_process_speech_without_data, with_socket.
    repeat case_match; apply Hst.
Qed.

(** A step writes neither the completed sentences nor the visual aids
    of a row, and the rows it creates have none: the queries of the
    socket service name the columns they write (lines 1134-1144,
    1173-1176, 1223-1226 and 1242-1247) and these two are not among
    them, so the order in which the queries of overlapping handlers
    reach the table makes no difference here. *)
Lemma step_same_sentences (a : Action) (st : State) (sid : nat)
    (s' : Session) :
  fresh_ids st ->
  sessions (step a st) !! sid = Some s' ->
  same_sentences (sessions st !! sid) s'.
Proof.
  intros Hnext.
  assert (Hsame : sessions st !! sid = Some s' ->
                  same_sentences (sessions st !! sid) s').
  { intros ->. by split. }
  assert (forall (k : nat) (f : Session -> Session) m',
            (forall r, completedSentences (f r) = completedSentences r
                       /\ visualAids (f r) = visualAids r) ->
            update k f (sessions st) = Some m' ->
            m' !! sid = Some s' ->
            same_sentences (sessions st !! sid) s') as Hupd.
  { intros k f m' Hf Hu Hs. unfold update in Hu.
    destruct (sessions st !! k) as [r |] eqn:Hr; [| done]. injection Hu as <-.
    destruct (decide (k = sid)) as [-> | Hne].
    - rewrite lookup_insert_eq in Hs. injection Hs as <-.
      rewrite Hr. apply Hf.
    - rewrite lookup_insert_ne in Hs by done. by apply Hsame. }
  destruct a; cbn [step].
  - unfold handleConnection. case_match; apply Hsame.
  - unfold on_authenticate, with_socket. repeat case_match; apply Hsame.
  - unfold on_process_speech, with_socket, processSpeechInput.
    repeat case_match; apply Hsame.
  - unfold resume, throw, handler_catch, finally_block, suspend, emit,
      audio_hint_and_session, updateSessionData, processMultimodalInput.
    repeat case_match; simplify_eq; cbn [sessions set_sessions set_log
      set_turns set_processingQueue set_conversationContexts];
      try apply Hsame.
    all: eapply Hupd; [| eassumption]; by intros [].
  - unfold on_start_session, with_socket, startNewSession.
    repeat case_match; simplify_eq; cbn; try apply Hsame.
    intros Hs. destruct (decide (nextSession st = sid)) as [<- | Hne].
    + rewrite lookup_insert_eq in Hs. injection Hs as <-.
      destruct (sessions st !! nextSession st) as [r |] eqn:Hr; [| done].
      specialize (Hnext (nextSession st) ltac:(by eexists)). lia.
    + rewrite lookup_insert_ne in Hs by done. by apply Hsame.
  - unfold on_end_session, with_socket, endSession, findUnique.
    repeat case_match; simplify_eq; cbn; try apply Hsame.
    all: eapply Hupd; [| eassumption]; by intros [].
  - unfold on_feedback, with_socket, processFeedback, findUnique.
    repeat case_match; simplify_eq; cbn; try apply Hsame.
    all: eapply Hupd; [| eassumption]; by intros [].
  - unfold handleDisconnection, with_socket. repeat case_match; apply Hsame.
  - apply Hsame.
  - apply Hsame.
  - unfold on_process_speech_without_data, with_socket.
    repeat case_match; apply Hsame.
Qed.

Lemma exec_same_sentences (trace : list Action) (st : State) (sid : nat)
    (s' : Session) :
  fresh_ids st ->
  sessions (exec trace st) !! sid = Some s' ->
  same_sentences (sessions st !! sid) s'.
Proof.
  revert st. induction trace as [| a trace IH]; intros st Hnext Hs.
  { simpl in Hs. rewrite Hs. by split. }
  cbn [exec fold_left] in Hs.
  pose proof (IH (step a st) (step_fresh_ids a st Hnext) Hs) as [Hc Hv].
  destruct (sessions (step a st) !! sid) as [s1 |] eqn:H1.
  - destruct (step_same_sentences a st sid s1 Hnext H1) as [Hc1 Hv1].
    split; simpl in *; congruence.
  - destruct (sessions st !! sid) as [s0 |] eqn:H0; [| by split].
    destruct (step_keeps_rows a st sid s0 Hnext H0) as (s1 & Hs1 & _).
    congruence.
Qed.

(** X23. No handler and no continuation of the socket service writes
    completedSentences or visualAids. Over every run of the socket
    service from any state of the session table, whatever the routes
    have written to it, a row that was there keeps both columns and a
    row the run creates has neither; so endSession reports to
    updateUserProgress, as wordsImproved, the number of sentences the
    row held before the run: what PUT /session/:id/update or POST
    /session/:id/end stored, and 0 for a row of the socket service's
    own. *)
Theorem socket_service_writes_no_sentences (trace : list Action)
    (st : State) (sid : nat) (s' : Session) :
  fresh_ids st ->
  sessions (exec trace st) !! sid = Some s' ->
  same_sentences (sessions st !! sid) s'
  /\ forall db progress now c,
       c ∈ (endSession sid db progress now (sessions (exec trace st))).2 ->
       c = SpeechRoutes.updateUserProgress (Store.userId s')
             (length (from_option completedSentences []
                        (sessions st !! sid))).
Proof.
  intros Hnext Hs.
  pose proof (exec_same_sentences trace st sid s' Hnext Hs) as [Hc Hv].
  split; [by split |].
  intros db progress now c. unfold endSession, findUnique. rewrite Hs.
  destruct db; [| by intros ?%not_elem_of_nil].
  destruct (update _ _ _); [| by intros ?%not_elem_of_nil].
  rewrite Hc. by destruct progress; intros ->%list_elem_of_singleton.
Qed.

(** X27. On a socket that has not authenticated, process_speech and
    start_session change nothing or emit one error 'Not authenticated'
    and nothing else, and end_session and feedback change nothing. *)
Theorem unauthenticated_socket_changes_nothing (sock : nat) (st : State)
    (d : SpeechData) (r : Remote) (db progress : Result unit)
    (feedback : Feedback) :
  (forall s, sockets st !! sock = Some s -> s_auth s = None) ->
  (step (ProcessSpeech sock d r) st = st
   \/ step (ProcessSpeech sock d r) st
      = emit sock None (error "Not authenticated") st)
  /\ (step (StartSession sock db) st = st
      \/ step (StartSession sock db) st
         = emit sock None (error "Not authenticated") st)
  /\ step (EndSession sock db progress) st = st
  /\ step (SendFeedback sock feedback db) st = st.
Proof.
  intros Hs. cbn [step].
  unfold on_process_speech, on_start_session, on_end_session, on_feedback,
    with_socket.
  destruct (sockets st !! sock) as [s|] eqn:Hsock; [|by auto].
  rewrite (Hs s eq_refl). destruct (s_connected s); auto.
Qed.

(** X28. POST /session/:sessionId/end does not check whether the session
    has ended: a second request for the same session answers 200 again,
    with the duration from startedAt to the second request, and, with
    three or more sentences each time, leaves two memory-garden rows for
    the session. *)
Theorem session_end_can_be_repeated (reqUser : string) (sessionId : nat)
    (s : Session) (first second : list string) (url url' : string)
    (now now' : Z) (sessions : gmap nat Session)
    (memoryGarden : list SpeechRoutes.Garden) :
  sessions !! sessionId = Some s -> Store.userId s = reqUser ->
  (3 <= length first)%nat -> (3 <= length second)%nat ->
  exists response sessions1 memoryGarden1 calls1 sessions2 calls2,
    SpeechRoutes.post_session_end true (Returns url) true reqUser sessionId
      first now sessions memoryGarden
    = (response, sessions1, memoryGarden1, calls1)
    /\ SpeechRoutes.post_session_end true (Returns url') true reqUser
         sessionId second now' sessions1 memoryGarden1
       = (SpeechRoutes.Json
            {| SpeechRoutes.st_duration := (now' - startedAt s) / 1000;
               SpeechRoutes.st_completedSentences := length second |},
          sessions2,
          memoryGarden
            ++ [{| SpeechRoutes.g_userId := reqUser;
                   SpeechRoutes.g_sessionIds := [sessionId];
                   SpeechRoutes.g_sentences := first;
                   SpeechRoutes.g_artworkUrl := url |};
                {| SpeechRoutes.g_userId := reqUser;
                   SpeechRoutes.g_sessionIds := [sessionId];
                   SpeechRoutes.g_sentences := second;
                   SpeechRoutes.g_artworkUrl := url' |}],
          calls2).
Proof.
  intros Hs Hu H1 H2.
  unfold SpeechRoutes.post_session_end, Store.findFirst, update.
  cbn [negb]. rewrite Hs, decide_True by done.
  apply Nat.leb_le in H1, H2. rewrite H1.
  do 4 eexists. eexists _, _. split; [reflexivity|].
  rewrite lookup_insert_eq. cbn [Store.userId set_ended_with startedAt].
  rewrite decide_True by done. rewrite H2.
  by rewrite <- app_assoc.
Qed.

End Service.

(** ** Registration and login *)

Section Auth.

Import Http AuthRoutes.

Lemma head_filter_None {A : Type} (P : A -> Prop) `{!forall x, Decision (P x)}
    (l : list A) (x : A) :
  head (filter P l) = None -> x ∈ l -> ~ P x.
Proof.
  intros Hh Hx HP.
  assert (x ∈ filter P l) as Hin by (by apply list_elem_of_filter).
  destruct (filter P l); [by apply not_elem_of_nil in Hin|done].
Qed.


(** When the query for a taken email or username finds no row, no row
    has the email or the username of the body. *)
Lemma find_taken_None (value : Credentials) (users : gmap nat User)
    (i : nat) (u : User) :
  find_taken value users = None -> users !! i = Some u ->
  email u <> c_email value
  /\ forall name, name <> EmptyString -> c_username value = Some name ->
                  username u <> Some name.
Proof.
  intros Hf Hu. unfold find_taken in Hf.
  assert (taken value u <> true) as Ht.
  { apply (head_filter_None _ _ _ Hf).
    apply list_elem_of_fmap. exists (i, u). split; [done|].
    by apply elem_of_rows. }
  unfold taken in Ht. split.
  - intros He. apply Ht. by rewrite bool_decide_eq_true_2.
  - intros name Hne Hn Hun. apply Ht. rewrite Hn.
    rewrite (bool_decide_eq_true_2 (username u = Some name)) by done.
    destruct name; [done|]. simpl. by rewrite orb_true_r.
Qed.

(** A registration keeps the emails and the usernames apart. *)
Lemma post_register_unique (validated : option Credentials)
    (hash : string -> string) (sign : nat -> string) (db_ok : bool)
    (users : gmap nat User) :
  unique users -> unique (post_register validated hash sign db_ok users).2.
Proof.
  intros Hu. unfold post_register.
  destruct validated as [value|]; [|done].
  destruct (negb db_ok); [done|].
  destruct (find_taken value users) eqn:Hf; [done|]. cbn [snd].
  assert (users !! fresh (dom users) = None) as Hfresh
    by apply not_elem_of_dom, is_fresh.
  intros i j u v Hi Hj Hsame.
  destruct (decide (i = fresh (dom users))) as [->|Hni],
           (decide (j = fresh (dom users))) as [->|Hnj]; [done| | |].
  - rewrite lookup_insert_eq in Hi. rewrite lookup_insert_ne in Hj by done.
    injection Hi as <-. cbn [email username] in Hsame.
    destruct (find_taken_None value users j v Hf Hj) as [He Hn].
    destruct Hsame as [Hsame|(name & Hne & Hun & Hvn)]; [done|].
    by destruct (Hn name).
  - rewrite lookup_insert_ne in Hi by done. rewrite lookup_insert_eq in Hj.
    injection Hj as <-. cbn [email username] in Hsame.
    destruct (find_taken_None value users i u Hf Hi) as [He Hn].
    destruct Hsame as [Hsame|(name & Hne & Hun & Hvn)]; [done|].
    by destruct (Hn name).
  - rewrite lookup_insert_ne in Hi, Hj by done. by apply (Hu i j u v).
Qed.

(** X29. After any sequence of registrations into an empty user table,
    no two users share an email or a non-empty username. *)
Theorem registrations_keep_emails_unique (hash : string -> string)
    (sign : nat -> string) (requests : list (option Credentials * bool)) :
  unique (register_all hash sign requests ∅).
Proof.
  unfold register_all.
  assert (forall users, unique users ->
            unique (fold_left
                      (fun users request =>
                         (post_register request.1 hash sign request.2 users).2)
                      requests users)) as H.
  { induction requests as [|r rest IH]; intros users Hu; [done|].
    simpl. by apply IH, post_register_unique. }
  apply H. intros i j u v. by rewrite lookup_empty.
Qed.


End Auth.

(** ** Runs of the properties above *)

Section Witnesses.

Import Store OpenAIService SocketService Broadcast SessionRows TurnTrace.
Import Http AuthMiddleware MemoryGardenRoutes UserProgress AuthRoutes Examples.

Lemma userRateLimit_sliding_window_witness :
  nondecreasing 0 (snd <$> burst)
  /\ Z.of_nat
       (in_window 1000 1200
          (passed "alice" burst (AuthMiddleware.serve 2 1000 burst).1))
     <= Z.max 0 2.
Proof.
  assert (H : nondecreasing 0 (snd <$> burst)) by (simpl; lia).
  split; [exact H|].
  exact (userRateLimit_sliding_window 2 1000 burst 0 "alice" 1200 H).
Defined.

Lemma userRateLimit_retry_after_witness :
  last (AuthMiddleware.serve 1 1000
          ([(Some alice, 0)] ++ [(Some alice, 500)])).1
  = Some (TooManyRequests (Some 1))
  /\ last (AuthMiddleware.serve 1 1000
             ([(Some alice, 0)] ++ [(Some alice, 500)] ++ [(Some bob, 700)]
              ++ [(Some alice, 1500)])).1
     = Some Pass.
Proof.
  assert (H : last (AuthMiddleware.serve 1 1000
                      ([(Some alice, 0)] ++ [(Some alice, 500)])).1
              = Some (TooManyRequests (Some 1)))
    by (vm_compute; reflexivity).
  split; [exact H|].
  apply (userRateLimit_retry_after 1 1000 [(Some alice, 0)] [(Some bob, 700)]
           alice 500 1 1500); [|exact H|lia].
  repeat constructor. simpl. intros v [= <-]. done.
Defined.

Lemma userRateLimit_zero_limit_witness :
  AuthMiddleware.serve 0 1000 burst
  = ([TooManyRequests None; TooManyRequests None; Pass;
      TooManyRequests None; TooManyRequests None], ∅).
Proof. apply (userRateLimit_zero_limit 0 1000 burst). lia. Defined.

Lemma userRateLimit_passes_iff_witness :
  nondecreasing 0 (snd <$> burst)
  /\ (AuthMiddleware.serve 2 1000 burst).1 !! 4%nat = Some Pass.
Proof.
  assert (H : nondecreasing 0 (snd <$> burst)) by (simpl; lia).
  split; [exact H|].
  exact (userRateLimit_passes_iff 2 1000
           [(Some alice, 0); (Some alice, 400); (None, 600);
            (Some alice, 800)] [] alice 1200 0 H).
Defined.

Lemma post_create_despite_artwork_failure_witness :
  exists id e,
    post_create true (Throws "quota exceeded") "alice" morning_walk 1000 ∅
    = (Json 201 (id, e), <[id := e]> ∅)
    /\ (∅ : gmap nat Entry) !! id = None
    /\ userId e = "alice" /\ title e = "Morning walk"
    /\ sentences e = ["I went to the park"]
    /\ artworkUrl e = None.
Proof.
  apply (post_create_despite_artwork_failure (Throws "quota exceeded")
           "alice" morning_walk 1000 ∅ "Morning walk" "I went to the park"
           []);
    done.
Defined.

Lemma put_update_empties_sentences_witness :
  MemoryGardenRoutes.findFirst 0 "alice" {[ 0%nat := morning_walk_entry ]}
  = Some morning_walk_entry
  /\ post_regenerate_artwork true (Returns garden_art) "alice" 0 3000
       (put_update true (Returns garden_art) "alice" 0 no_sentences 2000
          {[ 0%nat := morning_walk_entry ]}).2
     = (Error 400 "Cannot generate artwork without sentences",
        (put_update true (Returns garden_art) "alice" 0 no_sentences 2000
           {[ 0%nat := morning_walk_entry ]}).2).
Proof.
  assert (H : MemoryGardenRoutes.findFirst 0 "alice"
                {[ 0%nat := morning_walk_entry ]}
              = Some morning_walk_entry) by (vm_compute; reflexivity).
  split; [exact H|].
  exact (proj2 (put_update_empties_sentences (Returns garden_art)
                  (Returns garden_art) "alice" 0 no_sentences 2000 3000
                  {[ 0%nat := morning_walk_entry ]} morning_walk_entry
                  H eq_refl)).
Defined.

Lemma delete_entry_undoes_post_create_witness :
  post_create true (Throws "quota exceeded") "alice" morning_walk 1000 ∅
  = (Json 201 (0%nat, morning_walk_entry), {[ 0%nat := morning_walk_entry ]})
  /\ delete_entry true "alice" 0 {[ 0%nat := morning_walk_entry ]}
     = (Json 200 tt, ∅).
Proof.
  assert (H : post_create true (Throws "quota exceeded") "alice" morning_walk
                1000 ∅
              = (Json 201 (0%nat, morning_walk_entry),
                 {[ 0%nat := morning_walk_entry ]}))
    by (vm_compute; reflexivity).
  split; [exact H|].
  exact (delete_entry_undoes_post_create _ _ _ _ _ _ _ _ H).
Defined.

Lemma post_bulk_create_not_atomic_witness :
  (1 < length (sessions_with_sentences [0; 1; 2]%nat "alice"
                 three_sessions))%nat
  /\ exists entries',
       post_bulk_create true toLocaleDateString second_call_fails "alice"
         (Some [0; 1; 2]%nat) (Some false) 5000 three_sessions ∅
       = (Error 500 "Failed to create memory garden entries", entries')
       /\ size entries' = (size (∅ : gmap nat Entry) + 1)%nat.
Proof.
  assert (H : (1 < length (sessions_with_sentences [0; 1; 2]%nat "alice"
                             three_sessions))%nat)
    by (vm_compute; lia).
  split; [exact H|].
  apply (post_bulk_create_not_atomic toLocaleDateString second_call_fails
           "alice" [0; 1; 2]%nat 5000 three_sessions ∅ 1 "quota exceeded" H);
    [|done].
  intros [|i] Hi; [by eexists|lia].
Defined.

Lemma post_bulk_create_modes_agree_witness :
  sessions_with_sentences [0; 1; 2]%nat "alice" three_sessions <> []
  /\ exists id e entries1 each entries2,
       post_bulk_create true toLocaleDateString (fun _ => Returns garden_art)
         "alice" (Some [0; 1; 2]%nat) (Some true) 5000 three_sessions ∅
       = (Json 200 [(id, e)], entries1)
       /\ post_bulk_create true toLocaleDateString
            (fun _ => Returns garden_art) "alice" (Some [0; 1; 2]%nat)
            (Some false) 5000 three_sessions ∅
          = (Json 200 each, entries2)
       /\ length each
          = length (sessions_with_sentences [0; 1; 2]%nat "alice"
                      three_sessions)
       /\ size entries2 = (size (∅ : gmap nat Entry) + length each)%nat
       /\ size entries1 = S (size (∅ : gmap nat Entry))
       /\ sentences e = each ≫= (fun c => sentences c.2)
       /\ sessionIds e = each ≫= (fun c => sessionIds c.2).
Proof.
  assert (H : sessions_with_sentences [0; 1; 2]%nat "alice" three_sessions
              <> []) by (vm_compute; discriminate).
  split; [exact H|].
  apply (post_bulk_create_modes_agree toLocaleDateString
           (fun _ => Returns garden_art) "alice" [0; 1; 2]%nat 5000
           three_sessions ∅ H).
  intros _. by eexists.
Defined.

Lemma post_bulk_create_own_sentences_witness :
  (post_bulk_create true toLocaleDateString (fun _ => Returns garden_art)
     "alice" (Some [0; 1; 2]%nat) (Some true) 5000 three_sessions ∅).2
    !! 0%nat
  = Some (bulk_entry "alice" "Communication Journey - 5000"
            "Combined insights from 2 therapy sessions" [0; 1]%nat
            (completedSentences Scenario.three_sentences
             ++ completedSentences Scenario.three_sentences)
            garden_art 5000)
  /\ forall s,
       s ∈ completedSentences Scenario.three_sentences
           ++ completedSentences Scenario.three_sentences ->
       exists sid session,
         sid ∈ [0; 1; 2]%nat /\ three_sessions !! sid = Some session
         /\ Store.userId session = "alice"
         /\ s ∈ completedSentences session.
Proof.
  assert (H : (post_bulk_create true toLocaleDateString
                 (fun _ => Returns garden_art) "alice" (Some [0; 1; 2]%nat)
                 (Some true) 5000 three_sessions ∅).2 !! 0%nat
              = Some (bulk_entry "alice" "Communication Journey - 5000"
                        "Combined insights from 2 therapy sessions"
                        [0; 1]%nat
                        (completedSentences Scenario.three_sentences
                         ++ completedSentences Scenario.three_sentences)
                        garden_art 5000))
    by (vm_compute; reflexivity).
  split; [exact H|].
  exact (proj2 (post_bulk_create_own_sentences true toLocaleDateString
                  (fun _ => Returns garden_art) "alice"
                  (Some [0; 1; 2]%nat) (Some true) 5000 three_sessions ∅ 0
                  _ H eq_refl)).
Defined.

Lemma pages_cover_the_rows_witness :
  exists p,
    pages 25 10 = Fin (Qc_of_Z p)
    /\ (25 = 0 -> p = 0)
    /\ (0 < 25 -> (p - 1) * 10 < 25 <= p * 10)
    /\ (1 <= 3 -> (skip 3 10 < 25 <-> 3 <= p)).
Proof. apply (pages_cover_the_rows 3 10 25); lia. Defined.

Lemma stats_after_post_create_witness :
  post_create true (Throws "quota exceeded") "alice" morning_walk 1000 ∅
  = (Json 201 (0%nat, morning_walk_entry), {[ 0%nat := morning_walk_entry ]})
  /\ get_stats_summary "alice" {[ 0%nat := morning_walk_entry ]}
     = {| totalEntries := 1; totalSentences := 1 |}.
Proof.
  assert (H : post_create true (Throws "quota exceeded") "alice" morning_walk
                1000 ∅
              = (Json 201 (0%nat, morning_walk_entry),
                 {[ 0%nat := morning_walk_entry ]}))
    by (vm_compute; reflexivity).
  split; [exact H|].
  exact (stats_after_post_create _ "alice" "alice" _ _ _ _ _ _ H).
Defined.

Lemma progress_of_a_day_witness :
  (∅ : gmap (string * Z) Progress) !! ("alice", 0) = None
  /\ (exists p,
        report_all "alice" two_reports ∅ !! ("alice", 0) = Some p
        /\ totalSessions p = 2 /\ totalWordsImproved p = 3)
  /\ (ProgressRace.moves
        [ProgressRace.Read "alice" (session_end_data ["It was sunny"] None)
           1000;
         ProgressRace.Read "alice" (session_end_data ["I saw a dog"] None)
           2000;
         ProgressRace.Write 0; ProgressRace.Write 0] (∅, [])).1
     = updateUserProgress "alice" (session_end_data ["It was sunny"] None)
         1000 ∅.
Proof.
  assert (H0 : (∅ : gmap (string * Z) Progress) !! ("alice", 0) = None)
    by apply lookup_empty.
  destruct (progress_of_a_day "alice" 0 ∅ H0) as (_ & Hseq & Hover).
  split; [exact H0|]. split.
  - destruct (Hseq (session_end_data ["I went to the park"; "I saw a dog"]
                      (Some (Fin (Q2Qc (85 # 100))))) 1000
                   [(session_end_data ["It was sunny"] None, 2000)])
      as (p & _ & Hp & Hs & Hw & _); [by repeat constructor|].
    exists p. split; [exact Hp|]. split; [exact Hs|exact Hw].
  - exact (proj1 (Hover (session_end_data ["It was sunny"] None)
                    (session_end_data ["I saw a dog"] None) 1000 2000
                    eq_refl eq_refl)).
Defined.

Lemma progress_average_in_unit_interval_witness :
  in_unit_interval
    (pd_averageConfidence
       (session_end_data ["It was sunny"] (Some (Fin (Q2Qc (85 # 100))))))
  /\ forall k p,
       updateUserProgress "alice"
         (session_end_data ["It was sunny"] (Some (Fin (Q2Qc (85 # 100)))))
         1000 ∅ !! k = Some p ->
       in_unit_interval (averageConfidence p).
Proof.
  assert (H : in_unit_interval
                (pd_averageConfidence
                   (session_end_data ["It was sunny"]
                      (Some (Fin (Q2Qc (85 # 100)))))))
    by (split; by vm_compute).
  split; [exact H|].
  apply (progress_average_in_unit_interval "alice" _ 1000 ∅ H).
  intros k p. by rewrite lookup_empty.
Defined.

Lemma broadcast_follows_authentication_until_disconnect_witness :
  sockets_of "alice" (handleDisconnection 1 (exec two_sockets init)) = [2%nat]
  /\ broadcastToUser "alice" (session_started 7)
       (on_authenticate 1 (Some "alice") (exec two_sockets init))
     = emit 1 None (session_started 7)
         (on_authenticate 1 (Some "alice") (exec two_sockets init))
  /\ broadcastToUser "alice" (session_started 7)
       (handleDisconnection 1 (exec two_sockets init))
     = handleDisconnection 1 (exec two_sockets init).
Proof.
  split; [vm_compute; reflexivity|].
  assert (Hs : sockets (exec two_sockets init) !! 1%nat
               = Some {| s_auth := Some "alice"; s_sessionId := None;
                         s_connected := true |})
    by (vm_compute; reflexivity).
  destruct (broadcast_follows_authentication_until_disconnect 1 _ "alice"
              (session_started 7) _ Hs eq_refl) as [Hauth Hdisc].
  split; [exact Hauth|].
  exact (proj2 (Hdisc eq_refl ltac:(discriminate))).
Defined.

Lemma visual_aid_requested_for_named_concept_witness :
  (exists t tr an,
     turns (exec awaiting_visual_aid init) !! 0%nat = Some t
     /\ stage t = AwaitVisualAid tr an "park"
     /\ "park" <> EmptyString).
Proof.
  eexists _, _, _. split; [vm_compute; reflexivity|].
  split; [reflexivity|].
  eapply (visual_aid_requested_for_named_concept awaiting_visual_aid 0).
  - vm_compute. reflexivity.
  - reflexivity.
Defined.

Lemma socket_service_writes_no_sentences_witness :
  fresh_ids sentences_stored
  /\ (exists s',
        sessions (exec turn_and_feedback sentences_stored) !! 0%nat = Some s'
        /\ transcript s' = "I went... park"
        /\ totalPredictions s' = 1
        /\ completedSentences s'
           = ["I went to the park"; "I saw a dog"; "It was sunny"])
  /\ forall db progress now c,
       c ∈ (endSession 0 db progress now
              (sessions (exec turn_and_feedback sentences_stored))).2 ->
       c = SpeechRoutes.updateUserProgress "alice" 3.
Proof.
  assert (H : fresh_ids sentences_stored).
  { assert (Hm : sessions sentences_stored
                 = <[0%nat := SpeechRoutes.merge_update three_sentences_body
                                100 (new_session "alice" 0)]> ∅)
      by (vm_compute; reflexivity).
    intros k [s Hs]. rewrite Hm in Hs.
    destruct k as [| k]; [vm_compute; lia |].
    by rewrite lookup_insert_ne, lookup_empty in Hs. }
  split; [exact H |].
  assert (Hex : exists s',
            sessions (exec turn_and_feedback sentences_stored) !! 0%nat
            = Some s'
            /\ transcript s' = "I went... park"
            /\ totalPredictions s' = 1 /\ Store.userId s' = "alice").
  { vm_compute. eexists. split; [reflexivity |]. done. }
  destruct Hex as (s' & Hs' & Hrow).
  pose proof (socket_service_writes_no_sentences turn_and_feedback
                sentences_stored 0 s' H Hs') as [[Hc _] Hend].
  destruct Hrow as (Ht & Hn & Hu).
  split.
  - exists s'. split; [exact Hs' |]. split; [exact Ht |].
    split; [exact Hn |]. exact Hc.
  - intros db progress now c Hin. rewrite (Hend db progress now c Hin), Hu.
    reflexivity.
Defined.

Lemma socket_sessions_keep_their_owner_witness :
  sessions (exec [Connect 1; Authenticate 1 (Some "alice");
                  StartSession 1 (Returns tt)] init) !! 0%nat
  = Some (new_session "alice" 0)
  /\ exists s',
       sessions (exec session_with_feedback init) !! 0%nat = Some s'
       /\ Store.userId s' = "alice" /\ startedAt s' = 0.
Proof.
  assert (H : sessions (exec [Connect 1; Authenticate 1 (Some "alice");
                              StartSession 1 (Returns tt)] init) !! 0%nat
              = Some (new_session "alice" 0)) by (vm_compute; reflexivity).
  split; [exact H|].
  exact (socket_sessions_keep_their_owner
           [Connect 1; Authenticate 1 (Some "alice");
            StartSession 1 (Returns tt)]
           [SendFeedback 1
              {| predictionAccepted := true; suggestion := "park";
                 actualIntent := "park"; fb_sessionId := Some 0%nat |}
              (Returns tt)] 0 _ H).
Defined.

Lemma unauthenticated_socket_changes_nothing_witness :
  step (ProcessSpeech 1 Scenario.speech Scenario.all_succeed)
    (exec [Connect 1] init)
  = emit 1 None (error "Not authenticated") (exec [Connect 1] init)
  /\ step (EndSession 1 (Returns tt) (Returns tt)) (exec [Connect 1] init)
     = exec [Connect 1] init.
Proof.
  split; [vm_compute; reflexivity|].
  apply (unauthenticated_socket_changes_nothing 1 (exec [Connect 1] init)
           Scenario.speech Scenario.all_succeed (Returns tt) (Returns tt)
           {| predictionAccepted := true; suggestion := "park";
              actualIntent := "park"; fb_sessionId := None |}).
  intros s. vm_compute. by intros [= <-].
Defined.

Lemma session_end_can_be_repeated_witness :
  exists response sessions1 memoryGarden1 calls1 sessions2 calls2,
    SpeechRoutes.post_session_end true (Returns "https://images.example/1.png")
      true "alice" 0 (completedSentences Scenario.three_sentences) 60000
      {[ 0%nat := Scenario.three_sentences ]} []
    = (response, sessions1, memoryGarden1, calls1)
    /\ SpeechRoutes.post_session_end true
         (Returns "https://images.example/2.png") true "alice" 0
         (completedSentences Scenario.three_sentences) 90000 sessions1
         memoryGarden1
       = (SpeechRoutes.Json
            {| SpeechRoutes.st_duration := (90000 - 0) / 1000;
               SpeechRoutes.st_completedSentences := 3 |},
          sessions2,
          [] ++ [{| SpeechRoutes.g_userId := "alice";
                    SpeechRoutes.g_sessionIds := [0%nat];
                    SpeechRoutes.g_sentences :=
                      completedSentences Scenario.three_sentences;
                    SpeechRoutes.g_artworkUrl :=
                      "https://images.example/1.png" |};
                 {| SpeechRoutes.g_userId := "alice";
                    SpeechRoutes.g_sessionIds := [0%nat];
                    SpeechRoutes.g_sentences :=
                      completedSentences Scenario.three_sentences;
                    SpeechRoutes.g_artworkUrl :=
                      "https://images.example/2.png" |}],
          calls2).
Proof.
  apply (session_end_can_be_repeated "alice" 0 Scenario.three_sentences
           (completedSentences Scenario.three_sentences)
           (completedSentences Scenario.three_sentences)
           "https://images.example/1.png" "https://images.example/2.png"
           60000 90000 {[ 0%nat := Scenario.three_sentences ]} []);
    [done|done|simpl; lia|simpl; lia].
Defined.


End Witnesses.
